(** * Makerates: the network loader, validator and ODE writer of UCLCHEM

    A shallow embedding of [src/Makerates/Functions.py].  Python byte
    strings are [string]; lists are [list]; an exception or a loop that
    never ends is an explicit [outcome]. *)

From Stdlib Require Import Ascii String DecimalString ZArith Lia.
From stdpp Require Import list strings.

Local Open Scope nat_scope.

(** ** Outcomes of Python code *)

Inductive exn : Set :=
| IndexError
| ValueError
| UnboundLocalError
| AttributeError
| StopIteration.

Inductive outcome (A : Type) : Type :=
| Ok (a : A)
| Raise (e : exn)
| OutOfFuel.
Arguments Ok {A} a.
Arguments Raise {A} e.
Arguments OutOfFuel {A}.

Global Instance outcome_ret : MRet outcome := λ A a, Ok a.
Global Instance outcome_bind : MBind outcome := λ A B k m,
  match m with
  | Ok a => k a
  | Raise e => Raise e
  | OutOfFuel => OutOfFuel
  end.
Global Instance outcome_fmap : FMap outcome := λ A B f m,
  match m with
  | Ok a => Ok (f a)
  | Raise e => Raise e
  | OutOfFuel => OutOfFuel
  end.

(** [l[i]] on a list: out of range raises IndexError. *)
Definition item {A} (l : list A) (i : nat) : outcome A :=
  match l !! i with
  | Some a => Ok a
  | None => Raise IndexError
  end.

(** ** Strings *)

Definition nl : string := String "010"%char "".

Definition chars (s : string) : list ascii := String.list_ascii_of_string s.
Definition text (l : list ascii) : string := String.string_of_list_ascii l.

(** [str(n)] for a non-negative integer. *)
Definition str (n : nat) : string := NilEmpty.string_of_uint (Nat.to_uint n).

(** [s[-1]]: the last character, IndexError on the empty string. *)
Definition last_char (s : string) : outcome ascii :=
  match last (chars s) with
  | Some c => Ok c
  | None => Raise IndexError
  end.

(** [s[0]] *)
Definition first_char (s : string) : outcome ascii :=
  match s with
  | String c _ => Ok c
  | EmptyString => Raise IndexError
  end.

(** [x in l] and [l.count(x)] on lists of strings. *)
Definition mem (x : string) (l : list string) : bool := bool_decide (x ∈ l).

Definition count (x : string) (l : list string) : nat :=
  length (filter (λ y, y = x) l).

Fixpoint rep (n : nat) (s : string) : string :=
  match n with
  | 0 => ""
  | S n' => s +:+ rep n' s
  end.

(** ** The data model *)

(** A cell of a row or a field of an object: text as read from the file,
    or a number assigned by the code ([0.0], [10000.0], [1]). *)
Inductive value : Set :=
| VStr (s : string)
| VFloat (z : Z)
| VInt (z : Z).

Record Species : Set := mkSpecies {
  name : string;
  mass : string;
  bindener : string;
  solidFraction : string;
  monoFraction : string;
  volcFraction : string;
  enthalpy : string;
  n_atoms : option nat  (* set by find_constituents only *)
}.

Record Reaction : Set := mkReaction {
  reactants : list string;
  products : list string;
  alpha : value;
  beta : value;
  gamma : value;
  templow : value;
  temphigh : value
}.

Definition row := list string.

(** [Species.__init__] *)
Definition Species_init (inputRow : row) : outcome Species :=
  r0 ← item inputRow 0;
  r1 ← item inputRow 1;
  r2 ← item inputRow 2;
  r3 ← item inputRow 3;
  r4 ← item inputRow 4;
  r5 ← item inputRow 5;
  r6 ← item inputRow 6;
  Ok (mkSpecies r0 r1 r2 r3 r4 r5 r6 None).

(** [Reaction.NANCheck]: the empty string is the only falsy text. *)
Definition NANCheck (a : string) : string :=
  if bool_decide (a = "") then "NAN" else a.

(** [Reaction.__init__] *)
Definition Reaction_init (inputRow : row) : outcome Reaction :=
  r0 ← item inputRow 0;
  r1 ← item inputRow 1;
  r2 ← item inputRow 2;
  r3 ← item inputRow 3;
  r4 ← item inputRow 4;
  r5 ← item inputRow 5;
  r6 ← item inputRow 6;
  r7 ← item inputRow 7;
  r8 ← item inputRow 8;
  r9 ← item inputRow 9;
  r10 ← item inputRow 10;
  r11 ← item inputRow 11;
  Ok (mkReaction [r0; r1; NANCheck r2]
                 [r3; NANCheck r4; NANCheck r5; NANCheck r6]
                 (VStr r7) (VStr r8) (VStr r9) (VStr r10) (VStr r11)).

(** ** is_H2_formation *)

Definition non_empty (l : list string) : nat :=
  length (filter (λ s, s ≠ "") l).

Definition is_H2_formation (reactants products : list string) : bool :=
  let nReactants := non_empty reactants in
  let nProducts := non_empty products in
  if (nReactants =? 2) && (nProducts =? 1)
     && bool_decide (reactants !! 0 = Some "H")
     && bool_decide (reactants !! 1 = Some "H")
     && bool_decide (products !! 0 = Some "H2")
  then true
  else if (nReactants =? 3) && (nProducts =? 2)
     && bool_decide (reactants !! 0 = Some "H")
     && bool_decide (reactants !! 1 = Some "H")
     && bool_decide (reactants !! 2 = Some "#")
     && bool_decide (products !! 0 = Some "H2")
     && bool_decide (products !! 1 = Some "#")
  then true
  else false.

(** ** Reading the input files

    [csv.reader] is a library: a file is the list of its rows, each row
    the list of its cells. *)

(** [read_species_file]: the species list ([nSpecies] is its length). *)
Fixpoint read_species_file (rows : list row) : outcome (list Species) :=
  match rows with
  | [] => Ok []
  | r :: rows' =>
      r0 ← item r 0;
      if bool_decide (r0 ≠ "NAME")
      then sp ← Species_init r; (sp ::.) <$> read_species_file rows'
      else read_species_file rows'
  end.

(** The fixed part of [keepList]. *)
Definition keepTokens : list string :=
  [""; "NAN"; "#"; "E-"; "e-"; "ELECTR"; "PHOTON"; "CRP"; "CRPHOT"; "FREEZE";
   "CRH"; "PHOTD"; "THERM"; "XRAY"; "XRSEC"; "XRLYA"; "XRPHOT"; "DESOH2";
   "DESCR"; "DEUVCR"].

Definition keepList (speciesList : list Species) : list string :=
  keepTokens ++ map name speciesList.

Definition all_in (keep : list string) (xs : list string) : bool :=
  forallb (λ x, mem x keep) xs.

(** [l[a:b]] *)
Definition slice {A} (a b : nat) (l : list A) : list A :=
  take (b - a) (drop a l).

(** One row of a UMIST file.  The list [[row[2],...,row[7]]] is built
    before the test, so a row of fewer than eight cells raises. *)
Definition umist_row (keep : list string) (r : row) : outcome (option Reaction) :=
  c2 ← item r 2;
  c3 ← item r 3;
  c4 ← item r 4;
  c5 ← item r 5;
  c6 ← item r 6;
  c7 ← item r 7;
  if all_in keep [c2; c3; c4; c5; c6; c7]
  then Some <$> Reaction_init (slice 2 4 r ++ [""] ++ slice 4 8 r ++ drop 9 r)
  else Ok None.

(** One row of a UCL file.  [row[10]=0.0; row[11]=10000.0] raise on a
    short row; the constructor then copies the two numbers, which is the
    same as constructing from the cells and setting the two fields. *)
Definition ucl_row (keep : list string) (r : row) : outcome (option Reaction) :=
  if all_in keep (slice 0 7 r)
  then
    _ ← item r 10;
    _ ← item r 11;
    rc ← Reaction_init r;
    Ok (Some (mkReaction (reactants rc) (products rc) (alpha rc) (beta rc)
                (gamma rc) (VFloat 0) (VFloat 10000)))
  else Ok None.

Fixpoint read_rows (f : row → outcome (option Reaction)) (rows : list row)
  : outcome (list Reaction) :=
  match rows with
  | [] => Ok []
  | r :: rows' =>
      o ← f r;
      rest ← read_rows f rows';
      Ok (match o with Some rc => rc :: rest | None => rest end)
  end.

(** [read_reaction_file]: the reaction list ([nReactions] is its length). *)
Definition read_reaction_file (rows : list row) (speciesList : list Species)
    (ftype : string) : outcome (list Reaction) :=
  let keep := keepList speciesList in
  if bool_decide (ftype = "UMIST") then read_rows (umist_row keep) rows
  else if bool_decide (ftype = "UCL") then read_rows (ucl_row keep) rows
  else Ok [].

(** ** filter_species *)

(** What the function prints. *)
Inductive message : Set :=
| AppearsTwice (n : string)
| OneEntryRemoved (n : string)
| NotInFinalList (lost : list string).

(** [keepFlag] of the first loop: some reaction has the name among its
    reactants or among its products. *)
Definition used (reactionList : list Reaction) (n : string) : bool :=
  existsb (λ r, mem n (reactants r) || mem n (products r)) reactionList.

Definition keepFlag (reactionList : list Reaction) (sp : Species) : bool :=
  used reactionList (name sp).

(** The first loop.  A [for] over a list keeps a cursor [idx] into the
    list object, and [speciesList.remove(species)] shortens that same
    object: the object found at the cursor is the one deleted (the rows of
    a file give distinct objects), and the cursor still advances. *)
Fixpoint orphan_loop (fuel idx : nat) (reactionList : list Reaction)
    (speciesList : list Species) (lostSpecies : list string)
  : outcome (list Species * list string) :=
  match speciesList !! idx with
  | None => Ok (speciesList, lostSpecies)
  | Some sp =>
      match fuel with
      | 0 => OutOfFuel
      | S fuel' =>
          if keepFlag reactionList sp
          then orphan_loop fuel' (S idx) reactionList speciesList lostSpecies
          else orphan_loop fuel' (S idx) reactionList
                 (delete idx speciesList) (lostSpecies ++ [name sp])
      end
  end.

(** The body of the two nested [for] loops over indices, at one [(i, j)]. *)
Definition dup_test (name_i : string) (i : nat) (acc : list string * list message)
    (j : nat) (sj : Species) : list string * list message :=
  if bool_decide (name_i = name sj) && negb (j =? i)
     && negb (mem name_i acc.1)
  then (acc.1 ++ [name_i], acc.2 ++ [AppearsTwice name_i])
  else acc.

Fixpoint dup_inner (name_i : string) (i j : nat) (suffix : list Species)
    (acc : list string * list message) : list string * list message :=
  match suffix with
  | [] => acc
  | sj :: suffix' =>
      dup_inner name_i i (S j) suffix' (dup_test name_i i acc j sj)
  end.

Fixpoint dup_outer (speciesList : list Species) (i : nat)
    (suffix : list Species) (acc : list string * list message)
  : list string * list message :=
  match suffix with
  | [] => acc
  | si :: suffix' =>
      dup_outer speciesList (S i) suffix'
        (dup_inner (name si) i 0 speciesList acc)
  end.

(** The [while not removed] loop: delete the first entry of that name;
    running off the end of the list raises. *)
Fixpoint remove_one (duplicate : string) (speciesList : list Species)
  : outcome (list Species) :=
  match speciesList with
  | [] => Raise IndexError
  | sp :: rest =>
      if bool_decide (name sp = duplicate) then Ok rest
      else (sp ::.) <$> remove_one duplicate rest
  end.

Fixpoint remove_duplicates (duplicate_list : list string)
    (speciesList : list Species) (out : list message)
  : outcome (list Species * list message) :=
  match duplicate_list with
  | [] => Ok (speciesList, out)
  | d :: ds =>
      l ← remove_one d speciesList;
      remove_duplicates ds l (out ++ [OneEntryRemoved d])
  end.

Definition filter_species (speciesList : list Species)
    (reactionList : list Reaction) : outcome (list Species * list message) :=
  '(l1, lostSpecies) ← orphan_loop (length speciesList) 0 reactionList speciesList [];
  let '(duplicate_list, out) := dup_outer l1 0 l1 ([], []) in
  '(l2, out2) ← remove_duplicates duplicate_list l1 out;
  Ok (l2, out2 ++ [NotInFinalList lostSpecies]).

(** ** find_constituents *)

Definition elementList : list string :=
  ["H"; "D"; "HE"; "C"; "N"; "O"; "F"; "P"; "S"; "CL"; "LI"; "NA"; "MG"; "SI";
   "PAH"].
Definition elementMass : list Z :=
  [1; 2; 4; 12; 14; 16; 19; 31; 32; 35; 3; 23; 24; 28; 420]%Z.
Definition symbols : list string := ["#"; "+"; "-"].

Inductive diagnostic : Set :=
| NotInElementList (speciesName : string) (table : list string)
| MassMismatch (speciesName : string) (calculated : Z) (input : string).

(** The variables of the [while] loop.  [j] is a local of the whole
    function: it is unbound until the first element is recognised and
    keeps its value from one pass, and from one species, to the next. *)
Record scan : Set := mkScan {
  sc_i : nat;
  sc_j : option nat;
  sc_atoms : list string;
  sc_out : list diagnostic
}.

(** [float(c)] succeeds on a single character exactly when it is a digit. *)
Definition digit_at (s : string) (k : nat) : option nat :=
  c ← String.get k s; Ascii.is_nat c.

(** One pass of the [while i<len(speciesName)] loop. *)
Definition scan_step (speciesName : string) (st : scan) : outcome scan :=
  let i := sc_i st in
  let len := String.length speciesName in
  let ci := String.substring i 1 speciesName in
  if negb (mem ci symbols) then
    let j :=
      if i + 1 <? len then
        if mem (String.substring i 2 speciesName) elementList then Some (i + 2)
        else if mem ci elementList then Some (i + 1)
        else sc_j st
      else if mem ci elementList then Some (i + 1)
      else sc_j st in
    match j with
    | None => Raise UnboundLocalError
    | Some jv =>
        if i <? jv then
          let atom := String.substring i (jv - i) speciesName in
          let atoms := sc_atoms st ++ [atom] in
          if jv <? len then
            match digit_at speciesName jv with
            | Some d =>
                Ok (mkScan (jv + 1) j (atoms ++ replicate (d - 1) atom) (sc_out st))
            | None => Ok (mkScan jv j atoms (sc_out st))
            end
          else Ok (mkScan jv j atoms (sc_out st))
        else
          Ok (mkScan i j (sc_atoms st)
                (sc_out st ++ [NotInElementList speciesName elementList]))
    end
  else Ok (mkScan (i + 1) (sc_j st) (sc_atoms st) (sc_out st)).

Fixpoint scan_loop (fuel : nat) (speciesName : string) (st : scan) : outcome scan :=
  if sc_i st <? String.length speciesName then
    match fuel with
    | 0 => OutOfFuel
    | S fuel' => st' ← scan_step speciesName st; scan_loop fuel' speciesName st'
    end
  else Ok st.

(** [elementList.index(atom)] *)
Definition element_index (atom : string) : outcome nat :=
  match list_find (λ e, e = atom) elementList with
  | Some (k, _) => Ok k
  | None => Raise ValueError
  end.

Fixpoint sum_mass (atoms : list string) (mass : Z) : outcome Z :=
  match atoms with
  | [] => Ok mass
  | atom :: atoms' =>
      k ← element_index atom;
      m ← item elementMass k;
      sum_mass atoms' (mass + m)%Z
  end.

Section Constituents.
(** The test [mass != float(species.mass)] on the text of the mass
    column: floating point is outside the model, so the test is taken as
    given; it raises where the text is not a number. *)
Variable mass_differs : Z → string → outcome bool.

Fixpoint find_loop (fuel : nat) (speciesList : list Species) (j : option nat)
    (out : list diagnostic) : outcome (list Species * list diagnostic) :=
  match speciesList with
  | [] => Ok ([], out)
  | species :: rest =>
      st ← scan_loop fuel (name species) (mkScan 0 j [] out);
      let species' :=
        mkSpecies (name species) (mass species) (bindener species)
          (solidFraction species) (monoFraction species)
          (volcFraction species) (enthalpy species)
          (Some (length (sc_atoms st))) in
      m ← sum_mass (sc_atoms st) 0%Z;
      differs ← mass_differs m (mass species);
      let out' :=
        if differs : bool
        then sc_out st ++ [MassMismatch (name species) m (mass species)]
        else sc_out st in
      '(rest', out'') ← find_loop fuel rest (sc_j st) out';
      Ok (species' :: rest', out'')
  end.

Definition find_constituents (fuel : nat) (speciesList : list Species)
  : outcome (list Species * list diagnostic) :=
  find_loop fuel speciesList None [].
End Constituents.

(** ** Writing the species and reaction tables

    [csv.writer] is a library: a table is its count line and its rows. *)

Definition table : Set := string * list (list value).

(** A species that constituent analysis has not visited has no
    [n_atoms] attribute. *)
Fixpoint species_rows (speciesList : list Species) : outcome (list (list value)) :=
  match speciesList with
  | [] => Ok []
  | species :: rest =>
      match n_atoms species with
      | None => Raise AttributeError
      | Some n =>
          rows ← species_rows rest;
          Ok ([VStr (name species); VStr (mass species); VInt (Z.of_nat n)] :: rows)
      end
  end.

Definition write_species (speciesList : list Species) : outcome table :=
  let nSpecies := length speciesList in
  rows ← species_rows speciesList;
  Ok (str (nSpecies + 1) +:+ nl, rows).

(** The test of [write_reactions]; [and] evaluates [reactants[0][-1]] only
    when FREEZE is a reactant. *)
Definition ion_freeze (reaction : Reaction) : outcome bool :=
  if mem "FREEZE" (reactants reaction) then
    r0 ← item (reactants reaction) 0;
    c ← last_char r0;
    Ok (bool_decide (c = "+"%char))
  else Ok false.

Definition set_beta (reaction : Reaction) (b : value) : Reaction :=
  mkReaction (reactants reaction) (products reaction) (alpha reaction) b
    (gamma reaction) (templow reaction) (temphigh reaction).

Definition reaction_cells (reaction : Reaction) : list value :=
  map VStr (reactants reaction) ++ map VStr (products reaction)
  ++ [alpha reaction; beta reaction; gamma reaction; templow reaction;
      temphigh reaction].

(** The loop of [write_reactions]: the rows written and the reaction
    objects as the loop leaves them. *)
Fixpoint write_rows (reactionList : list Reaction)
  : outcome (list (list value) * list Reaction) :=
  match reactionList with
  | [] => Ok ([], [])
  | reaction :: rest =>
      ion ← ion_freeze reaction;
      let reaction' := if ion : bool then set_beta reaction (VInt 1) else reaction in
      '(rows, rest') ← write_rows rest;
      Ok (reaction_cells reaction' :: rows, reaction' :: rest')
  end.

Definition write_reactions (reactionList : list Reaction)
  : outcome (table * list Reaction) :=
  '(rows, reactionList') ← write_rows reactionList;
  Ok ((str (length reactionList) +:+ nl, rows), reactionList').

(** ** truncate_line *)

Definition lineLength : nat := 72.
Definition maxlines : nat := 30.

Fixpoint find_last (c : ascii) (l : list ascii) (pos : nat) : option nat :=
  match l with
  | [] => None
  | x :: l' =>
      match find_last c l' (S pos) with
      | Some k => Some k
      | None => if bool_decide (x = c) then Some pos else None
      end
  end.

(** [input.rfind(c, 0, stop)]: the last position below [stop], or -1. *)
Definition rfind (c : ascii) (stop : nat) (input : list ascii) : Z :=
  match find_last c (take stop input) 0 with
  | Some k => Z.of_nat k
  | None => (-1)%Z
  end.

(** [input.index(c)] *)
Definition index_of (c : ascii) (input : list ascii) : outcome nat :=
  match list_find (λ x, x = c) input with
  | Some (k, _) => Ok k
  | None => Raise ValueError
  end.

(** [input[:k]] and [input[k:]] for an index that may be negative. *)
Definition cut (k : Z) (input : list ascii) : nat :=
  if (k <? 0)%Z then length input - Z.to_nat (- k) else Z.to_nat k.
Definition upto (k : Z) (input : list ascii) : list ascii :=
  take (cut k input) input.
Definition from (k : Z) (input : list ascii) : list ascii :=
  drop (cut k input) input.

(** [s.strip()] *)
Fixpoint lstrip (l : list ascii) : list ascii :=
  match l with
  | c :: l' => if Ascii.is_space c then lstrip l' else l
  | [] => []
  end.
Definition strip (l : list ascii) : list ascii := rev (lstrip (rev (lstrip l))).

Definition index2 (input : list ascii) : Z :=
  Z.max (rfind "+" lineLength input) (rfind "-" lineLength input).
Definition index4 (input : list ascii) : Z :=
  Z.max (Z.max (Z.max (rfind "+" lineLength input) (rfind "-" lineLength input))
           (rfind "*" lineLength input)) (rfind "/" lineLength input).

Definition amp_tail : list ascii := chars (" &" +:+ nl).
Definition amp_head : list ascii := chars "     &       ".

Fixpoint truncate_loop (fuel : nat) (codeFormat : string)
    (continuationCode : option (list ascii)) (lhs : list ascii)
    (lines : nat) (result input : list ascii) : outcome (list ascii) :=
  if lineLength <? length input then
    match fuel with
    | 0 => OutOfFuel
    | S fuel' =>
        let lines := lines + 1 in
        if lines =? maxlines then
          let index := index2 input in
          truncate_loop fuel' codeFormat continuationCode lhs 0
            (result ++ upto index input ++ chars nl)
            (lhs ++ chars "=" ++ lhs ++ from index input)
        else
          let index := index4 input in
          let result' :=
            if bool_decide (codeFormat = "F90") then
              match continuationCode with
              | Some cc => result ++ upto index input ++ chars " " ++ strip cc ++ chars nl
              | None => result ++ upto index input ++ amp_tail
              end
            else result ++ upto index input ++ chars nl in
          let input' :=
            match continuationCode with
            | Some cc => cc ++ from index input
            | None => amp_head ++ from index input
            end in
          truncate_loop fuel' codeFormat continuationCode lhs lines result' input'
    end
  else Ok (result ++ input).

Definition truncate_line (fuel : nat) (input : string) (codeFormat : string)
    (continuationCode : option string) : outcome string :=
  index ← index_of "=" (chars input);
  let lhs := take index (chars input) in
  text <$> truncate_loop fuel codeFormat (chars <$> continuationCode) lhs 0 []
             (chars input).

(** ** electron_eq and multiple *)

Definition Y (k : nat) : string := "Y(" +:+ str k +:+ ")".

Fixpoint electron_terms (n : nat) (speciesList : list Species) (elec_eq : string)
  : outcome string :=
  match speciesList with
  | [] => Ok elec_eq
  | species :: rest =>
      c ← last_char (name species);
      let e1 :=
        if bool_decide (c = "+"%char)
        then (if 0 <? String.length elec_eq then elec_eq +:+ "+" else elec_eq)
             +:+ Y (n + 1)
        else elec_eq in
      let e2 :=
        if bool_decide (c = "-"%char)
        then (if 0 <? String.length e1 then e1 +:+ "-" else e1)
             +:+ "+" +:+ Y (n + 1)
        else e1 in
      electron_terms (S n) rest e2
  end.

Definition electron_eq (fuel : nat) (speciesList : list Species)
    (codeFormat : string) : outcome string :=
  let nSpecies := length speciesList in
  elec_eq ← electron_terms 0 speciesList "";
  let elec_eq :=
    if 0 <? String.length elec_eq then
      if bool_decide (codeFormat = "C") then "  x_e = " +:+ elec_eq +:+ ";" +:+ nl
      else if bool_decide (codeFormat = "F90") then
        "      " +:+ Y (nSpecies + 1) +:+ " = " +:+ elec_eq +:+ nl
      else if bool_decide (codeFormat = "F77") then
        "      X(1)  = " +:+ elec_eq +:+ nl
      else elec_eq
    else
      if bool_decide (codeFormat = "C") then "  x_e = 0;" +:+ nl
      else if bool_decide (codeFormat = "F90") then
        "      " +:+ Y (nSpecies + 1) +:+ " = 0" +:+ nl
      else if bool_decide (codeFormat = "F77") then "      X(1)  = 0" +:+ nl
      else elec_eq in
  if bool_decide (codeFormat = "F77") then truncate_line fuel elec_eq "F77" None
  else if bool_decide (codeFormat = "F90") then truncate_line fuel elec_eq "F90" None
  else Ok elec_eq.

Definition multiple (number : nat) : string :=
  if number =? 1 then "" else str number +:+ "*".

(** ** write_odes_f90 *)

Definition RATE (i : nat) : string := "RATE(" +:+ str (i + 1) +:+ ")".

(** [for j,possibleReactants in enumerate(speciesList)]: every species
    of that name adds its factor [n_appearances] times (the loop goes on
    after a match).  The text added and the increase of [twoBody]. *)
Fixpoint species_factors (reactant : string) (n_appearances j : nat)
    (suffix : list Species) : string * nat :=
  match suffix with
  | [] => ("", 0)
  | possibleReactants :: rest =>
      let '(s, k) := species_factors reactant n_appearances (S j) rest in
      if bool_decide (reactant = name possibleReactants)
      then (rep n_appearances ("*" +:+ Y (j + 1)) +:+ s, n_appearances + k)
      else (s, k)
  end.

Definition abundance_factors (speciesList : list Species) (reactant : string)
    (n_appearances : nat) : string * nat :=
  let nSpecies := length speciesList in
  if bool_decide (reactant = "E-")
  then (rep n_appearances ("*" +:+ Y (nSpecies + 1)), n_appearances)
  else species_factors reactant n_appearances 0 speciesList.

(** The test for the trailing [*D]. *)
Definition density (twoBody : nat) (reactants : list string) : bool :=
  (1 <? twoBody) || (0 <? count "FREEZE" reactants)
  || (0 <? count "DESOH2" reactants).

(** [speciesList.index(next(x for x in speciesList if x.name=='H'))] *)
Definition H_index (speciesList : list Species) : outcome nat :=
  match list_find (λ x, name x = "H") speciesList with
  | Some (k, _) => Ok k
  | None => Raise StopIteration
  end.

Section Odes.
(** The order in which [for reactant in set(reaction.reactants)] visits
    the distinct reactants depends on the hashes of the strings; it is
    given. *)
Variable set_iter : list string → list string.

(** The [for reactant in set(...)] loop of the loss branch. *)
Fixpoint loss_factors (speciesList : list Species) (species_name : string)
    (reactants todo : list string) (lossString : string) (twoBody : nat)
  : string * nat :=
  match todo with
  | [] => (lossString, twoBody)
  | reactant :: rest =>
      let n_appearances := count reactant reactants in
      let '(n_appearances, twoBody) :=
        if bool_decide (reactant = species_name)
        then (n_appearances - 1, twoBody + 1)
        else (n_appearances, twoBody) in
      let '(s, k) := abundance_factors speciesList reactant n_appearances in
      loss_factors speciesList species_name reactants rest
        (lossString +:+ s) (twoBody + k)
  end.

(** The same loop of the production branch. *)
Fixpoint form_factors (speciesList : list Species)
    (reactants todo : list string) (formString : string) (twoBody : nat)
  : string * nat :=
  match todo with
  | [] => (formString, twoBody)
  | reactant :: rest =>
      let n_appearances := count reactant reactants in
      let '(s, k) := abundance_factors speciesList reactant n_appearances in
      form_factors speciesList reactants rest (formString +:+ s) (twoBody + k)
  end.

(** The body of [for i,reaction in enumerate(reactionList)]. *)
Definition reaction_terms (speciesList : list Species) (species : Species)
    (i : nat) (reaction : Reaction) (lossString formString : string)
  : outcome (string * string) :=
  let rs := reactants reaction in
  let ps := products reaction in
  if mem (name species) rs && is_H2_formation rs ps then
    Ok (lossString +:+ "-2*" +:+ RATE i +:+ "*D", formString)
  else
    let '(lossString, twoBody) :=
      if mem (name species) rs then
        let '(s, twoBody) :=
          loss_factors speciesList (name species) rs (set_iter rs)
            (lossString +:+ "-" +:+ multiple (count (name species) rs)
             +:+ RATE i) 0 in
        (if density twoBody rs then s +:+ "*D" else s, twoBody)
      else (lossString, 0) in
    if mem (name species) ps then
      if is_H2_formation rs ps then
        h ← H_index speciesList;
        Ok (lossString, formString +:+ "+" +:+ RATE i +:+ "*" +:+ Y (h + 1) +:+ "*D")
      else
        let '(s, twoBody) :=
          form_factors speciesList rs (set_iter rs)
            (formString +:+ "+" +:+ multiple (count (name species) ps)
             +:+ RATE i) twoBody in
        Ok (lossString, if density twoBody rs then s +:+ "*D" else s)
    else Ok (lossString, formString).

Fixpoint reaction_loop (speciesList : list Species) (species : Species)
    (i : nat) (reactionList : list Reaction) (lossString formString : string)
  : outcome (string * string) :=
  match reactionList with
  | [] => Ok (lossString, formString)
  | reaction :: rest =>
      '(l, f) ← reaction_terms speciesList species i reaction lossString formString;
      reaction_loop speciesList species (S i) rest l f
  end.

(** The final derivative statement, before wrapping. *)
Definition ydot_statement (n : nat) (formString lossString : string) : string :=
  let ydotString := "      YDOT(" +:+ str (n + 1) +:+ ") = " in
  let ydotString :=
    if bool_decide (formString ≠ "")
    then (ydotString +:+ "PROD")
         +:+ (if bool_decide (lossString ≠ "") then "+" else "")
    else ydotString in
  let ydotString :=
    if bool_decide (lossString ≠ "")
    then ydotString +:+ Y (n + 1) +:+ "*LOSS"
    else ydotString in
  ydotString +:+ nl.

(** The body of [for n,species in enumerate(speciesList)]: what it
    writes. *)
Definition species_block (fuel : nat) (speciesList : list Species)
    (reactionList : list Reaction) (n : nat) (species : Species)
  : outcome string :=
  '(lossString, formString) ← reaction_loop speciesList species 0 reactionList "" "";
  lossString ←
    (if bool_decide (lossString ≠ "")
     then truncate_line fuel ("      LOSS = " +:+ lossString +:+ nl) "F90" None
     else Ok lossString);
  formString ←
    (if bool_decide (formString ≠ "")
     then truncate_line fuel ("      PROD = " +:+ formString +:+ nl) "F90" None
     else Ok formString);
  ydotString ← truncate_line fuel (ydot_statement n formString lossString) "F90" None;
  Ok (lossString +:+ formString +:+ ydotString).

Fixpoint species_loop (fuel : nat) (speciesList : list Species)
    (reactionList : list Reaction) (n : nat) (todo : list Species)
  : outcome (list string) :=
  match todo with
  | [] => Ok []
  | species :: rest =>
      b ← species_block fuel speciesList reactionList n species;
      bs ← species_loop fuel speciesList reactionList (S n) rest;
      Ok (b :: bs)
  end.

Definition join (l : list string) : string := foldr String.append "" l.

(** The text of the file written. *)
Definition write_odes_f90 (fuel : nat) (speciesList : list Species)
    (reactionList : list Reaction) : outcome string :=
  e ← electron_eq fuel speciesList "F90";
  blocks ← species_loop fuel speciesList reactionList 0 speciesList;
  Ok (e +:+ nl +:+ join blocks).
End Odes.

(** An iteration order: the distinct elements by first occurrence. *)
Definition first_seen (l : list string) : list string := remove_dups l.

(** ** reaction_check *)

Inductive notice : Set :=
| MultipleFreeze (n : string) (routes : nat)
| PossibleDuplicates (a b : nat)
    (reactants1 products1 reactants2 products2 : list string)
| NoDuplicates.

(** [freezes] for one species. *)
Definition freeze_routes (reactionList : list Reaction) (n : string) : nat :=
  length (filter (λ reaction,
                    mem n (reactants reaction) && mem "FREEZE" (reactants reaction)
                    = true) reactionList).

Fixpoint freeze_loop (reactionList : list Reaction) (speciesList : list Species)
  : list notice :=
  match speciesList with
  | [] => []
  | spec :: rest =>
      let freezes := freeze_routes reactionList (name spec) in
      (if 1 <? freezes then [MultipleFreeze (name spec) freezes] else [])
      ++ freeze_loop reactionList rest
  end.

(** [set(a)==set(b)] *)
Definition same_set (a b : list string) : bool :=
  forallb (λ x, mem x b) a && forallb (λ x, mem x a) b.

Definition same_reaction (r1 r2 : Reaction) : bool :=
  same_set (reactants r1) (reactants r2) && same_set (products r1) (products r2).

(** The state of the search: [duplicate_list], what was printed, and
    [duplicates]. *)
Definition search : Set := list nat * list notice * nat.

(** The inner loop over [j, reaction2].  The second line printed shows
    the reactants of [reaction1] again. *)
Fixpoint pair_inner (i : nat) (reaction1 : Reaction) (j : nat)
    (todo : list Reaction) (st : search) : search :=
  match todo with
  | [] => st
  | reaction2 :: todo' =>
      let '(duplicate_list, out, duplicates) := st in
      pair_inner i reaction1 (S j) todo'
        (if negb (i =? j) && same_reaction reaction1 reaction2
         then (duplicate_list ++ [i; j],
               out ++ [PossibleDuplicates (i + 1) (j + 1)
                         (reactants reaction1) (products reaction1)
                         (reactants reaction1) (products reaction2)],
               duplicates + 1)
         else st)
  end.

Fixpoint pair_outer (reactionList : list Reaction) (i : nat)
    (todo : list Reaction) (st : search) : search :=
  match todo with
  | [] => st
  | reaction1 :: todo' =>
      pair_outer reactionList (S i) todo'
        (if bool_decide (i ∉ st.1.1)
         then pair_inner i reaction1 0 reactionList st
         else st)
  end.

(** What [reaction_check] prints (its headings apart). *)
Definition reaction_check (speciesList : list Species)
    (reactionList : list Reaction) : list notice :=
  let '(_, out, duplicates) :=
    pair_outer reactionList 0 reactionList ([], [], 0) in
  freeze_loop reactionList speciesList
  ++ out ++ (if duplicates =? 0 then [NoDuplicates] else []).

(** ** evap_lists *)

(** [c.upper()] and [c.lower()] in the C locale: the 26 letters only. *)
Definition upper_char (c : ascii) : ascii :=
  let n := nat_of_ascii c in
  if (97 <=? n) && (n <=? 122) then ascii_of_nat (n - 32) else c.
Definition lower_char (c : ascii) : ascii :=
  let n := nat_of_ascii c in
  if (65 <=? n) && (n <=? 90) then ascii_of_nat (n + 32) else c.
Definition upper (s : string) : string := text (map upper_char (chars s)).
Definition lower (s : string) : string := text (map lower_char (chars s)).

(** [s[1:]] *)
Definition tail_of (s : string) : string :=
  match s with
  | String _ s' => s'
  | EmptyString => EmptyString
  end.

(** [speciesList.index(next(x for x in speciesList if x.name==n))] *)
Definition index_named (speciesList : list Species) (n : string) : option nat :=
  fst <$> list_find (λ x, name x = n) speciesList.

(** The seven rows written after the count line. *)
Record evap_rows : Set := mkEvap {
  grainlist : list nat;
  mgrainlist : list nat;
  solidList : list string;
  monoList : list string;
  volcList : list string;
  bindEnergyList : list string;
  enthalpyList : list string
}.

(** How a run ends when it does not raise: the table is written, the
    operator typed x, or there was no line left to read. *)
Inductive evap_end : Set :=
| Written (count : string) (rows : evap_rows) (unread : list string)
| Quit
| EndOfInput.

(** The loop of [evap_lists].  [replies] are the lines the operator will
    type, one for each prompt.  The bare [except] catches the failure of
    the first search only; the second search is outside it. *)
Fixpoint evap_loop (speciesList : list Species) (i : nat) (todo : list Species)
    (replies : list string) (acc : evap_rows) : outcome evap_end :=
  match todo with
  | [] =>
      Ok (Written (str (length (grainlist acc)) +:+ nl) acc replies)
  | species :: todo' =>
      c ← first_char (name species);
      if bool_decide (c = "#"%char) then
        let push j replies' :=
          evap_loop speciesList (S i) todo' replies'
            (mkEvap (grainlist acc ++ [j + 1]) (mgrainlist acc ++ [i + 1])
               (solidList acc ++ [solidFraction species])
               (monoList acc ++ [monoFraction species])
               (volcList acc ++ [volcFraction species])
               (bindEnergyList acc ++ [bindener species])
               (enthalpyList acc ++ [enthalpy species])) in
        match index_named speciesList (tail_of (name species)) with
        | Some j => push j replies
        | None =>
            match replies with
            | [] => Ok EndOfInput
            | input :: replies' =>
                if bool_decide (lower input = "x") then Ok Quit
                else
                  match index_named speciesList (upper input) with
                  | Some j => push j replies'
                  | None => Raise StopIteration
                  end
            end
        end
      else evap_loop speciesList (S i) todo' replies acc
  end.

Definition evap_lists (speciesList : list Species) (replies : list string)
  : outcome evap_end :=
  evap_loop speciesList 0 speciesList replies (mkEvap [] [] [] [] [] [] []).

(** * Vocabulary of the statements *)

(** ** Sample inputs *)

Definition species (n m : string) : Species :=
  mkSpecies n m "0" "0" "0" "0" "0" None.

Definition row_H_H_H2 : row :=
  ["H"; "H"; ""; "H2"; ""; ""; ""; "1.0"; "0.0"; "0.0"; "0"; "0"].

Definition formation : Reaction :=
  mkReaction ["H"; "H"; "NAN"] ["H2"; "NAN"; "NAN"; "NAN"]
    (VStr "1.0") (VStr "0.0") (VStr "0.0") (VFloat 0) (VFloat 10000).

Definition ion_freeze_out : Reaction :=
  mkReaction ["H+"; "FREEZE"; "NAN"] ["#H"; "NAN"; "NAN"; "NAN"]
    (VStr "1.0") (VStr "0.0") (VStr "0.0") (VFloat 0) (VFloat 10000).

(** What [write_reactions] leaves of a reaction object: all fields but
    [beta] as they were, and [beta] set to 1 exactly on an ionic
    freeze-out. *)
Definition beta_only (r r' : Reaction) : Prop :=
  reactants r' = reactants r ∧ products r' = products r
  ∧ alpha r' = alpha r ∧ gamma r' = gamma r
  ∧ templow r' = templow r ∧ temphigh r' = temphigh r
  ∧ (ion_freeze r = Ok true ∧ beta r' = VInt 1
     ∨ ion_freeze r = Ok false ∧ beta r' = beta r).

(** Rows that the readers get through: the header or seven cells for a
    species; for a reaction, enough cells for the accesses made, which
    are more when the row passes the test against [keepList]. *)
Definition species_row_loads (r : row) : bool :=
  bool_decide (r !! 0 = Some "NAME") || (7 <=? length r).

Definition ucl_row_loads (keep : list string) (r : row) : bool :=
  negb (all_in keep (slice 0 7 r)) || (12 <=? length r).

Definition umist_row_loads (keep : list string) (r : row) : bool :=
  (8 <=? length r) && (negb (all_in keep (slice 2 8 r)) || (14 <=? length r)).

Definition long_species_row : row := ["H"; "1"; "0"; "0"; "0"; "0"; "0"; "stray"].
Definition short_reaction_row : row := ["X"; "Y"; "Z"].

(** How often a name occurs in a species list. *)
Definition occurrences (n : string) (l : list Species) : nat :=
  length (filter (λ sp, name sp = n) l).

(** What removing one entry of a repeated name does to a count. *)
Definition one_less_if_repeated (c : nat) : nat :=
  if 2 <=? c then c - 1 else c.

(** [has_other n i j suffix]: the list [suffix], whose first index is
    [j], has the name [n] at an index other than [i]. *)
Fixpoint has_other (n : string) (i j : nat) (suffix : list Species) : bool :=
  match suffix with
  | [] => false
  | sj :: suffix' =>
      (bool_decide (n = name sj) && negb (j =? i)) || has_other n i (S j) suffix'
  end.

(** The tokens of [keepList] that stand for a process or a participant
    that is no species. *)
Definition process_tokens : list string := drop 2 keepTokens.

Definition row_A_A_A : row :=
  ["A"; "A"; ""; "A"; ""; ""; ""; "1.0"; "0.0"; "0.0"; "0"; "0"].
Definition reaction_A : Reaction :=
  mkReaction ["A"; "A"; "NAN"] ["A"; "NAN"; "NAN"; "NAN"]
    (VStr "1.0") (VStr "0.0") (VStr "0.0") (VFloat 0) (VFloat 10000).

(** The four characters at which [truncate_line] may cut. *)
Definition is_operator (c : ascii) : bool :=
  bool_decide (c ∈ ["+"; "-"; "*"; "/"]%char).

Definition starts_with_operator (l : list ascii) : Prop :=
  ∃ c l', l = c :: l' ∧ is_operator c = true.

(** The end of one physical line and the start of its continuation. *)
Definition marker : list ascii := amp_tail ++ amp_head.

(** The physical lines of a wrapped statement, put together. *)
Fixpoint wrapped (pieces : list (list ascii)) : list ascii :=
  match pieces with
  | [] => []
  | [p] => p
  | p :: ps => p ++ marker ++ wrapped ps
  end.

Fixpoint starts_with (m l : list ascii) : bool :=
  match m, l with
  | [], _ => true
  | c :: m', d :: l' => bool_decide (c = d) && starts_with m' l'
  | _ :: _, [] => false
  end.

(** Stripping the continuation markers: every [" &"], line end and
    ["     &       "] in a row is dropped, from left to right ([skip]
    counts the characters of a marker still to drop). *)
Fixpoint unwrap (skip : nat) (l : list ascii) : list ascii :=
  match l with
  | [] => []
  | c :: l' =>
      match skip with
      | S k => unwrap k l'
      | 0 => if starts_with marker l then unwrap (length marker - 1) l'
             else c :: unwrap 0 l'
      end
  end.

Definition rejoin (s : string) : string := text (unwrap 0 (chars s)).

(** A loss statement of 150 terms, and a statement with no operator. *)
Definition long_loss : string :=
  "      LOSS = " +:+ rep 150 "-RATE(1)*Y(1)*D" +:+ nl.
Definition no_operator : string := "      A = " +:+ rep 70 "B" +:+ nl.

(** A loss statement of ten terms and the three lines it is wrapped
    into. *)
Definition ten_terms : string :=
  "      LOSS = " +:+ rep 10 "-RATE(1)*Y(1)*D" +:+ nl.
Definition ten_terms_wrapped : string :=
  "      LOSS = -RATE(1)*Y(1)*D-RATE(1)*Y(1)*D-RATE(1)*Y(1)*D-RATE(1)*Y(1) &"
  +:+ nl
  +:+ "     &       *D-RATE(1)*Y(1)*D-RATE(1)*Y(1)*D-RATE(1)*Y(1)*D-RATE(1) &"
  +:+ nl
  +:+ "     &       *Y(1)*D-RATE(1)*Y(1)*D-RATE(1)*Y(1)*D" +:+ nl.

(** [begins pre s]: the text [s] starts with [pre]. *)
Definition begins (pre s : string) : Prop := ∃ t, s = pre +:+ t.

(** The rows, counted from [j], of the species named [n]. *)
Fixpoint positions (n : string) (j : nat) (l : list Species) : list nat :=
  match l with
  | [] => []
  | sp :: l' =>
      if bool_decide (n = name sp) then j :: positions n (S j) l'
      else positions n (S j) l'
  end.

(** The species a row of seven cells or more stands for. *)
Definition row_species (r : row) : Species :=
  mkSpecies (default "" (r !! 0)) (default "" (r !! 1)) (default "" (r !! 2))
    (default "" (r !! 3)) (default "" (r !! 4)) (default "" (r !! 5))
    (default "" (r !! 6)) None.

(** A species after analysis: the same fields and an atom count. *)
Definition analysed_as (sp sp' : Species) : Prop :=
  ∃ k, sp' = mkSpecies (name sp) (mass sp) (bindener sp) (solidFraction sp)
               (monoFraction sp) (volcFraction sp) (enthalpy sp) (Some k).

Definition is_mass_mismatch (d : diagnostic) : Prop :=
  ∃ n m t, d = MassMismatch n m t.

(** A reaction whose row cannot be written: FREEZE is a reactant and the
    first reactant is the empty text. *)
Definition freeze_without_first (reaction : Reaction) : bool :=
  mem "FREEZE" (reactants reaction)
  && bool_decide (head (reactants reaction) = Some "").

(** [reported out a b]: the pair of reactions numbered [a] and [b] (from
    1) is printed as possible duplicates. *)
Definition reported (out : list notice) (a b : nat) : Prop :=
  ∃ rs1 ps1 rs2 ps2, PossibleDuplicates a b rs1 ps1 rs2 ps2 ∈ out.

(** Two reactions at different places with the same set of reactants and
    the same set of products. *)
Definition alike (reactionList : list Reaction) (i j : nat) : Prop :=
  i ≠ j ∧ ∃ r1 r2, reactionList !! i = Some r1 ∧ reactionList !! j = Some r2
                   ∧ same_reaction r1 r2 = true.

(** What holds of the search at any time: the pairs printed are alike,
    the places noted in [duplicate_list] are in some pair printed, and
    [duplicates] counts the pairs. *)
Definition search_ok (reactionList : list Reaction) (st : search) : Prop :=
  (∀ a b, reported st.1.2 a b →
          1 ≤ a ∧ 1 ≤ b ∧ alike reactionList (a - 1) (b - 1))
  ∧ (∀ k, k ∈ st.1.1 →
          ∃ b, reported st.1.2 (k + 1) b ∨ reported st.1.2 b (k + 1))
  ∧ length st.1.2 = st.2
  ∧ Forall (λ m, ∃ a b rs1 ps1 rs2 ps2,
                   m = PossibleDuplicates a b rs1 ps1 rs2 ps2) st.1.2.

Definition photo : Reaction :=
  mkReaction ["H2"; "PHOTON"; "NAN"] ["H"; "H"; "NAN"; "NAN"]
    (VStr "1.0") (VStr "0.0") (VStr "0.0") (VFloat 0) (VFloat 10000).
Definition photo_again : Reaction :=
  mkReaction ["PHOTON"; "H2"; "NAN"] ["H"; "NAN"; "H"; "NAN"]
    (VStr "2.0") (VStr "0.0") (VStr "0.0") (VFloat 0) (VFloat 10000).

(** A name that ends in neither [+] nor [-]. *)
Definition neutral (sp : Species) : Prop :=
  ∃ c, last_char (name sp) = Ok c ∧ c ≠ "+"%char ∧ c ≠ "-"%char.

(** The species on the grains: those whose name begins with [#]; and
    the places, counted from [i], where they stand. *)
Definition on_grain (sp : Species) : Prop := first_char (name sp) = Ok "#"%char.

Global Instance exn_eq_dec : EqDecision exn.
Proof. solve_decision. Defined.
Global Instance outcome_eq_dec {A} `{EqDecision A} : EqDecision (outcome A).
Proof. solve_decision. Defined.
Global Instance on_grain_dec sp : Decision (on_grain sp).
Proof. unfold on_grain. apply _. Defined.

Definition grains (l : list Species) : list Species := filter on_grain l.

Fixpoint grain_places (i : nat) (l : list Species) : list nat :=
  match l with
  | [] => []
  | sp :: l' =>
      if decide (on_grain sp) then i :: grain_places (S i) l'
      else grain_places (S i) l'
  end.

(** The place of the first species that has the name of [sp] without
    its first character. *)
Definition gas_place (speciesList : list Species) (sp : Species) : nat :=
  default 0 (index_named speciesList (tail_of (name sp))).

Definition surface_network : list Species :=
  [species "CO" "28"; species "#CO" "28"; species "H" "1"; species "#H" "1"].

(** A text in which every operator that has more than 58 characters
    after it has another operator among the next 58: what a continuation
    line of 13 + 59 columns needs to be cut further on. *)
Fixpoint dense (l : list ascii) : bool :=
  match l with
  | [] => true
  | c :: l' =>
      (if is_operator c && (58 <? length l')
       then existsb is_operator (take 58 l') else true)
      && dense l'
  end.

Definition two_body : Reaction :=
  mkReaction ["C"; "O"; "NAN"] ["CO"; "NAN"; "NAN"; "NAN"]
    (VStr "1.0") (VStr "0.0") (VStr "0.0") (VFloat 0) (VFloat 10000).

(** ** The generated code, read against the species table *)

(** The name on a data row of the species table, and the names of its
    rows in order. *)
Definition row_name (r : list value) : option string :=
  match r with
  | VStr x :: _ => Some x
  | _ => None
  end.

Definition table_names (rows : list (list value)) : list string :=
  omap row_name rows.

(** The data rows, counted from [j], that hold the name [x]. *)
Fixpoint rows_named (x : string) (j : nat) (rows : list (list value)) : list nat :=
  match rows with
  | [] => []
  | r :: rows' =>
      if bool_decide (row_name r = Some x) then j :: rows_named x (S j) rows'
      else rows_named x (S j) rows'
  end.

(** How the code refers to the abundance of the species on data row [k]
    (rows counted from 0, abundances from 1). *)
Definition abundance (k : nat) : string := "Y(" +:+ str (k + 1) +:+ ")".

(** A name ends with the character [c]. *)
Definition ends_with (c : ascii) (x : string) : bool :=
  bool_decide (last (chars x) = Some c).

Definition charged (x : string) : bool := ends_with "+" x || ends_with "-" x.

(** The term of the electron statement for the name [x] on row [n];
    [earlier] tells whether a row before it holds a charged name. *)
Definition ion_term (earlier : bool) (n : nat) (x : string) : string :=
  if ends_with "+" x then (if earlier then "+" else "") +:+ abundance n
  else if ends_with "-" x then
    (if earlier then "-" else "") +:+ "+" +:+ abundance n
  else "".

(** The right-hand side of the electron statement for the names of a
    table. *)
Definition electron_rhs (names : list string) : string :=
  let ts := imap (λ n x, ion_term (existsb charged (take n names)) n x) names in
  if bool_decide (join ts = "") then "0" else join ts.

Section Code.
Variable set_iter : list string → list string.
(** The count on the first line of the species table, and its data rows. *)
Variable count_line : string.
Variable rows : list (list value).

(** What a reactant stands for in the code: the electron for the slot
    numbered by the count line, any other name for the abundance of every
    row that holds it. *)
Definition references (x : string) : list string :=
  if bool_decide (x = "E-") then ["Y(" +:+ count_line +:+ ")"]
  else map abundance (rows_named x 0 rows).

(** The factors of a reactant that is to be written [m] times. *)
Definition factors (x : string) (m : nat) : string :=
  join (map (λ y, rep m ("*" +:+ y)) (references x)).

(** In the loss of the species named [s], the species itself is written
    once less: its abundance multiplies the whole loss. *)
Definition own (s x : string) : nat := if bool_decide (x = s) then 1 else 0.

Definition appearances (s : string) (rs : list string) (x : string) : nat :=
  count x rs - own s x.

(** The bodies counted for the density factor. *)
Definition loss_bodies (s : string) (rs : list string) : nat :=
  sum_list_with (λ x, own s x + appearances s rs x * length (references x))
    (set_iter rs).

Definition prod_bodies (rs : list string) : nat :=
  sum_list_with (λ x, count x rs * length (references x)) (set_iter rs).

Definition times_density (bodies : nat) (rs : list string) : string :=
  if (1 <? bodies) || mem "FREEZE" rs || mem "DESOH2" rs then "*D" else "".

(** [loss_term s i r t]: [t] is the term of reaction [i] (from 0) in the
    loss of the species named [s]. *)
Definition loss_term (s : string) (i : nat) (r : Reaction) (t : string) : Prop :=
  let rs := reactants r in
  if mem s rs then
    if is_H2_formation rs (products r) then t = "-2*" +:+ RATE i +:+ "*D"
    else
      t = "-" +:+ multiple (count s rs) +:+ RATE i
          +:+ join (map (λ x, factors x (appearances s rs x)) (set_iter rs))
          +:+ times_density (loss_bodies s rs) rs
  else t = "".

(** [prod_term s i r t]: [t] is the term of reaction [i] in the
    production of the species named [s].  The fixed form of hydrogen
    formation refers to the first row that holds the name H. *)
Definition prod_term (s : string) (i : nat) (r : Reaction) (t : string) : Prop :=
  let rs := reactants r in
  let ps := products r in
  if mem s rs && is_H2_formation rs ps then t = ""
  else if mem s ps then
    if is_H2_formation rs ps then
      ∃ h, head (rows_named "H" 0 rows) = Some h
           ∧ t = "+" +:+ RATE i +:+ "*" +:+ abundance h +:+ "*D"
    else
      t = "+" +:+ multiple (count s ps) +:+ RATE i
          +:+ join (map (λ x, factors x (count x rs)) (set_iter rs))
          +:+ times_density
                ((if mem s rs then loss_bodies s rs else 0) + prod_bodies rs) rs
  else t = "".
End Code.

(** One term for each reaction, in order. *)
Definition terms (term : nat → Reaction → string → Prop)
    (reactionList : list Reaction) (ts : list string) : Prop :=
  length ts = length reactionList
  ∧ ∀ i r, reactionList !! i = Some r → ∃ t, ts !! i = Some t ∧ term i r t.

(** [statement fuel lhs rhs line]: nothing is written for an empty
    right-hand side; otherwise [line] is the statement as [truncate_line]
    returns it. *)
Definition statement (fuel : nat) (lhs rhs line : string) : Prop :=
  if bool_decide (rhs = "") then line = ""
  else truncate_line fuel (lhs +:+ rhs +:+ nl) "F90" None = Ok line.

(** The derivative statement of the species on row [n], before wrapping,
    for the production and loss written for it. *)
Definition derivative (n : nat) (prod loss : string) : string :=
  "      YDOT(" +:+ str (n + 1) +:+ ") = "
  +:+ (if bool_decide (prod = "") then "" else "PROD")
  +:+ (if bool_decide (prod = "") || bool_decide (loss = "") then "" else "+")
  +:+ (if bool_decide (loss = "") then "" else abundance n +:+ "*LOSS")
  +:+ nl.

(** A network with a two-body reaction, after constituent analysis, and
    what the two writers make of it. *)
Definition analysed_CO : list Species :=
  [mkSpecies "C" "12" "0" "0" "0" "0" "0" (Some 1);
   mkSpecies "O" "16" "0" "0" "0" "0" "0" (Some 1);
   mkSpecies "CO" "28" "0" "0" "0" "0" "0" (Some 2)].

Definition analysed_CO_table : table :=
  ("4" +:+ nl,
   [[VStr "C"; VStr "12"; VInt 1]; [VStr "O"; VStr "16"; VInt 1];
    [VStr "CO"; VStr "28"; VInt 2]]).

Definition analysed_CO_odes : string :=
  "      Y(4) = 0" +:+ nl +:+ nl
  +:+ "      LOSS = -RATE(1)*Y(2)*D" +:+ nl
  +:+ "      YDOT(1) = Y(1)*LOSS" +:+ nl
  +:+ "      LOSS = -RATE(1)*Y(1)*D" +:+ nl
  +:+ "      YDOT(2) = Y(2)*LOSS" +:+ nl
  +:+ "      PROD = +RATE(1)*Y(1)*Y(2)*D" +:+ nl
  +:+ "      YDOT(3) = PROD" +:+ nl.

(** * Properties *)

(** Membership in a list that is written out. *)
Ltac in_list :=
  repeat first [apply list_elem_of_here | apply list_elem_of_further].

(** ** Reactions as the constructor builds them *)

Lemma NANCheck_non_empty a : NANCheck a ≠ "".
Proof. unfold NANCheck. case_bool_decide; congruence. Qed.

Lemma item_Ok {A} (l : list A) i a : item l i = Ok a ↔ l !! i = Some a.
Proof. unfold item. destruct (l !! i); split; congruence. Qed.

Lemma item_Raise {A} (l : list A) i e :
  item l i = Raise e ↔ e = IndexError ∧ length l ≤ i.
Proof.
  unfold item. destruct (l !! i) eqn:E.
  - apply lookup_lt_Some in E. split; [congruence | lia].
  - apply lookup_ge_None in E. split; [intros [= <-]; auto | intros [-> _]; auto].
Qed.

Lemma bind_Ok {A B} (m : outcome A) (k : A → outcome B) b :
  m ≫= k = Ok b ↔ ∃ a, m = Ok a ∧ k a = Ok b.
Proof.
  destruct m; simpl; split; try (intros (? & ? & ?)); try congruence; eauto.
Qed.

Lemma Reaction_init_shape r rc :
  Reaction_init r = Ok rc →
  ∃ r0 r1 r2 r3 r4 r5 r6,
    slice 0 7 r = [r0; r1; r2; r3; r4; r5; r6] ∧
    reactants rc = [r0; r1; NANCheck r2] ∧
    products rc = [r3; NANCheck r4; NANCheck r5; NANCheck r6].
Proof.
  unfold Reaction_init. intros H.
  repeat (apply bind_Ok in H as (? & ?%item_Ok & H)).
  injection H as <-.
  do 12 (destruct r as [|? r]; simplify_eq/=).
  eexists _, _, _, _, _, _, _. split_and!; reflexivity.
Qed.

Lemma four_slots_not_H2_formation rs p0 p1 p2 p3 :
  p1 ≠ "" → p2 ≠ "" → p3 ≠ "" →
  is_H2_formation rs [p0; p1; p2; p3] = false.
Proof.
  intros H1 H2 H3. unfold is_H2_formation, non_empty.
  assert (3 ≤ length (filter (λ s : string, s ≠ "") [p0; p1; p2; p3])) as Hn.
  { rewrite (filter_cons _ p0), !filter_cons_True by assumption.
    destruct (decide (p0 ≠ "")); simpl; lia. }
  destruct (length (filter _ [p0; p1; p2; p3])) as [|[|[|n]]]; try lia.
  rewrite !andb_false_r. reflexivity.
Qed.

Lemma constructed_not_H2_formation r rc :
  Reaction_init r = Ok rc →
  is_H2_formation (reactants rc) (products rc) = false.
Proof.
  intros (r0 & r1 & r2 & r3 & r4 & r5 & r6 & _ & _ & ->)%Reaction_init_shape.
  apply four_slots_not_H2_formation; apply NANCheck_non_empty.
Qed.

(** C1 (fails on the code): the constructor turns every unused product
    slot into the text NAN, while [is_H2_formation] counts the slots that
    differ from the empty text; so no constructed reaction is recognised.
    The row H + H -> H2 is loaded, is not recognised, and [write_odes_f90]
    emits the generic terms [-2*RATE(1)*Y(1)*D] and [+RATE(1)*Y(1)*Y(1)*D]
    where the fixed forms are [-2*RATE(1)*D] and [+RATE(1)*Y(1)*D]. *)
Theorem C1_formation_not_recognised :
  (∀ r, match Reaction_init r with
        | Ok rc => is_H2_formation (reactants rc) (products rc) = false
        | _ => True
        end)
  ∧ read_reaction_file [row_H_H_H2] [species "H" "1"; species "H2" "2"] "UCL"
    = Ok [formation]
  ∧ is_H2_formation (reactants formation) (products formation) = false
  ∧ write_odes_f90 first_seen 100 [species "H" "1"; species "H2" "2"] [formation]
    = Ok ("      Y(3) = 0" +:+ nl +:+ nl
          +:+ "      LOSS = -2*RATE(1)*Y(1)*D" +:+ nl
          +:+ "      YDOT(1) = Y(1)*LOSS" +:+ nl
          +:+ "      PROD = +RATE(1)*Y(1)*Y(1)*D" +:+ nl
          +:+ "      YDOT(2) = PROD" +:+ nl).
Proof.
  split_and!.
  - intros r. destruct (Reaction_init r) eqn:E; [|exact I..].
    by apply constructed_not_H2_formation with r.
  - vm_compute. reflexivity.
  - vm_compute. reflexivity.
  - vm_compute. reflexivity.
Qed.

(** The patterns are recognised when the unused slots hold the empty
    text, and the three-product reaction is not. *)
Example is_H2_formation_bare :
  is_H2_formation ["H"; "H"; ""] ["H2"; ""; ""; ""] = true
  ∧ is_H2_formation ["H"; "H"; "#"] ["H2"; "#"; ""; ""] = true
  ∧ is_H2_formation ["H"; "H"; ""] ["H2"; "H"; ""; ""] = false.
Proof. vm_compute. auto. Qed.

(** ** The electron balance *)

(** C2 (fails on the code): the branch for a name ending in [-] appends
    the separator [-] only when the text so far is not empty, and then the
    term [+Y(n)].  An anion that comes first contributes [+Y(n)]; a later
    one contributes [-+Y(n)]. *)
Theorem C2_anion_sign :
  electron_eq 10 [species "E-" "0"] "F90" = Ok ("      Y(2) = +Y(1)" +:+ nl)
  ∧ electron_eq 10 [species "H" "1"; species "H+" "1"; species "E-" "0"] "F90"
    = Ok ("      Y(4) = Y(2)-+Y(3)" +:+ nl).
Proof. split; vm_compute; reflexivity. Qed.

(** Without charged species the statement assigns zero. *)
Example electron_eq_neutral :
  electron_eq 10 [species "H" "1"; species "H2" "2"] "F90"
  = Ok ("      Y(3) = 0" +:+ nl).
Proof. vm_compute. reflexivity. Qed.

(** ** Orphans *)

(** C5 (fails on the code): removing the species under the cursor makes
    the loop step over the next one.  Of two orphans in a row the second
    is neither removed nor reported. *)
Theorem C5_second_orphan_survives :
  filter_species [species "A" "1"; species "B" "1"] []
  = Ok ([species "B" "1"], [NotInFinalList ["A"]])
  ∧ keepFlag [] (species "B" "1") = false.
Proof. split; vm_compute; reflexivity. Qed.

(** ** The reaction table *)

Lemma write_rows_frame rl rows rl' :
  write_rows rl = Ok (rows, rl') →
  Forall2 beta_only rl rl' ∧ rows = map reaction_cells rl'.
Proof.
  revert rows rl'. induction rl as [|r rl IH]; intros rows rl' H; simpl in H.
  - injection H as <- <-. split; [constructor | reflexivity].
  - apply bind_Ok in H as (ion & Hion & H).
    apply bind_Ok in H as ([rows0 rl0] & Hrec & H).
    injection H as <- <-. destruct (IH _ _ Hrec) as [IH1 ->].
    split; [|reflexivity]. constructor; [|exact IH1].
    unfold beta_only. destruct ion; simpl; split_and!; auto.
Qed.

(** C9 (as stated, fails): writing the row of an ionic freeze-out assigns
    [reaction.beta=1] on the object itself. *)
Lemma C9_beta_is_overwritten :
  ∃ t, write_reactions [ion_freeze_out] = Ok (t, [set_beta ion_freeze_out (VInt 1)])
       ∧ beta (set_beta ion_freeze_out (VInt 1)) ≠ beta ion_freeze_out.
Proof. eexists. split; [vm_compute; reflexivity | discriminate]. Qed.

(** C9 (amended): [write_reactions] leaves the reaction list with the same
    objects in the same order, every field of each as it was except
    [beta], which is 1 on the ionic freeze-outs (FREEZE among the
    reactants, first reactant ending in [+]) and untouched on the others;
    the rows written carry the fields as they are left. *)
Theorem C9_write_reactions_changes_beta_only rl t rl' :
  write_reactions rl = Ok (t, rl') →
  Forall2 beta_only rl rl'
  ∧ t = (str (length rl) +:+ nl, map reaction_cells rl').
Proof.
  unfold write_reactions. intros H.
  apply bind_Ok in H as ([rows rl0] & Hrows & H). injection H as <- <-.
  destruct (write_rows_frame _ _ _ Hrows) as [HF ->]. split; [exact HF | reflexivity].
Qed.

(** C9, on two reactions: the ionic freeze-out gets [beta = 1], the
    formation reaction is left as it was. *)
Lemma C9_write_reactions_witness :
  Forall2 beta_only [ion_freeze_out; formation]
    [set_beta ion_freeze_out (VInt 1); formation].
Proof.
  eapply proj1.
  apply (C9_write_reactions_changes_beta_only [ion_freeze_out; formation]).
  vm_compute. reflexivity.
Defined.

(** ** Rows of the wrong length *)

Lemma Species_init_length r :
  (7 ≤ length r → ∃ sp, Species_init r = Ok sp ∧ r !! 0 = Some (name sp))
  ∧ (length r < 7 → Species_init r = Raise IndexError).
Proof.
  split; intros H.
  - do 7 (destruct r as [|? r]; [simpl in H; lia|]). eexists. split; reflexivity.
  - do 7 (destruct r as [|? r]; [reflexivity|]). simpl in H. lia.
Qed.

Lemma Reaction_init_length r :
  (12 ≤ length r → ∃ rc, Reaction_init r = Ok rc)
  ∧ (length r < 12 → Reaction_init r = Raise IndexError).
Proof.
  split; intros H.
  - do 12 (destruct r as [|? r]; [simpl in H; lia|]). eexists. reflexivity.
  - do 12 (destruct r as [|? r]; [reflexivity|]). simpl in H. lia.
Qed.

Lemma read_species_file_rows rows :
  (forallb species_row_loads rows = true → ∃ l, read_species_file rows = Ok l)
  ∧ (forallb species_row_loads rows = false →
     read_species_file rows = Raise IndexError).
Proof.
  induction rows as [|r rows [IHok IHno]]; simpl.
  - split; [eauto | discriminate].
  - unfold species_row_loads at 1 3.
    destruct r as [|r0 r]; [split; [discriminate | reflexivity]|].
    change (item (r0 :: r) 0) with (Ok (A:=string) r0). cbn [mbind outcome_bind].
    change ((r0 :: r) !! 0) with (Some r0).
    destruct (decide (r0 = "NAME")) as [->|Hne].
    + rewrite bool_decide_eq_true_2 by reflexivity.
      rewrite (bool_decide_eq_false_2 ("NAME" ≠ "NAME")) by auto. simpl. auto.
    + rewrite (bool_decide_eq_false_2 (Some r0 = Some "NAME")) by congruence.
      rewrite (bool_decide_eq_true_2 (r0 ≠ "NAME")) by assumption.
      cbn [orb]. destruct (7 <=? length (r0 :: r)) eqn:E.
      * apply Nat.leb_le in E.
        destruct (proj1 (Species_init_length (r0 :: r)) E) as (sp & -> & _).
        cbn [andb mbind outcome_bind]. split.
        -- intros [l ->]%IHok. eexists. reflexivity.
        -- intros ->%IHno. reflexivity.
      * apply Nat.leb_gt in E.
        rewrite (proj2 (Species_init_length (r0 :: r)) E).
        split; [discriminate | reflexivity].
Qed.

Lemma read_rows_total f (P : row → bool) :
  (∀ r, P r = true → ∃ o, f r = Ok o) →
  (∀ r, P r = false → f r = Raise IndexError) →
  ∀ rows,
    (forallb P rows = true → ∃ l, read_rows f rows = Ok l)
    ∧ (forallb P rows = false → read_rows f rows = Raise IndexError).
Proof.
  intros Hok Hno rows. induction rows as [|r rows [IHok IHno]]; simpl.
  - split; [eauto | discriminate].
  - destruct (P r) eqn:E; simpl.
    + destruct (Hok r E) as [o ->]. cbn [mbind outcome_bind]. split.
      * intros [l ->]%IHok. eexists. reflexivity.
      * intros ->%IHno. reflexivity.
    + rewrite (Hno r E). split; [discriminate | reflexivity].
Qed.

Lemma item_short {A} (l : list A) i : length l ≤ i → item l i = Raise IndexError.
Proof. intros H. unfold item. by rewrite (proj2 (lookup_ge_None l i) H). Qed.

Lemma item_long {A} (l : list A) i : i < length l → ∃ a, item l i = Ok a.
Proof.
  intros H. unfold item. destruct (lookup_lt_is_Some_2 l i H) as [a ->]. eauto.
Qed.

Lemma ucl_row_total keep r :
  (ucl_row_loads keep r = true → ∃ o, ucl_row keep r = Ok o)
  ∧ (ucl_row_loads keep r = false → ucl_row keep r = Raise IndexError).
Proof.
  unfold ucl_row_loads, ucl_row.
  destruct (all_in keep (slice 0 7 r)); cbn [negb orb];
    [|split; [eauto | discriminate]].
  destruct (12 <=? length r) eqn:E.
  - apply Nat.leb_le in E. split; [intros _ | discriminate].
    destruct (item_long r 10) as [? ->]; [lia|].
    destruct (item_long r 11) as [? ->]; [lia|].
    destruct (proj1 (Reaction_init_length r) E) as [rc ->]. eexists. reflexivity.
  - apply Nat.leb_gt in E. split; [discriminate | intros _].
    destruct (decide (length r ≤ 10)) as [H|H].
    + by rewrite (item_short r 10 H).
    + destruct (item_long r 10) as [? ->]; [lia|].
      rewrite (item_short r 11) by lia. reflexivity.
Qed.

Lemma umist_row_total keep r :
  (umist_row_loads keep r = true → ∃ o, umist_row keep r = Ok o)
  ∧ (umist_row_loads keep r = false → umist_row keep r = Raise IndexError).
Proof.
  unfold umist_row_loads, umist_row.
  destruct (8 <=? length r) eqn:E8.
  - apply Nat.leb_le in E8.
    do 8 (destruct r as [|? r]; [simpl in E8; lia|]).
    cbn [item lookup list_lookup mbind outcome_bind andb].
    change (slice 2 8 (s :: s0 :: s1 :: s2 :: s3 :: s4 :: s5 :: s6 :: r))
      with [s1; s2; s3; s4; s5; s6].
    destruct (all_in keep [s1; s2; s3; s4; s5; s6]); cbn [negb orb];
      [|split; [eauto | discriminate]].
    set (r' := slice 2 4 _ ++ _).
    destruct (14 <=? _) eqn:E14.
    + apply Nat.leb_le in E14. split; [intros _ | discriminate].
      destruct (proj1 (Reaction_init_length r')) as [rc ->]; [|eexists; reflexivity].
      subst r'. unfold slice.
      rewrite !length_app, !length_take, !length_drop. simpl in *. lia.
    + apply Nat.leb_gt in E14. split; [discriminate | intros _].
      rewrite (proj2 (Reaction_init_length r')); [reflexivity|].
      subst r'. unfold slice.
      rewrite !length_app, !length_take, !length_drop. simpl in *. lia.
  - apply Nat.leb_gt in E8. split; [discriminate | intros _].
    do 8 (destruct r as [|? r]; [reflexivity|]). simpl in E8. lia.
Qed.

(** C8 (as stated, fails): a species row of eight cells is loaded from its
    first seven, and a reaction row of three cells that fails the test
    against [keepList] is skipped; neither stops the load. *)
Lemma C8_wrong_length_rows_load :
  length long_species_row ≠ 7
  ∧ read_species_file [long_species_row]
    = Ok [mkSpecies "H" "1" "0" "0" "0" "0" "0" None]
  ∧ length short_reaction_row ≠ 12
  ∧ read_reaction_file [short_reaction_row] [] "UCL" = Ok [].
Proof. split_and!; vm_compute; try reflexivity; discriminate. Qed.

(** C8 (amended): loading fails exactly on a row too short for the cells
    that are read from it, and then with IndexError, which carries no file
    name, line number or row.  That is: a species row other than the header
    with fewer than 7 cells; a UCL reaction row that passes the test
    against [keepList] with fewer than 12; a UMIST row with fewer than 8,
    or one that passes the test with fewer than 14.  Every other file is
    loaded: surplus cells are ignored, and UCL rows that fail the test are
    skipped whatever their length. *)
Theorem C8_short_rows_raise_IndexError (rows : list row) (speciesList : list Species) :
  ((forallb species_row_loads rows = true → ∃ l, read_species_file rows = Ok l)
   ∧ (forallb species_row_loads rows = false →
      read_species_file rows = Raise IndexError))
  ∧ ((forallb (ucl_row_loads (keepList speciesList)) rows = true →
      ∃ l, read_reaction_file rows speciesList "UCL" = Ok l)
     ∧ (forallb (ucl_row_loads (keepList speciesList)) rows = false →
        read_reaction_file rows speciesList "UCL" = Raise IndexError))
  ∧ ((forallb (umist_row_loads (keepList speciesList)) rows = true →
      ∃ l, read_reaction_file rows speciesList "UMIST" = Ok l)
     ∧ (forallb (umist_row_loads (keepList speciesList)) rows = false →
        read_reaction_file rows speciesList "UMIST" = Raise IndexError)).
Proof.
  split_and!; try apply read_species_file_rows.
  - apply (read_rows_total _ _ (λ r, proj1 (ucl_row_total _ r))
             (λ r, proj2 (ucl_row_total _ r))).
  - apply (read_rows_total _ _ (λ r, proj1 (ucl_row_total _ r))
             (λ r, proj2 (ucl_row_total _ r))).
  - apply (read_rows_total _ _ (λ r, proj1 (umist_row_total _ r))
             (λ r, proj2 (umist_row_total _ r))).
  - apply (read_rows_total _ _ (λ r, proj1 (umist_row_total _ r))
             (λ r, proj2 (umist_row_total _ r))).
Qed.

(** ** Constituent analysis *)

(** In [HX] the scan recognises H and stops on X: no element starts
    there, [j] keeps the value 1 it got from H, the test [j>i] fails, the
    diagnostic is printed and [i] is not advanced. *)
Lemma scan_step_stuck out :
  scan_step "HX" (mkScan 1 (Some 1) ["H"] out)
  = Ok (mkScan 1 (Some 1) ["H"] (out ++ [NotInElementList "HX" elementList])).
Proof. reflexivity. Qed.

Lemma scan_loop_stuck fuel : ∀ out,
  scan_loop fuel "HX" (mkScan 1 (Some 1) ["H"] out) = OutOfFuel.
Proof.
  induction fuel as [|fuel IH]; intros out; [reflexivity|].
  change (scan_loop (S fuel) "HX" (mkScan 1 (Some 1) ["H"] out))
    with (scan_step "HX" (mkScan 1 (Some 1) ["H"] out) ≫= scan_loop fuel "HX").
  rewrite scan_step_stuck. apply IH.
Qed.

Lemma scan_loop_HX fuel : scan_loop fuel "HX" (mkScan 0 None [] []) = OutOfFuel.
Proof.
  destruct fuel as [|fuel]; [reflexivity|].
  change (scan_loop (S fuel) "HX" (mkScan 0 None [] []))
    with (scan_loop fuel "HX" (mkScan 1 (Some 1) ["H"] [])).
  apply scan_loop_stuck.
Qed.

(** C4 (fails on the code): on a segment that is no element the loop
    prints the diagnostic and goes round again with nothing changed.  For
    the list [HX] the function returns for no amount of steps; for [X]
    alone [j] is still unbound where it is tested and the function raises;
    for [H, X] the value of [j] left by H makes X an atom, and the lookup
    of its mass raises.  In no case does the analysis go on to the next
    species. *)
Theorem C4_unknown_segment_stops_the_batch :
  (∀ mass_differs fuel,
     find_constituents mass_differs fuel [species "HX" "1"; species "H" "1"]
     = OutOfFuel)
  ∧ (∀ mass_differs fuel,
       find_constituents mass_differs (S fuel) [species "X" "1"; species "H" "1"]
       = Raise UnboundLocalError)
  ∧ find_constituents (λ _ _, Ok false) 10
      [species "H" "1"; species "X" "1"; species "H" "1"]
    = Raise ValueError.
Proof.
  split_and!.
  - intros md fuel. unfold find_constituents. cbn [find_loop species name].
    rewrite scan_loop_HX. reflexivity.
  - intros md fuel. reflexivity.
  - vm_compute. reflexivity.
Qed.

(** On names made of table entries the analysis ends and counts the
    atoms. *)
Example find_constituents_known :
  fst <$> find_constituents (λ _ _, Ok false) 10
            [species "H2O" "18"; species "#CO" "28"; species "MG+" "24"]
  = Ok [mkSpecies "H2O" "18" "0" "0" "0" "0" "0" (Some 3);
        mkSpecies "#CO" "28" "0" "0" "0" "0" "0" (Some 2);
        mkSpecies "MG+" "24" "0" "0" "0" "0" "0" (Some 1)].
Proof. vm_compute. reflexivity. Qed.

(** ** filter_species: the first loop *)

Lemma filter_delete_False {A} (P : A → Prop) `{∀ x, Decision (P x)}
    (l : list A) (i : nat) x :
  l !! i = Some x → ¬ P x → filter P (delete i l) = filter P l.
Proof.
  intros Hi HP. rewrite delete_take_drop.
  rewrite <-(take_drop_middle l i x Hi) at 3.
  rewrite !filter_app, filter_cons_False by assumption. reflexivity.
Qed.

Lemma orphan_loop_total rl fuel : ∀ idx l lost,
  length l ≤ idx + fuel →
  ∃ l' lost', orphan_loop fuel idx rl l lost = Ok (l', lost').
Proof.
  induction fuel as [|fuel IH]; intros idx l lost Hlen; simpl.
  - rewrite (proj2 (lookup_ge_None l idx)) by lia. eauto.
  - destruct (l !! idx) as [sp|] eqn:E; [|eauto].
    destruct (keepFlag rl sp).
    + apply IH. lia.
    + apply IH. rewrite length_delete by eauto. lia.
Qed.

Lemma orphan_loop_keeps rl fuel : ∀ idx l lost l' lost',
  orphan_loop fuel idx rl l lost = Ok (l', lost') →
  filter (λ sp, keepFlag rl sp = true) l' = filter (λ sp, keepFlag rl sp = true) l.
Proof.
  induction fuel as [|fuel IH]; intros idx l lost l' lost'; simpl;
    destruct (l !! idx) as [sp|] eqn:E; try congruence.
  destruct (keepFlag rl sp) eqn:K; intros H%IH; [exact H|].
  rewrite H. apply filter_delete_False with sp; [exact E | congruence].
Qed.

Lemma occurrences_used rl n l :
  used rl n = true →
  occurrences n l = occurrences n (filter (λ sp, keepFlag rl sp = true) l).
Proof.
  intros Hu. unfold occurrences. rewrite list_filter_filter. f_equal.
  apply list_filter_iff. intros sp. unfold keepFlag. split; [|tauto].
  intros <-. auto.
Qed.

Lemma orphan_loop_occurrences rl fuel idx l lost l' lost' n :
  orphan_loop fuel idx rl l lost = Ok (l', lost') →
  used rl n = true → occurrences n l' = occurrences n l.
Proof.
  intros H Hu. rewrite (occurrences_used rl n l'), (occurrences_used rl n l) by done.
  by rewrite (orphan_loop_keeps _ _ _ _ _ _ _ H).
Qed.

(** ** filter_species: repeated names *)

Lemma occurrences_cons n sp l :
  occurrences n (sp :: l)
  = (if bool_decide (name sp = n) then 1 else 0) + occurrences n l.
Proof.
  unfold occurrences. rewrite filter_cons.
  case_bool_decide; [rewrite decide_True by done | rewrite decide_False by done];
    reflexivity.
Qed.

Lemma occurrences_app n l1 l2 :
  occurrences n (l1 ++ l2) = occurrences n l1 + occurrences n l2.
Proof. unfold occurrences. by rewrite filter_app, length_app. Qed.

Lemma occurrences_pos n l : 1 ≤ occurrences n l ↔ ∃ sp, sp ∈ l ∧ name sp = n.
Proof.
  unfold occurrences. split.
  - destruct (filter _ l) as [|sp l'] eqn:E; simpl; [lia|]. intros _.
    assert (sp ∈ filter (λ sp, name sp = n) l) as Hin by (rewrite E; left).
    apply list_elem_of_filter in Hin as [? ?]. eauto.
  - intros (sp & Hin & Hn).
    assert (sp ∈ filter (λ sp, name sp = n) l) as Hf
      by (apply list_elem_of_filter; auto).
    destruct (filter _ l); [inversion Hf | simpl; lia].
Qed.

Lemma has_other_true n i : ∀ (rest : list Species) j,
  has_other n i j rest = true ↔
  ∃ k sk, rest !! k = Some sk ∧ name sk = n ∧ j + k ≠ i.
Proof.
  induction rest as [|sj rest IH]; intros j; simpl.
  - split; [discriminate | intros (k & sk & Hk & _); by destruct k].
  - rewrite orb_true_iff, andb_true_iff, bool_decide_eq_true, negb_true_iff,
      Nat.eqb_neq, IH. split.
    + intros [[-> Hj] | (k & sk & Hk & Hn & Hne)].
      * exists 0, sj. split_and!; auto. lia.
      * exists (S k), sk. split_and!; auto. lia.
    + intros (k & sk & Hk & Hn & Hne). destruct k as [|k]; simpl in Hk.
      * left. injection Hk as ->. split; [done | lia].
      * right. exists k, sk. split_and!; auto. lia.
Qed.

Lemma has_other_occurrences l i si :
  l !! i = Some si →
  has_other (name si) i 0 l = true ↔ 2 ≤ occurrences (name si) l.
Proof.
  intros Hi. rewrite has_other_true.
  replace (occurrences (name si) l)
    with (occurrences (name si) (take i l)
          + (1 + occurrences (name si) (drop (S i) l))).
  2:{ rewrite <-(take_drop_middle l i si Hi) at 3.
      by rewrite occurrences_app, occurrences_cons, bool_decide_eq_true_2. }
  assert (length (take i l) = i) as Hlen
    by (rewrite length_take; apply lookup_lt_Some in Hi; lia).
  split.
  - intros (k & sk & Hk & Hn & Hne). simpl in Hne.
    destruct (decide (k < i)) as [Hlt|Hge].
    + assert (1 ≤ occurrences (name si) (take i l)); [|lia].
      apply occurrences_pos. exists sk. split; [|done].
      apply list_elem_of_lookup. exists k. by rewrite lookup_take_lt.
    + assert (1 ≤ occurrences (name si) (drop (S i) l)); [|lia].
      apply occurrences_pos. exists sk. split; [|done].
      apply list_elem_of_lookup. exists (k - S i). rewrite lookup_drop.
      replace (S i + (k - S i)) with k by lia. done.
  - intros H.
    assert (1 ≤ occurrences (name si) (take i l)
            ∨ 1 ≤ occurrences (name si) (drop (S i) l)) as [H1|H1] by lia;
      apply occurrences_pos in H1 as (sk & [k Hk]%list_elem_of_lookup & Hn).
    + exists k, sk. assert (k < i) by (apply lookup_lt_Some in Hk; lia).
      rewrite lookup_take_lt in Hk by done. split_and!; auto. simpl. lia.
    + rewrite lookup_drop in Hk. exists (S i + k), sk. split_and!; auto.
      simpl. lia.
Qed.

Lemma dup_inner_eq n i : ∀ (rest : list Species) j acc,
  dup_inner n i j rest acc
  = if negb (mem n acc.1) && has_other n i j rest
    then (acc.1 ++ [n], acc.2 ++ [AppearsTwice n])
    else acc.
Proof.
  induction rest as [|sj rest IH]; intros j acc; simpl.
  - by rewrite andb_false_r.
  - rewrite IH. unfold dup_test.
    destruct (bool_decide (n = name sj) && negb (j =? i)) eqn:E1;
      destruct (mem n acc.1) eqn:E2; simpl; rewrite ?E2; simpl; try reflexivity.
    unfold mem. rewrite bool_decide_eq_true_2 by (apply elem_of_app; right; left).
    reflexivity.
Qed.

(** The state of the outer loop when the indices below [i] are done. *)
Definition dup_inv (l : list Species) (i : nat) (acc : list string * list message)
  : Prop :=
  acc.2 = map AppearsTwice acc.1 ∧ NoDup acc.1
  ∧ ∀ n, n ∈ acc.1 ↔
         2 ≤ occurrences n l ∧ ∃ k sk, k < i ∧ l !! k = Some sk ∧ name sk = n.

Lemma dup_outer_inv l : ∀ (rest : list Species) i acc,
  drop i l = rest → dup_inv l i acc →
  dup_inv l (length l) (dup_outer l i rest acc).
Proof.
  induction rest as [|si rest IH]; intros i acc Hdrop (Hmsg & Hnd & Hin); simpl.
  - assert (length l ≤ i) as Hlen.
    { apply (f_equal length) in Hdrop. rewrite length_drop in Hdrop.
      simpl in Hdrop. lia. }
    split_and!; auto. intros n. rewrite Hin. split.
    + intros (? & k & sk & ? & Hk & ?). split; [done|]. exists k, sk.
      split_and!; auto. by apply lookup_lt_Some in Hk.
    + intros (? & k & sk & ? & Hk & ?). split; [done|]. exists k, sk.
      split_and!; auto. lia.
  - assert (l !! i = Some si) as Hi.
    { pose proof (lookup_drop l i 0) as H0. rewrite Hdrop, Nat.add_0_r in H0.
      by rewrite <-H0. }
    apply IH.
    { pose proof (drop_drop l 1 i) as H1. rewrite Hdrop in H1. simpl in H1.
      rewrite Nat.add_1_r in H1. rewrite <-H1. by rewrite drop_0. }
    rewrite dup_inner_eq.
    destruct (mem (name si) acc.1) eqn:Em; simpl.
    + apply bool_decide_eq_true in Em. split_and!; auto. intros n.
      rewrite Hin. split.
      * intros (? & k & sk & ? & ? & ?). split; [done|]. exists k, sk. auto.
      * intros (? & k & sk & Hlt & Hk & Hn). split; [done|].
        destruct (decide (k = i)) as [->|]; [|exists k, sk; split; [lia | auto]].
        assert (sk = si) as -> by congruence. subst n.
        apply Hin in Em as (_ & Hex). exact Hex.
    + apply bool_decide_eq_false in Em.
      destruct (has_other (name si) i 0 l) eqn:Eo; simpl.
      * apply (has_other_occurrences l i si Hi) in Eo. split_and!.
        -- simpl. by rewrite Hmsg, map_app.
        -- simpl. apply NoDup_app. split_and!; [done | | apply NoDup_singleton].
           intros x Hx ->%list_elem_of_singleton. done.
        -- intros n. simpl. rewrite elem_of_app, list_elem_of_singleton, Hin. split.
           ++ intros [(? & k & sk & ? & ? & ?) | ->].
              ** split; [done|]. exists k, sk. auto.
              ** split; [done|]. exists i, si. auto.
           ++ intros (? & k & sk & Hlt & Hk & Hn).
              destruct (decide (k = i)) as [->|].
              ** right. congruence.
              ** left. split; [done|]. exists k, sk. split; [lia | auto].
      * split_and!; auto. intros n. rewrite Hin. split.
        -- intros (? & k & sk & ? & ? & ?). split; [done|]. exists k, sk. auto.
        -- intros (Hocc & k & sk & Hlt & Hk & Hn). split; [done|].
           destruct (decide (k = i)) as [->|]; [|exists k, sk; split; [lia | auto]].
           assert (sk = si) as -> by congruence. subst n.
           apply (has_other_occurrences l i si Hi) in Hocc. congruence.
Qed.

(** The names found by the two nested loops: each name that occurs at
    least twice, once. *)
Lemma dup_outer_spec l :
  let acc := dup_outer l 0 l ([], []) in
  acc.2 = map AppearsTwice acc.1 ∧ NoDup acc.1
  ∧ ∀ n, n ∈ acc.1 ↔ 2 ≤ occurrences n l.
Proof.
  destruct (dup_outer_inv l l 0 ([], [])) as (Hmsg & Hnd & Hin).
  - reflexivity.
  - split_and!; [done | constructor |]. intros n. split.
    + intros H. inversion H.
    + intros (_ & k & _ & ? & _). lia.
  - split_and!; auto. intros n. rewrite Hin. split; [tauto|].
    intros H. split; [done|].
    assert (1 ≤ occurrences n l) as (sp & [k Hk]%list_elem_of_lookup & Hn)%occurrences_pos
      by lia.
    exists k, sp. split_and!; auto. by apply lookup_lt_Some in Hk.
Qed.

Lemma remove_one_occurrences d : ∀ l,
  1 ≤ occurrences d l →
  ∃ l', remove_one d l = Ok l'
        ∧ ∀ n, occurrences n l'
               = if bool_decide (n = d) then occurrences n l - 1 else occurrences n l.
Proof.
  induction l as [|sp l IH]; intros Hocc.
  - unfold occurrences in Hocc. simpl in Hocc. lia.
  - simpl. case_bool_decide as Hd.
    + eexists. split; [reflexivity|]. intros n. rewrite occurrences_cons.
      subst d. repeat case_bool_decide; try congruence; simpl; lia.
    + rewrite occurrences_cons, bool_decide_eq_false_2 in Hocc by done.
      destruct (IH Hocc) as (l' & -> & Hl'). eexists. split; [reflexivity|].
      intros n. rewrite !occurrences_cons, Hl'.
      repeat case_bool_decide; try congruence; simpl; lia.
Qed.

Lemma remove_duplicates_occurrences : ∀ dl l out,
  NoDup dl → (∀ d, d ∈ dl → 1 ≤ occurrences d l) →
  ∃ l', remove_duplicates dl l out = Ok (l', out ++ map OneEntryRemoved dl)
        ∧ ∀ n, occurrences n l'
               = if bool_decide (n ∈ dl) then occurrences n l - 1 else occurrences n l.
Proof.
  induction dl as [|d dl IH]; intros l out Hnd Hocc;
    cbn [remove_duplicates map].
  - exists l. rewrite app_nil_r. split; [reflexivity|]. intros n.
    rewrite bool_decide_eq_false_2; [reflexivity | intros H; inversion H].
  - apply NoDup_cons in Hnd as [Hd Hnd].
    destruct (remove_one_occurrences d l) as (l1 & -> & Hl1);
      [apply Hocc; left|]. cbn [mbind outcome_bind].
    destruct (IH l1 (out ++ [OneEntryRemoved d]) Hnd) as (l' & -> & Hl').
    { intros d' Hd'. rewrite Hl1, bool_decide_eq_false_2 by (intros ->; done).
      apply Hocc. by right. }
    exists l'. split; [by rewrite <-app_assoc|]. intros n. rewrite Hl', Hl1.
    destruct (decide (n = d)) as [->|Hne].
    + rewrite (bool_decide_eq_false_2 (d ∈ dl)) by done.
      rewrite !bool_decide_eq_true_2; [reflexivity | left | reflexivity].
    + rewrite (bool_decide_eq_false_2 (n = d)) by done.
      destruct (decide (n ∈ dl)).
      * rewrite !bool_decide_eq_true_2; [reflexivity | by right | done].
      * rewrite !bool_decide_eq_false_2; [reflexivity | | done].
        intros [->|?]%elem_of_cons; done.
Qed.

(** What [filter_species] does: it always returns; a name that is used
    by some reaction and occurs at least twice loses one entry, and that
    is printed once; a used name that occurs once is kept. *)
Lemma filter_species_spec speciesList reactionList :
  ∃ l1 lost dl l2,
    orphan_loop (length speciesList) 0 reactionList speciesList [] = Ok (l1, lost)
    ∧ filter_species speciesList reactionList
      = Ok (l2, map AppearsTwice dl ++ map OneEntryRemoved dl
                ++ [NotInFinalList lost])
    ∧ NoDup dl
    ∧ (∀ n, n ∈ dl ↔ 2 ≤ occurrences n l1)
    ∧ (∀ n, occurrences n l2 = one_less_if_repeated (occurrences n l1))
    ∧ (∀ n, used reactionList n = true →
            occurrences n l1 = occurrences n speciesList).
Proof.
  unfold filter_species.
  destruct (orphan_loop_total reactionList (length speciesList) 0 speciesList [])
    as (l1 & lost & Hl1); [lia|].
  rewrite Hl1. cbn [mbind outcome_bind].
  pose proof (dup_outer_spec l1) as Hdup. cbv zeta in Hdup.
  destruct (dup_outer l1 0 l1 ([], [])) as [dl out].
  simpl in Hdup. destruct Hdup as (-> & Hnd & Hin).
  destruct (remove_duplicates_occurrences dl l1 (map AppearsTwice dl) Hnd)
    as (l2 & -> & Hl2).
  { intros d Hd%Hin. lia. }
  exists l1, lost, dl, l2. split_and!; auto.
  - cbn [mbind outcome_bind]. by rewrite <-app_assoc.
  - intros n. rewrite Hl2. unfold one_less_if_repeated.
    destruct (2 <=? occurrences n l1) eqn:E.
    + apply Nat.leb_le in E. by rewrite bool_decide_eq_true_2 by by apply Hin.
    + apply Nat.leb_gt in E. rewrite bool_decide_eq_false_2; [done|].
      intros H%Hin. lia.
  - intros n Hu. by apply (orphan_loop_occurrences _ _ _ _ _ _ _ _ Hl1).
Qed.

(** C6 (as stated, fails): of three entries of one name, used by a
    reaction, one is removed and two remain. *)
Lemma C6_three_entries_leave_two :
  filter_species [species "A" "1"; species "A" "1"; species "A" "1"] [reaction_A]
  = Ok ([species "A" "1"; species "A" "1"],
        [AppearsTwice "A"; OneEntryRemoved "A"; NotInFinalList []])
  ∧ ¬ NoDup (map name [species "A" "1"; species "A" "1"]).
Proof.
  split; [vm_compute; reflexivity|].
  intros H. apply NoDup_cons in H as [H _]. apply H. left.
Qed.

(** C6 (amended): [filter_species] always returns.  It prints, for each
    name of a list [dl] without repetition, that the name appears twice
    and that one entry of it was removed.  A name that some reaction uses
    is in [dl] exactly when it occurs at least twice in the input, and
    then one entry of it is gone: of [k > 1] entries [k - 1] remain, so the
    name is unique afterwards when [k = 2]; a used name that occurs once
    keeps its entry. *)
Theorem C6_one_entry_removed_per_repeated_name
    (speciesList : list Species) (reactionList : list Reaction) :
  ∃ l2 dl lost,
    filter_species speciesList reactionList
    = Ok (l2, map AppearsTwice dl ++ map OneEntryRemoved dl
              ++ [NotInFinalList lost])
    ∧ NoDup dl
    ∧ ∀ n, used reactionList n = true →
           (n ∈ dl ↔ 2 ≤ occurrences n speciesList)
           ∧ occurrences n l2 = one_less_if_repeated (occurrences n speciesList).
Proof.
  destruct (filter_species_spec speciesList reactionList)
    as (l1 & lost & dl & l2 & _ & Hf & Hnd & Hin & Hocc & Hused).
  exists l2, dl, lost. split_and!; auto.
  intros n Hu. rewrite Hin, Hocc, (Hused n Hu). done.
Qed.

(** ** Loaded reactions name kept species *)

Lemma read_rows_elem f : ∀ rows rl rc,
  read_rows f rows = Ok rl → rc ∈ rl → ∃ r, r ∈ rows ∧ f r = Ok (Some rc).
Proof.
  induction rows as [|r rows IH]; intros rl rc H Hin; simpl in H.
  - injection H as <-. inversion Hin.
  - apply bind_Ok in H as (o & Ho & H). apply bind_Ok in H as (l & Hl & H).
    injection H as <-.
    assert (rc ∈ l → ∃ r0, r0 ∈ r :: rows ∧ f r0 = Ok (Some rc)) as Hrest.
    { intros (r0 & ? & ?)%(IH _ _ Hl). exists r0. split; [by right | done]. }
    destruct o as [rc0|]; [|auto].
    apply elem_of_cons in Hin as [->|Hin]; [|auto].
    exists r. split; [left | done].
Qed.

Lemma all_in_elem keep xs x : all_in keep xs = true → x ∈ xs → x ∈ keep.
Proof.
  unfold all_in, mem. rewrite forallb_forall. intros H Hin.
  apply list_elem_of_In, H in Hin. by apply bool_decide_eq_true in Hin.
Qed.

Lemma NANCheck_keep (keep : list string) a : "NAN" ∈ keep → a ∈ keep → NANCheck a ∈ keep.
Proof. unfold NANCheck. by case_bool_decide. Qed.

Lemma constructed_slots (keep : list string) r rc x :
  "NAN" ∈ keep → Reaction_init r = Ok rc → all_in keep (slice 0 7 r) = true →
  x ∈ reactants rc ++ products rc → x ∈ keep.
Proof.
  intros Hnan (r0 & r1 & r2 & r3 & r4 & r5 & r6 & Hs & -> & ->)%Reaction_init_shape
    Hall Hx.
  rewrite Hs in Hall.
  assert (∀ y, y ∈ [r0; r1; r2; r3; r4; r5; r6] → y ∈ keep) as Hk
    by (intros y; by apply all_in_elem).
  assert (∀ y, y ∈ [r0; r1; r2; r3; r4; r5; r6] → NANCheck y ∈ keep) as Hn
    by (intros y Hy; apply NANCheck_keep; auto).
  simpl in Hx. repeat (apply elem_of_cons in Hx as [->|Hx]);
    try (by inversion Hx); solve [apply Hn; in_list | apply Hk; in_list].
Qed.

Lemma NAN_in_keepList sl : "NAN" ∈ keepList sl.
Proof. unfold keepList. apply elem_of_app. left. in_list. Qed.

Lemma ucl_row_slots (keep : list string) r rc x :
  "NAN" ∈ keep → ucl_row keep r = Ok (Some rc) →
  x ∈ reactants rc ++ products rc → x ∈ keep.
Proof.
  unfold ucl_row. intros Hnan H Hx.
  destruct (all_in keep (slice 0 7 r)) eqn:Hall; [|discriminate].
  apply bind_Ok in H as (? & _ & H). apply bind_Ok in H as (? & _ & H).
  apply bind_Ok in H as (rc0 & Hrc0 & H). injection H as <-.
  by apply (constructed_slots keep r rc0).
Qed.

Lemma umist_row_slots (keep : list string) r rc x :
  "NAN" ∈ keep → "" ∈ keep → umist_row keep r = Ok (Some rc) →
  x ∈ reactants rc ++ products rc → x ∈ keep.
Proof.
  unfold umist_row. intros Hnan Hemp H Hx.
  repeat (apply bind_Ok in H as (? & ?%item_Ok & H)).
  destruct (all_in keep _) eqn:Hall; [|discriminate].
  destruct (Reaction_init _) as [rc0| |] eqn:Hrc0; [|discriminate..].
  injection H as <-.
  apply (constructed_slots keep _ rc0 x Hnan Hrc0); [|exact Hx].
  do 8 (destruct r as [|? r]; simplify_eq/=).
  change (slice 0 7 _) with [x0; x1; ""; x2; x3; x4; x5].
  unfold all_in in *. simpl in *.
  repeat (apply andb_prop in Hall as [? Hall]).
  repeat (apply andb_true_intro; split); auto.
  unfold mem. by apply bool_decide_eq_true_2.
Qed.

Lemma read_reaction_file_slots rows sl ftype rl rc x :
  read_reaction_file rows sl ftype = Ok rl → rc ∈ rl →
  x ∈ reactants rc ++ products rc → x ∈ keepList sl.
Proof.
  unfold read_reaction_file. intros H Hrc Hx.
  pose proof (NAN_in_keepList sl) as Hnan.
  assert ("" ∈ keepList sl) as Hemp
    by (unfold keepList; apply elem_of_app; left; in_list).
  repeat case_bool_decide.
  - destruct (read_rows_elem _ _ _ _ H Hrc) as (r & _ & Hr).
    by apply (umist_row_slots _ r rc).
  - destruct (read_rows_elem _ _ _ _ H Hrc) as (r & _ & Hr).
    by apply (ucl_row_slots _ r rc).
  - injection H as <-. inversion Hrc.
Qed.

Lemma used_elem rl rc x :
  rc ∈ rl → x ∈ reactants rc ++ products rc → used rl x = true.
Proof.
  intros Hrc Hx. unfold used. apply existsb_exists. exists rc.
  split; [by apply list_elem_of_In|]. unfold mem.
  apply elem_of_app in Hx as [Hx|Hx].
  - by rewrite (bool_decide_eq_true_2 _ Hx).
  - rewrite (bool_decide_eq_true_2 (x ∈ products rc) Hx). apply orb_true_r.
Qed.

Lemma occurrences_names n l : 1 ≤ occurrences n l ↔ n ∈ map name l.
Proof.
  rewrite occurrences_pos, list_elem_of_fmap. split.
  - intros (sp & ? & <-). eauto.
  - intros (sp & -> & ?). eauto.
Qed.

(** C7: after [read_reaction_file] and [filter_species], every slot of
    every reaction that is neither empty nor NAN holds a process token or
    the name of a species of the list that [filter_species] returns. *)
Theorem C7_slots_name_tokens_or_kept_species
    (rows : list row) (speciesList : list Species) (ftype : string)
    (reactionList : list Reaction) (kept : list Species) (out : list message) :
  read_reaction_file rows speciesList ftype = Ok reactionList →
  filter_species speciesList reactionList = Ok (kept, out) →
  ∀ reaction x,
    reaction ∈ reactionList →
    x ∈ reactants reaction ++ products reaction →
    x ≠ "" → x ≠ "NAN" →
    x ∈ process_tokens ∨ x ∈ map name kept.
Proof.
  intros Hread Hfilter rc x Hrc Hx Hne Hnn.
  pose proof (read_reaction_file_slots _ _ _ _ _ _ Hread Hrc Hx) as Hkeep.
  unfold keepList in Hkeep. apply elem_of_app in Hkeep as [Htok|Hsp].
  - left. unfold keepTokens in Htok.
    apply elem_of_cons in Htok as [->|Htok]; [done|].
    apply elem_of_cons in Htok as [->|Htok]; [done|]. exact Htok.
  - right.
    destruct (filter_species_spec speciesList reactionList)
      as (l1 & lost & dl & l2 & _ & Hf & _ & _ & Hocc & Hused).
    rewrite Hf in Hfilter. injection Hfilter as <- _.
    apply occurrences_names. rewrite Hocc, (Hused x (used_elem _ _ _ Hrc Hx)).
    apply occurrences_names in Hsp. unfold one_less_if_repeated.
    destruct (2 <=? occurrences x speciesList) eqn:E; [|done].
    apply Nat.leb_le in E. lia.
Qed.

(** C7, on a list with a repeated and an unused species: the product H2
    of the loaded reaction is the name of a kept species. *)
Lemma C7_slots_witness :
  "H2" ∈ process_tokens
  ∨ "H2" ∈ map name [species "H" "1"; species "H2" "2"].
Proof.
  apply (C7_slots_name_tokens_or_kept_species [row_H_H_H2]
           [species "H" "1"; species "H2" "2"; species "H2" "2"; species "C" "12"]
           "UCL" [formation] [species "H" "1"; species "H2" "2"]
           [AppearsTwice "H2"; OneEntryRemoved "H2"; NotInFinalList ["C"]]
           ltac:(vm_compute; reflexivity) ltac:(vm_compute; reflexivity)
           formation "H2").
  - left.
  - simpl. in_list.
  - discriminate.
  - discriminate.
Defined.

(** ** Line wrapping *)

Lemma chars_text l : chars (text l) = l.
Proof. apply String.list_ascii_of_string_of_list_ascii. Qed.

Lemma text_chars s : text (chars s) = s.
Proof. apply String.string_of_list_ascii_of_string. Qed.

Lemma length_chars s : length (chars s) = String.length s.
Proof. induction s as [|c s IH]; simpl; [reflexivity | by rewrite <-IH]. Qed.

Lemma find_last_Some c : ∀ l pos k,
  find_last c l pos = Some k → ∃ k', k = pos + k' ∧ l !! k' = Some c.
Proof.
  induction l as [|x l IH]; intros pos k H; simpl in H; [discriminate|].
  destruct (find_last c l (S pos)) as [k0|] eqn:E.
  - injection H as ->. destruct (IH _ _ E) as (k' & -> & Hk').
    exists (S k'). split; [lia | exact Hk'].
  - case_bool_decide; [|discriminate]. injection H as ->. subst x.
    exists 0. split; [lia | reflexivity].
Qed.

Lemma find_last_ge c : ∀ l pos k',
  l !! k' = Some c → ∃ k, find_last c l pos = Some k ∧ pos + k' ≤ k.
Proof.
  induction l as [|x l IH]; intros pos k' H; [by destruct k'|]. simpl.
  destruct k' as [|k']; simpl in H.
  - injection H as ->. destruct (find_last c l (S pos)) as [k0|] eqn:E.
    + destruct (find_last_Some _ _ _ _ E) as (? & -> & _). eexists. split; [done | lia].
    + rewrite bool_decide_eq_true_2 by done. eexists. split; [done | lia].
  - destruct (IH (S pos) k' H) as (k & -> & Hk). exists k. split; [done | lia].
Qed.

Lemma rfind_cases c stop input :
  rfind c stop input = (-1)%Z
  ∨ ∃ k, rfind c stop input = Z.of_nat k ∧ k < stop ∧ input !! k = Some c.
Proof.
  unfold rfind. destruct (find_last c (take stop input) 0) as [k|] eqn:E; [|by left].
  right. destruct (find_last_Some _ _ _ _ E) as (k' & -> & Hk'). exists k'.
  split; [reflexivity|]. apply lookup_take_Some in Hk'. tauto.
Qed.

Lemma rfind_lower c stop input k :
  k < stop → input !! k = Some c → (Z.of_nat k ≤ rfind c stop input)%Z.
Proof.
  intros Hk Hc. unfold rfind.
  destruct (find_last_ge c (take stop input) 0 k) as (k0 & -> & Hk0).
  - by rewrite lookup_take_lt.
  - lia.
Qed.

Lemma is_operator_true c :
  is_operator c = true ↔ c = "+"%char ∨ c = "-"%char ∨ c = "*"%char ∨ c = "/"%char.
Proof.
  unfold is_operator. rewrite bool_decide_eq_true, !elem_of_cons, elem_of_nil.
  tauto.
Qed.

Lemma index4_cases input :
  index4 input = (-1)%Z
  ∨ ∃ k c, index4 input = Z.of_nat k ∧ k < lineLength
           ∧ input !! k = Some c ∧ is_operator c = true.
Proof.
  unfold index4.
  destruct (rfind_cases "+" lineLength input) as [E1|(k1 & E1 & ? & ?)];
  destruct (rfind_cases "-" lineLength input) as [E2|(k2 & E2 & ? & ?)];
  destruct (rfind_cases "*" lineLength input) as [E3|(k3 & E3 & ? & ?)];
  destruct (rfind_cases "/" lineLength input) as [E4|(k4 & E4 & ? & ?)];
  rewrite E1, E2, E3, E4;
  repeat match goal with
  | |- context [Z.max ?a ?b] =>
      destruct (Z.max_spec a b) as [ [_ ->] | [_ ->] ]
  end;
  first [by left
        | right; eexists _, _; split; [reflexivity|]; split; [eassumption|];
          split; [eassumption|]; reflexivity].
Qed.

Lemma index4_lower input k c :
  k < lineLength → input !! k = Some c → is_operator c = true →
  (Z.of_nat k ≤ index4 input)%Z.
Proof.
  intros Hk Hc [-> | [-> | [-> | ->] ] ]%is_operator_true; unfold index4;
    pose proof (rfind_lower _ lineLength input k Hk Hc); lia.
Qed.

Lemma upto_nat k input : upto (Z.of_nat k) input = take k input.
Proof.
  unfold upto, cut. rewrite (proj2 (Z.ltb_ge _ _)) by lia. by rewrite Nat2Z.id.
Qed.

Lemma from_nat k input : from (Z.of_nat k) input = drop k input.
Proof.
  unfold from, cut. rewrite (proj2 (Z.ltb_ge _ _)) by lia. by rewrite Nat2Z.id.
Qed.

(** One pass of the loop, away from the thirtieth line. *)
Lemma truncate_loop_step fuel lhs lines res input :
  lineLength < length input → lines + 1 ≠ maxlines →
  truncate_loop (S fuel) "F90" None lhs lines res input
  = truncate_loop fuel "F90" None lhs (lines + 1)
      (res ++ upto (index4 input) input ++ amp_tail)
      (amp_head ++ from (index4 input) input).
Proof.
  intros H1 H2. cbn [truncate_loop].
  rewrite (proj2 (Nat.ltb_lt _ _) H1), (proj2 (Nat.eqb_neq _ _) H2).
  reflexivity.
Qed.

Lemma truncate_loop_short fuel lhs lines res input :
  length input ≤ lineLength →
  truncate_loop fuel "F90" None lhs lines res input = Ok (res ++ input).
Proof.
  intros H. destruct fuel; cbn [truncate_loop];
    by rewrite (proj2 (Nat.ltb_ge _ _) H).
Qed.

Lemma truncate_loop_no_fuel lhs lines res input :
  lineLength < length input →
  truncate_loop 0 "F90" None lhs lines res input = OutOfFuel.
Proof. intros H. cbn [truncate_loop]. by rewrite (proj2 (Nat.ltb_lt _ _) H). Qed.

(** A continuation line whose only operator in reach is its first
    character is cut there, and gives the same continuation line again. *)
Lemma truncate_loop_stuck lhs body : ∀ fuel lines res,
  lines + fuel < maxlines →
  lineLength < length (amp_head ++ body) →
  index4 (amp_head ++ body) = 13%Z →
  truncate_loop fuel "F90" None lhs lines res (amp_head ++ body) = OutOfFuel.
Proof.
  induction fuel as [|fuel IH]; intros lines res Hl Hlen Hidx.
  - by apply truncate_loop_no_fuel.
  - rewrite truncate_loop_step by (unfold maxlines in *; lia).
    rewrite Hidx. change (from 13 (amp_head ++ body)) with body.
    apply IH; [lia | done | done].
Qed.

Lemma wrapped_cons p ps :
  ps ≠ [] → wrapped (p :: ps) = p ++ marker ++ wrapped ps.
Proof. destruct ps; [done | reflexivity]. Qed.

Lemma amp_head_no_operator k c :
  amp_head !! k = Some c → is_operator c = false.
Proof.
  do 13 (destruct k as [|k]; [intros [= <-]; reflexivity|]). discriminate.
Qed.

(** The loop on a continuation line, fewer than thirty lines in all. *)
Lemma wrap_continuation lhs : ∀ fuel lines res body r,
  lines + fuel < maxlines →
  starts_with_operator body →
  truncate_loop fuel "F90" None lhs lines res (amp_head ++ body) = Ok r →
  ∃ ps, ps ≠ [] ∧ r = res ++ amp_head ++ wrapped ps
        ∧ concat ps = body ∧ Forall starts_with_operator ps.
Proof.
  induction fuel as [|fuel IH]; intros lines res body r Hl Hop H.
  - destruct (decide (length (amp_head ++ body) ≤ lineLength)) as [Hs|Hs].
    + rewrite truncate_loop_short in H by done. injection H as <-.
      exists [body]. simpl. rewrite app_nil_r. split_and!; auto.
    + rewrite truncate_loop_no_fuel in H by lia. discriminate.
  - destruct (decide (length (amp_head ++ body) ≤ lineLength)) as [Hs|Hs].
    { rewrite truncate_loop_short in H by done. injection H as <-.
      exists [body]. simpl. rewrite app_nil_r. split_and!; auto. }
    destruct Hop as (c0 & body0 & -> & Hc0).
    pose proof (index4_lower (amp_head ++ c0 :: body0) 13 c0
                  ltac:(unfold lineLength; lia) eq_refl Hc0) as Hlow.
    destruct (index4_cases (amp_head ++ c0 :: body0))
      as [E|(k & c & E & Hk & Hc & Hopc)]; [lia|].
    destruct (decide (k = 13)) as [->|Hne].
    { rewrite truncate_loop_stuck in H; [discriminate | lia | lia | exact E]. }
    rewrite truncate_loop_step in H by (unfold maxlines in *; lia).
    rewrite E, upto_nat, from_nat in H.
    assert (13 < k) as Hgt by lia.
    assert (length amp_head = 13) as Hlen by reflexivity.
    rewrite take_app, drop_app, take_ge, drop_ge, Hlen in H by lia.
    rewrite lookup_app_r, Hlen in Hc by lia. rewrite app_nil_l in H.
    set (body := c0 :: body0) in *.
    assert (drop (k - 13) body = c :: drop (S (k - 13)) body) as Hd
      by (by apply drop_S).
    apply IH in H as (ps & Hps & -> & Hcat & Hall); [|lia|].
    2:{ exists c, (drop (S (k - 13)) body). split; done. }
    exists (take (k - 13) body :: ps). split_and!.
    + done.
    + rewrite wrapped_cons by done. unfold marker.
      by rewrite <-!app_assoc.
    + simpl. rewrite Hcat. apply take_drop.
    + constructor; [|done]. exists c0, (take (k - 13 - 1) body0). split; [|done].
      subst body. destruct (k - 13) as [|n] eqn:En; [lia|]. simpl.
      by rewrite Nat.sub_0_r.
Qed.

(** The loop on a statement, fewer than thirty lines in all. *)
Lemma wrap_statement lhs fuel input r :
  fuel < maxlines →
  (length input ≤ lineLength
   ∨ ∃ k c, k < lineLength ∧ input !! k = Some c ∧ is_operator c = true) →
  truncate_loop fuel "F90" None lhs 0 [] input = Ok r →
  ∃ p ps, r = wrapped (p :: ps) ∧ concat (p :: ps) = input
          ∧ Forall starts_with_operator ps.
Proof.
  intros Hf Hin H.
  destruct (decide (length input ≤ lineLength)) as [Hs|Hs].
  { rewrite truncate_loop_short in H by done. injection H as <-.
    exists input, []. simpl. by rewrite app_nil_r. }
  destruct Hin as [?|(k0 & c0 & Hk0 & Hc0 & Hop0)]; [done|].
  destruct fuel as [|fuel]; [rewrite truncate_loop_no_fuel in H by lia; discriminate|].
  pose proof (index4_lower input k0 c0 Hk0 Hc0 Hop0) as Hlow.
  destruct (index4_cases input) as [E|(k & c & E & Hk & Hc & Hopc)]; [lia|].
  rewrite truncate_loop_step in H by (unfold maxlines; lia).
  rewrite E, upto_nat, from_nat in H.
  assert (drop k input = c :: drop (S k) input) as Hd by (by apply drop_S).
  apply wrap_continuation in H as (ps & Hps & -> & Hcat & Hall); [|simpl; lia|].
  2:{ exists c, (drop (S k) input). split; done. }
  exists (take k input), ps. split_and!.
  - rewrite wrapped_cons by done. unfold marker. simpl. by rewrite <-!app_assoc.
  - simpl. rewrite Hcat. apply take_drop.
  - done.
Qed.

(** Stripping the markers. *)
Lemma unwrap_marker rest : unwrap 0 (marker ++ rest) = unwrap 0 rest.
Proof. reflexivity. Qed.

Lemma starts_with_marker_second c d l :
  d ≠ "&"%char → starts_with marker (c :: d :: l) = false.
Proof.
  intros Hd. change marker with (" "%char :: "&"%char :: drop 2 marker).
  cbn [starts_with]. rewrite (bool_decide_eq_false_2 ("&"%char = d)) by congruence.
  by rewrite andb_false_r.
Qed.

Lemma unwrap_piece : ∀ p rest,
  "&"%char ∉ p → head rest ≠ Some "&"%char →
  unwrap 0 (p ++ rest) = p ++ unwrap 0 rest.
Proof.
  induction p as [|c p IH]; intros rest Hp Hrest; [reflexivity|].
  apply not_elem_of_cons in Hp as [Hc Hp].
  assert (starts_with marker ((c :: p) ++ rest) = false) as Hs.
  { destruct p as [|d p]; simpl.
    - destruct rest as [|d rest]; [by rewrite andb_false_r|].
      apply starts_with_marker_second. simpl in Hrest. congruence.
    - apply starts_with_marker_second. apply not_elem_of_cons in Hp as [? _].
      congruence. }
  change (unwrap 0 ((c :: p) ++ rest))
    with (if starts_with marker ((c :: p) ++ rest)
          then unwrap (length marker - 1) (p ++ rest)
          else c :: unwrap 0 (p ++ rest)).
  rewrite Hs, IH by done. reflexivity.
Qed.

Lemma unwrap_wrapped : ∀ pieces,
  "&"%char ∉ concat pieces → unwrap 0 (wrapped pieces) = concat pieces.
Proof.
  induction pieces as [|p ps IH]; intros Hamp; [reflexivity|].
  simpl in Hamp. rewrite elem_of_app in Hamp.
  destruct ps as [|q ps].
  - simpl. rewrite app_nil_r.
    rewrite <-(app_nil_r p) at 1. rewrite unwrap_piece; [by rewrite app_nil_r| |done].
    tauto.
  - rewrite wrapped_cons by done.
    rewrite unwrap_piece, unwrap_marker, IH; [reflexivity | tauto | tauto | done].
Qed.

(** C3 (as stated, fails): at the thirtieth line of a statement
    [truncate_line] ends the statement and starts a new one with the text
    [lhs = lhs] in front of what is left, so that putting the lines
    together does not give the statement back. *)
Lemma C3_thirtieth_line_restarts :
  ∃ r, truncate_line 100 long_loss "F90" None = Ok r ∧ rejoin r ≠ long_loss.
Proof.
  eexists. split; [vm_compute; reflexivity|].
  apply String.eqb_neq. vm_compute. reflexivity.
Qed.

(** C3 (amended): for a statement that has an operator among its first 72
    characters (or is no longer than that) and holds no [&], if
    [truncate_line] ends within 29 passes of its loop, that is before
    the thirtieth line, then the text it returns is the statement cut
    into pieces, each piece after the first beginning with one of
    [+ - * /], and put together with [" &"], a line end and
    ["     &       "] between one piece and the next; stripping these
    markers gives the statement back. *)
Theorem C3_wrap_cuts_at_operators (fuel : nat) (input r : string) :
  fuel < maxlines →
  (String.length input ≤ lineLength
   ∨ ∃ k c, k < lineLength ∧ chars input !! k = Some c ∧ is_operator c = true) →
  "&"%char ∉ chars input →
  truncate_line fuel input "F90" None = Ok r →
  rejoin r = input
  ∧ ∃ p ps, chars r = wrapped (p :: ps) ∧ concat (p :: ps) = chars input
            ∧ Forall starts_with_operator ps.
Proof.
  intros Hf Hop Hamp H. unfold truncate_line in H.
  apply bind_Ok in H as (index & _ & H).
  destruct (truncate_loop _ _ _ _ _ _ _) as [r'| |] eqn:Hloop; try discriminate.
  injection H as <-.
  apply wrap_statement in Hloop as (p & ps & -> & Hcat & Hall);
    [|done|by rewrite length_chars].
  split.
  - unfold rejoin. rewrite chars_text, unwrap_wrapped by (by rewrite Hcat).
    by rewrite Hcat, text_chars.
  - exists p, ps. by rewrite chars_text.
Qed.

(** C3, on a statement of ten terms, wrapped into three lines. *)
Lemma C3_wrap_witness : rejoin ten_terms_wrapped = ten_terms.
Proof.
  eapply proj1.
  apply (C3_wrap_cuts_at_operators 29 ten_terms ten_terms_wrapped).
  - unfold maxlines. lia.
  - right. exists 13, "-"%char. split_and!; [unfold lineLength; lia|..]; reflexivity.
  - apply (bool_decide_unpack _). vm_compute. exact I.
  - vm_compute. reflexivity.
Defined.

(** Where no operator is among the first 72 characters the search gives
    -1 and the cut falls before the last character, inside the text. *)
Example truncate_line_no_operator :
  truncate_line 10 no_operator "F90" None
  = Ok ("      A = " +:+ rep 70 "B" +:+ " &" +:+ nl +:+ "     &       " +:+ nl).
Proof. vm_compute. reflexivity. Qed.

(** ** Rows of the species table and indices of the generated code *)

Lemma append_cons c s t : String c s +:+ t = String c (s +:+ t).
Proof. reflexivity. Qed.

Lemma append_assoc (a b c : string) : (a +:+ b) +:+ c = a +:+ (b +:+ c).
Proof.
  induction a as [|x a IH]; [reflexivity|]. by rewrite !append_cons, IH.
Qed.

Lemma chars_append a b : chars (a +:+ b) = chars a ++ chars b.
Proof.
  induction a as [|x a IH]; [reflexivity|]. rewrite append_cons.
  change (chars (String x (a +:+ b))) with (x :: chars (a +:+ b)).
  by rewrite IH.
Qed.

Lemma text_app l1 l2 : text (l1 ++ l2) = text l1 +:+ text l2.
Proof.
  induction l1 as [|x l1 IH]; [reflexivity|].
  change (text ((x :: l1) ++ l2)) with (String x (text (l1 ++ l2))).
  by rewrite IH.
Qed.

Lemma begins_append pre s t : begins pre s → begins pre (s +:+ t).
Proof. intros [u ->]. exists (u +:+ t). by rewrite append_assoc. Qed.

(** The text of a number holds digits only. *)
Lemma uint_no_operator d c :
  c ∈ chars (NilEmpty.string_of_uint d) → is_operator c = false.
Proof.
  induction d; simpl; intros H; try (by inversion H);
    apply elem_of_cons in H as [->|H]; auto.
Qed.

Lemma str_no_operator n c : c ∈ chars (str n) → is_operator c = false.
Proof. apply uint_no_operator. Qed.

(** The text returned by the loop starts with the text gathered so far. *)
Lemma truncate_loop_prefix cf cc lhs : ∀ fuel lines res input r,
  truncate_loop fuel cf cc lhs lines res input = Ok r → ∃ t, r = res ++ t.
Proof.
  induction fuel as [|fuel IH]; intros lines res input r H; cbn [truncate_loop] in H.
  - destruct (lineLength <? length input); [discriminate|].
    injection H as <-. eauto.
  - destruct (lineLength <? length input); [|injection H as <-; eauto].
    destruct (lines + 1 =? maxlines).
    + apply IH in H as [t ->]. rewrite <-app_assoc. eauto.
    + destruct (bool_decide (cf = "F90")); [destruct cc|];
        apply IH in H as [t ->]; rewrite <-app_assoc; eauto.
Qed.

(** Wrapping keeps what stands before the first operator. *)
Lemma truncate_line_begins fuel pre rest y :
  (∀ c, c ∈ chars pre → is_operator c = false) → rest ≠ "" →
  truncate_line fuel (pre +:+ rest) "F90" None = Ok y → begins pre y.
Proof.
  intros Hpre Hrest H. unfold truncate_line in H.
  apply bind_Ok in H as (index & _ & H).
  destruct (truncate_loop _ _ _ _ _ _ _) as [r| |] eqn:Hloop; try discriminate.
  injection H as <-. rewrite chars_append in Hloop.
  assert (∃ t, r = chars pre ++ t) as [t ->];
    [|exists (text t); by rewrite text_app, text_chars].
  set (input := chars pre ++ chars rest) in *.
  destruct (decide (length input ≤ lineLength)) as [Hs|Hs].
  { rewrite truncate_loop_short in Hloop by done. injection Hloop as <-. eauto. }
  destruct fuel as [|fuel];
    [rewrite truncate_loop_no_fuel in Hloop by lia; discriminate|].
  rewrite truncate_loop_step in Hloop by (unfold maxlines; lia).
  apply truncate_loop_prefix in Hloop as [t ->]. simpl.
  assert (0 < length (chars rest)) as Hlen.
  { rewrite length_chars. destruct rest; [done | simpl; lia]. }
  assert (∃ u, upto (index4 input) input = chars pre ++ u) as [u ->];
    [|rewrite <-!app_assoc; eauto].
  destruct (index4_cases input) as [E|(k & c & E & Hk & Hc & Hop)]; rewrite E.
  - unfold upto, cut. simpl. subst input. rewrite length_app.
    rewrite take_app, take_ge by lia. eauto.
  - rewrite upto_nat. subst input.
    destruct (decide (k < length (chars pre))) as [Hlt|Hge].
    + rewrite lookup_app_l in Hc by done.
      apply list_elem_of_lookup_2, Hpre in Hc. congruence.
    + rewrite take_app, take_ge by lia. eauto.
Qed.

Lemma ydot_statement_shape n formString lossString :
  ∃ rest, rest ≠ ""
          ∧ ydot_statement n formString lossString
            = ("      YDOT(" +:+ str (n + 1) +:+ ") = ") +:+ rest.
Proof.
  unfold ydot_statement.
  repeat case_bool_decide; eexists; (split; [|rewrite !append_assoc; reflexivity]);
    discriminate.
Qed.

Lemma lhs_no_operator (a b : string) n c :
  (∀ c, c ∈ chars a → is_operator c = false) →
  (∀ c, c ∈ chars b → is_operator c = false) →
  c ∈ chars (a +:+ str n +:+ b) → is_operator c = false.
Proof.
  intros Ha Hb. rewrite !chars_append, !elem_of_app.
  intros [?|[?|?]]; eauto using str_no_operator.
Qed.

Ltac no_operator :=
  let c := fresh in let H := fresh in
  intros c H; simpl in H;
  repeat (apply elem_of_cons in H as [->|H]; [reflexivity|]); inversion H.

Lemma species_loop_blocks set_iter fuel sl rl : ∀ todo n blocks,
  species_loop set_iter fuel sl rl n todo = Ok blocks →
  length blocks = length todo
  ∧ ∀ i sp, todo !! i = Some sp →
      ∃ b, blocks !! i = Some b
           ∧ species_block set_iter fuel sl rl (n + i) sp = Ok b.
Proof.
  induction todo as [|sp0 todo IH]; intros n blocks H; simpl in H.
  - injection H as <-. split; [reflexivity|]. intros i sp Hi. by destruct i.
  - apply bind_Ok in H as (b & Hb & H). apply bind_Ok in H as (bs & Hbs & H).
    injection H as <-. destruct (IH _ _ Hbs) as [Hlen Hnth].
    split; [simpl; by rewrite Hlen|]. intros [|i] sp Hi; simpl in Hi.
    + injection Hi as <-. exists b. by rewrite Nat.add_0_r.
    + destruct (Hnth i sp Hi) as (b' & ? & ?). exists b'.
      by rewrite <-Nat.add_succ_comm.
Qed.

Lemma electron_eq_begins fuel sl e :
  electron_eq fuel sl "F90" = Ok e →
  begins ("      Y(" +:+ str (length sl + 1) +:+ ") = ") e.
Proof.
  unfold electron_eq. intros H. apply bind_Ok in H as (t & _ & H).
  rewrite (bool_decide_eq_false_2 ("F90" = "C")),
    (bool_decide_eq_true_2 ("F90" = "F90")),
    (bool_decide_eq_false_2 ("F90" = "F77")) in H by done.
  unfold Y in H. set (pre := "      Y(" +:+ str (length sl + 1) +:+ ") = ").
  assert (∀ c, c ∈ chars pre → is_operator c = false) as Hpre
    by (intros c; apply lhs_no_operator; no_operator).
  destruct (0 <? String.length t) eqn:E.
  - apply (truncate_line_begins fuel pre (t +:+ nl) e Hpre).
    + destruct t; discriminate.
    + rewrite <-H. f_equal. unfold pre. by rewrite !append_assoc.
  - apply (truncate_line_begins fuel pre ("0" +:+ nl) e Hpre).
    + discriminate.
    + rewrite <-H. f_equal. unfold pre. by rewrite !append_assoc.
Qed.

Lemma species_rows_nth : ∀ sl rows,
  species_rows sl = Ok rows →
  length rows = length sl
  ∧ ∀ n sp, sl !! n = Some sp →
      ∃ k, n_atoms sp = Some k
           ∧ rows !! n
             = Some [VStr (name sp); VStr (mass sp); VInt (Z.of_nat k)].
Proof.
  induction sl as [|sp0 sl IH]; intros rows H; simpl in H.
  - injection H as <-. split; [reflexivity|]. intros n sp Hn. by destruct n.
  - destruct (n_atoms sp0) as [k0|] eqn:E0; [|discriminate].
    apply bind_Ok in H as (rows0 & Hrows0 & H). injection H as <-.
    destruct (IH _ Hrows0) as [Hlen Hnth]. split; [simpl; by rewrite Hlen|].
    intros [|n] sp Hn; simpl in Hn.
    + injection Hn as <-. eauto.
    + apply (Hnth n sp Hn).
Qed.

Lemma species_factors_positions reactant n_appearances : ∀ l j,
  species_factors reactant n_appearances j l
  = (join (map (λ k, rep n_appearances ("*" +:+ Y (k + 1))) (positions reactant j l)),
     n_appearances * length (positions reactant j l)).
Proof.
  induction l as [|sp l IH]; intros j; simpl; [by rewrite Nat.mul_0_r|].
  rewrite IH. case_bool_decide; simpl; [|reflexivity].
  f_equal. lia.
Qed.

Lemma append_nil_r (s : string) : s +:+ "" = s.
Proof. induction s as [|c s IH]; [reflexivity|]. by rewrite append_cons, IH. Qed.

Lemma rows_named_positions x : ∀ sl rows j,
  species_rows sl = Ok rows → rows_named x j rows = positions x j sl.
Proof.
  induction sl as [|sp sl IH]; intros rows j H; simpl in H.
  - by injection H as <-.
  - destruct (n_atoms sp) as [k|]; [|discriminate].
    apply bind_Ok in H as (rows' & Hrows' & H). injection H as <-.
    cbn [rows_named positions row_name]. rewrite (IH _ (S j) Hrows').
    destruct (decide (x = name sp)) as [->|Hne].
    + by rewrite !bool_decide_eq_true_2.
    + rewrite !bool_decide_eq_false_2; [done..|]. congruence.
Qed.

Lemma table_names_rows : ∀ sl rows,
  species_rows sl = Ok rows → table_names rows = map name sl.
Proof.
  induction sl as [|sp sl IH]; intros rows H; simpl in H.
  - by injection H as <-.
  - destruct (n_atoms sp) as [k|]; [|discriminate].
    apply bind_Ok in H as (rows' & Hrows' & H). injection H as <-.
    simpl. f_equal. exact (IH _ Hrows').
Qed.

Lemma rows_named_rows x : ∀ rows j k,
  k ∈ rows_named x j rows ↔ j ≤ k ∧ ∃ r, rows !! (k - j) = Some r ∧ row_name r = Some x.
Proof.
  induction rows as [|r0 rows IH]; intros j k; simpl.
  - split; [intros H; inversion H | intros (_ & r & H & _); discriminate].
  - assert (k ∈ rows_named x (S j) rows
            ↔ j < k ∧ ∃ r, (r0 :: rows) !! (k - j) = Some r ∧ row_name r = Some x)
      as Hrest.
    { rewrite IH. split.
      - intros (? & r & Hr & ?). split; [lia|]. exists r. split; [|done].
        replace (k - j) with (S (k - S j)) by lia. exact Hr.
      - intros (? & r & Hr & ?). split; [lia|]. exists r. split; [|done].
        replace (k - j) with (S (k - S j)) in Hr by lia. exact Hr. }
    case_bool_decide as Hr0.
    + rewrite elem_of_cons, Hrest. split.
      * intros [->|(? & ?)]; [|split; [lia|done]].
        split; [lia|]. exists r0. by rewrite Nat.sub_diag.
      * intros (Hle & r & Hr & Hx).
        destruct (decide (k = j)) as [->|]; [by left|]. right.
        split; [lia|eauto].
    + rewrite Hrest. split.
      * intros (? & ?). split; [lia|done].
      * intros (Hle & r & Hr & Hx). split; [|eauto].
        destruct (decide (k = j)) as [->|]; [|lia].
        rewrite Nat.sub_diag in Hr. simpl in Hr. congruence.
Qed.

Lemma count_pos_mem x l : (0 <? count x l) = mem x l.
Proof.
  unfold count, mem. induction l as [|y l IH]; [reflexivity|].
  destruct (decide (y = x)) as [->|Hne].
  - rewrite filter_cons_True by done. simpl.
    symmetry. apply bool_decide_eq_true_2. left.
  - rewrite filter_cons_False by done. rewrite IH.
    apply bool_decide_ext. rewrite elem_of_cons.
    split; [auto | intros [?|?]; [congruence|done]].
Qed.

Lemma density_times n rs :
  (if density n rs then "*D" else "") = times_density n rs.
Proof. unfold density, times_density. by rewrite !count_pos_mem. Qed.

Lemma append_density s n rs :
  (if density n rs then s +:+ "*D" else s) = s +:+ times_density n rs.
Proof.
  rewrite <-density_times. destruct (density n rs); [done|by rewrite append_nil_r].
Qed.

Lemma abundance_factors_table sl rows x m :
  species_rows sl = Ok rows →
  abundance_factors sl x m
  = (factors (str (length sl + 1)) rows x m,
     m * length (references (str (length sl + 1)) rows x)).
Proof.
  intros Hrows. unfold abundance_factors, factors, references.
  case_bool_decide.
  - cbn [map join foldr length]. rewrite append_nil_r, Nat.mul_1_r. reflexivity.
  - rewrite species_factors_positions, length_map, map_map.
    by rewrite (rows_named_positions x sl rows 0 Hrows).
Qed.

Lemma loss_factors_table sl rows s rs :
  species_rows sl = Ok rows →
  ∀ todo l tb,
    loss_factors sl s rs todo l tb
    = (l +:+ join (map (λ x, factors (str (length sl + 1)) rows x
                               (appearances s rs x)) todo),
       tb + sum_list_with
              (λ x, own s x + appearances s rs x
                              * length (references (str (length sl + 1)) rows x))
              todo).
Proof.
  intros Hrows. induction todo as [|x todo IH]; intros l tb.
  - simpl. by rewrite append_nil_r, Nat.add_0_r.
  - cbn [loss_factors map join foldr sum_list_with].
    destruct (decide (x = s)) as [Hx|Hx].
    + assert (own s x = 1) as Hown
        by (unfold own; by rewrite bool_decide_eq_true_2).
      assert (appearances s rs x = count x rs - 1) as Happ
        by (unfold appearances; by rewrite Hown).
      rewrite bool_decide_eq_true_2 by done.
      rewrite (abundance_factors_table _ _ _ _ Hrows), IH, Hown, Happ. f_equal.
      * by rewrite append_assoc.
      * lia.
    + assert (own s x = 0) as Hown
        by (unfold own; by rewrite bool_decide_eq_false_2).
      assert (appearances s rs x = count x rs) as Happ
        by (unfold appearances; rewrite Hown; lia).
      rewrite bool_decide_eq_false_2 by done.
      rewrite (abundance_factors_table _ _ _ _ Hrows), IH, Hown, Happ. f_equal.
      * by rewrite append_assoc.
      * lia.
Qed.

Lemma form_factors_table sl rows rs :
  species_rows sl = Ok rows →
  ∀ todo f tb,
    form_factors sl rs todo f tb
    = (f +:+ join (map (λ x, factors (str (length sl + 1)) rows x (count x rs))
                     todo),
       tb + sum_list_with
              (λ x, count x rs * length (references (str (length sl + 1)) rows x))
              todo).
Proof.
  intros Hrows. induction todo as [|x todo IH]; intros f tb.
  - simpl. by rewrite append_nil_r, Nat.add_0_r.
  - cbn [form_factors map join foldr sum_list_with].
    rewrite (abundance_factors_table _ _ _ _ Hrows), IH. f_equal.
    + by rewrite append_assoc.
    + lia.
Qed.

Lemma H_index_first sl h :
  H_index sl = Ok h → head (positions "H" 0 sl) = Some h.
Proof.
  unfold H_index. destruct (list_find _ sl) as [[k sp]|] eqn:E; [|discriminate].
  intros [= <-]. apply list_find_Some in E as (Hk & Hname & Hfirst).
  assert (∀ l j k sp, l !! k = Some sp → name sp = "H" →
            (∀ i y, l !! i = Some y → i < k → name y ≠ "H") →
            head (positions "H" j l) = Some (j + k)) as Hgen.
  { clear. induction l as [|y l IH]; intros j k sp Hk Hn Hf; [by destruct k|].
    simpl. destruct k as [|k]; simpl in Hk.
    - injection Hk as ->. rewrite bool_decide_eq_true_2 by done.
      simpl. f_equal. lia.
    - rewrite bool_decide_eq_false_2.
      + rewrite (IH (S j) k sp Hk Hn); [f_equal; lia|].
        intros i z Hi Hlt. apply (Hf (S i) z Hi). lia.
      + intros Hy. apply (Hf 0 y eq_refl); [lia|done]. }
  apply (Hgen sl 0 k sp Hk Hname Hfirst).
Qed.

Lemma reaction_terms_table set_iter sl rows sp i r l f l' f' :
  species_rows sl = Ok rows →
  reaction_terms set_iter sl sp i r l f = Ok (l', f') →
  ∃ tl tp,
    l' = l +:+ tl ∧ f' = f +:+ tp
    ∧ loss_term set_iter (str (length sl + 1)) rows (name sp) i r tl
    ∧ prod_term set_iter (str (length sl + 1)) rows (name sp) i r tp.
Proof.
  intros Hrows. unfold reaction_terms, loss_term, prod_term.
  destruct (mem (name sp) (reactants r)) eqn:Hin;
    destruct (is_H2_formation (reactants r) (products r)) eqn:Hform;
    cbn [andb].
  - intros [= <- <-]. eexists _, "". split_and!; [reflexivity| |reflexivity..].
    by rewrite append_nil_r.
  - rewrite (loss_factors_table _ _ _ _ Hrows). cbn [Nat.add].
    rewrite append_density. fold (loss_bodies set_iter (str (length sl + 1)) rows
                                    (name sp) (reactants r)).
    destruct (mem (name sp) (products r)) eqn:Hout.
    + rewrite (form_factors_table _ _ _ Hrows), append_density.
      fold (prod_bodies set_iter (str (length sl + 1)) rows (reactants r)).
      intros [= <- <-]. eexists _, _.
      split_and!; [| |reflexivity..]; by rewrite ?append_assoc.
    + intros [= <- <-]. eexists _, "".
      split_and!; [|by rewrite append_nil_r|reflexivity..].
      by rewrite ?append_assoc.
  - destruct (mem (name sp) (products r)) eqn:Hout.
    + intros (h & Hh & [= <- <-])%bind_Ok. eexists "", _.
      split_and!; [by rewrite append_nil_r| |reflexivity|].
      * rewrite ?append_assoc. reflexivity.
      * exists h. split; [|reflexivity].
        rewrite (rows_named_positions "H" sl rows 0 Hrows).
        by apply H_index_first.
    + intros [= <- <-]. exists "", "". by rewrite !append_nil_r.
  - destruct (mem (name sp) (products r)) eqn:Hout.
    + rewrite (form_factors_table _ _ _ Hrows), append_density.
      fold (prod_bodies set_iter (str (length sl + 1)) rows (reactants r)).
      intros [= <- <-]. eexists "", _.
      split_and!; [by rewrite append_nil_r| |reflexivity..].
      by rewrite ?append_assoc.
    + intros [= <- <-]. exists "", "". by rewrite !append_nil_r.
Qed.

Lemma reaction_loop_table set_iter sl rows sp :
  species_rows sl = Ok rows →
  ∀ rl i l f l' f',
    reaction_loop set_iter sl sp i rl l f = Ok (l', f') →
    ∃ ls ps,
      l' = l +:+ join ls ∧ f' = f +:+ join ps
      ∧ length ls = length rl ∧ length ps = length rl
      ∧ ∀ k r, rl !! k = Some r →
          ∃ tl tp, ls !! k = Some tl ∧ ps !! k = Some tp
            ∧ loss_term set_iter (str (length sl + 1)) rows (name sp) (i + k) r tl
            ∧ prod_term set_iter (str (length sl + 1)) rows (name sp) (i + k) r tp.
Proof.
  intros Hrows. induction rl as [|r rl IH]; intros i l f l' f' H; simpl in H.
  - injection H as <- <-. exists [], []. rewrite !append_nil_r.
    split_and!; try reflexivity. intros k r Hk. by destruct k.
  - apply bind_Ok in H as ([l1 f1] & Hterm & H).
    destruct (reaction_terms_table _ _ _ _ _ _ _ _ _ _ Hrows Hterm)
      as (tl & tp & -> & -> & Htl & Htp).
    destruct (IH _ _ _ _ _ H) as (ls & ps & -> & -> & Hlen1 & Hlen2 & Hnth).
    exists (tl :: ls), (tp :: ps). cbn [join foldr length].
    split_and!; [by rewrite append_assoc | by rewrite append_assoc
                | by rewrite Hlen1 | by rewrite Hlen2 |].
    intros [|k] r' Hk; simpl in Hk.
    + injection Hk as <-. exists tl, tp. by rewrite Nat.add_0_r.
    + destruct (Hnth k r' Hk) as (tl' & tp' & ? & ? & ? & ?).
      exists tl', tp'. replace (i + S k) with (S i + k) by lia. done.
Qed.

Lemma statement_line fuel lhs rhs line :
  lhs ≠ "" → (∀ c, c ∈ chars lhs → is_operator c = false) →
  (if bool_decide (rhs ≠ "")
   then truncate_line fuel (lhs +:+ rhs +:+ nl) "F90" None
   else Ok rhs) = Ok line →
  statement fuel lhs rhs line ∧ (line = "" ↔ rhs = "").
Proof.
  intros Hlhs0 Hlhs H. unfold statement.
  destruct (decide (rhs = "")) as [->|Hne].
  - rewrite bool_decide_eq_false_2 in H by (intros ?; done).
    injection H as <-. by rewrite bool_decide_eq_true_2.
  - rewrite bool_decide_eq_true_2 in H by done.
    rewrite bool_decide_eq_false_2 by done. split; [done|].
    split; [|done]. intros ->.
    apply truncate_line_begins in H as [t Ht]; [| done |].
    + destruct lhs; [done|]. rewrite append_cons in Ht. discriminate.
    + destruct rhs; [done|discriminate].
Qed.

Lemma ydot_statement_derivative n f l prod loss :
  (f = "" ↔ prod = "") → (l = "" ↔ loss = "") →
  ydot_statement n f l = derivative n prod loss.
Proof.
  intros Hf Hl. unfold ydot_statement, derivative, abundance, Y.
  destruct (decide (prod = "")) as [Hp|Hp];
    destruct (decide (loss = "")) as [Hs|Hs].
  - rewrite (bool_decide_eq_false_2 (f ≠ "")), (bool_decide_eq_false_2 (l ≠ ""))
      by tauto.
    rewrite !(bool_decide_eq_true_2 (_ = "")) by done.
    cbn [orb]. rewrite ?append_assoc. reflexivity.
  - rewrite (bool_decide_eq_false_2 (f ≠ "")), (bool_decide_eq_true_2 (l ≠ ""))
      by tauto.
    rewrite (bool_decide_eq_true_2 (prod = "")),
      (bool_decide_eq_false_2 (loss = "")) by done.
    cbn [orb]. rewrite ?append_assoc. reflexivity.
  - rewrite (bool_decide_eq_true_2 (f ≠ "")), (bool_decide_eq_false_2 (l ≠ ""))
      by tauto.
    rewrite (bool_decide_eq_false_2 (prod = "")),
      (bool_decide_eq_true_2 (loss = "")) by done.
    cbn [orb]. rewrite ?append_assoc. reflexivity.
  - rewrite (bool_decide_eq_true_2 (f ≠ "")), (bool_decide_eq_true_2 (l ≠ ""))
      by tauto.
    rewrite (bool_decide_eq_false_2 (prod = "")),
      (bool_decide_eq_false_2 (loss = "")) by done.
    cbn [orb]. rewrite ?append_assoc. reflexivity.
Qed.

Lemma species_block_table set_iter fuel sl rows rl n sp b :
  species_rows sl = Ok rows →
  species_block set_iter fuel sl rl n sp = Ok b →
  ∃ ls ps lossLine prodLine ydotLine,
    b = lossLine +:+ prodLine +:+ ydotLine
    ∧ terms (loss_term set_iter (str (length sl + 1)) rows (name sp)) rl ls
    ∧ terms (prod_term set_iter (str (length sl + 1)) rows (name sp)) rl ps
    ∧ statement fuel "      LOSS = " (join ls) lossLine
    ∧ statement fuel "      PROD = " (join ps) prodLine
    ∧ truncate_line fuel (derivative n (join ps) (join ls)) "F90" None
      = Ok ydotLine
    ∧ begins ("      YDOT(" +:+ str (n + 1) +:+ ") = ") ydotLine.
Proof.
  intros Hrows H. unfold species_block in H.
  apply bind_Ok in H as ([l0 f0] & Hloop & H).
  apply bind_Ok in H as (l1 & Hl1 & H). apply bind_Ok in H as (f1 & Hf1 & H).
  apply bind_Ok in H as (y & Hy & H). injection H as <-.
  destruct (reaction_loop_table _ _ _ _ Hrows _ _ _ _ _ _ Hloop)
    as (ls & ps & -> & -> & Hlen1 & Hlen2 & Hnth).
  change ("" +:+ join ls) with (join ls) in *.
  change ("" +:+ join ps) with (join ps) in *.
  apply statement_line in Hl1 as [Hl1 Hl1e]; [|done|no_operator].
  apply statement_line in Hf1 as [Hf1 Hf1e]; [|done|no_operator].
  exists ls, ps, l1, f1, y. split_and!; [reflexivity| | |done|done| |].
  - split; [done|]. intros i r Hi.
    destruct (Hnth i r Hi) as (tl & tp & ? & ? & ? & ?). eauto.
  - split; [done|]. intros i r Hi.
    destruct (Hnth i r Hi) as (tl & tp & ? & ? & ? & ?). eauto.
  - by rewrite <-(ydot_statement_derivative n f1 l1).
  - destruct (ydot_statement_shape n f1 l1) as (rest & Hrest & Heq).
    rewrite Heq in Hy. apply truncate_line_begins in Hy; [done| |done].
    intros c. apply lhs_no_operator; no_operator.
Qed.

Lemma last_char_ends x c :
  last_char x = Ok c → ∀ d, ends_with d x = bool_decide (c = d).
Proof.
  unfold last_char, ends_with. destruct (last (chars x)) as [c'|]; [|discriminate].
  intros [= ->] d. apply bool_decide_ext. naive_solver.
Qed.

Lemma abundance_text n : abundance n ≠ "".
Proof. discriminate. Qed.

Lemma electron_terms_table : ∀ sl n acc r,
  electron_terms n sl acc = Ok r →
  r = acc +:+ join (imap (λ k x,
                      ion_term (bool_decide (acc ≠ "")
                                || existsb charged (take k (map name sl)))
                        (n + k) x) (map name sl)).
Proof.
  induction sl as [|sp sl IH]; intros n acc r H; simpl in H.
  - injection H as <-. simpl. by rewrite append_nil_r.
  - apply bind_Ok in H as (c & Hc & H).
    pose proof (last_char_ends _ _ Hc) as Hends.
    apply IH in H. rewrite H. clear H IH.
    cbn [map imap join foldr take existsb]. rewrite orb_false_r, Nat.add_0_r.
    set (written := bool_decide (acc ≠ "")).
    assert ((if 0 <? String.length acc then true else false) = written) as Hlen.
    { unfold written. destruct acc; [reflexivity|].
      by rewrite bool_decide_eq_true_2. }
    assert (∀ e, bool_decide (e ≠ "") = written || charged (name sp) →
      imap (λ k x, ion_term (bool_decide (e ≠ "")
                             || existsb charged (take k (map name sl)))
                     (S n + k) x) (map name sl)
      = imap ((λ k x, ion_term (written
                                || existsb charged
                                     (take k (name sp :: map name sl)))
                        (n + k) x) ∘ S) (map name sl)) as Htail.
    { intros e He. apply imap_ext. intros k x _. unfold compose.
      cbn [take existsb]. rewrite He, orb_assoc.
      by replace (n + S k) with (S n + k) by lia. }
    assert (charged (name sp)
            = bool_decide (c = "+"%char) || bool_decide (c = "-"%char)) as Hch
      by (unfold charged; by rewrite !Hends).
    rewrite Hch in Htail. unfold ion_term at 2. rewrite !Hends.
    destruct (decide (c = "+"%char)) as [->|Hp].
    + rewrite (bool_decide_eq_true_2 ("+"%char = "+"%char)) in * by done.
      rewrite (bool_decide_eq_false_2 ("+"%char = "-"%char)) in * by done.
      rewrite Htail.
      * unfold join. rewrite <-(append_assoc acc). f_equal.
        rewrite <-Hlen. unfold abundance, Y.
        destruct (0 <? String.length acc);
          [by rewrite !append_assoc | reflexivity].
      * rewrite orb_true_r. apply bool_decide_eq_true_2. unfold Y.
        destruct (0 <? String.length acc), acc; discriminate.
    + rewrite (bool_decide_eq_false_2 (c = "+"%char)) in * by done.
      destruct (decide (c = "-"%char)) as [->|Hm].
      * rewrite (bool_decide_eq_true_2 ("-"%char = "-"%char)) in * by done.
        rewrite Htail.
        -- unfold join. rewrite <-(append_assoc acc). f_equal.
           rewrite <-Hlen. unfold abundance, Y.
           destruct (0 <? String.length acc);
             [by rewrite !append_assoc | reflexivity].
        -- rewrite orb_true_r. apply bool_decide_eq_true_2. unfold Y.
           destruct (0 <? String.length acc), acc; discriminate.
      * rewrite (bool_decide_eq_false_2 (c = "-"%char)) in * by done.
        rewrite Htail; [reflexivity|]. by rewrite !orb_false_r.
Qed.

Lemma electron_eq_table fuel sl rows e :
  species_rows sl = Ok rows →
  electron_eq fuel sl "F90" = Ok e →
  truncate_line fuel
    ("      Y(" +:+ str (length sl + 1) +:+ ") = "
     +:+ electron_rhs (table_names rows) +:+ nl) "F90" None = Ok e.
Proof.
  intros Hrows. unfold electron_eq. intros H.
  apply bind_Ok in H as (t & Ht & H).
  rewrite (bool_decide_eq_false_2 ("F90" = "C")),
    (bool_decide_eq_true_2 ("F90" = "F90")),
    (bool_decide_eq_false_2 ("F90" = "F77")) in H by done.
  apply electron_terms_table in Ht. cbn [bool_decide orb] in Ht.
  rewrite (table_names_rows _ _ Hrows). unfold electron_rhs.
  rewrite bool_decide_eq_false_2 in Ht by (intros ?; done).
  change ("" +:+ ?x) with x in Ht. cbn [orb Nat.add] in Ht. rewrite <-Ht.
  rewrite <-H. unfold Y. destruct t as [|a t].
  - rewrite bool_decide_eq_true_2 by done. simpl. f_equal.
    by rewrite !append_assoc.
  - rewrite bool_decide_eq_false_2 by discriminate. simpl. f_equal.
    by rewrite !append_assoc.
Qed.

(** C10: the species table and the generated code number the species
    alike.  The count line of the table is the number of species plus
    one.  Row [n] of the table (counted from 0) holds the name, mass and
    atom count of the species at place [n] of the list.  The code is the
    electron statement, an empty line and one block for each row.  The
    electron statement assigns the slot numbered by the count line, and
    its terms are the abundances [Y(n+1)] of the rows [n] that hold a
    charged name.  The block of row [n] holds the loss and the production
    of the species on that row and the statement that assigns [YDOT(n+1)]
    from [PROD] and [Y(n+1)*LOSS]; in the loss and the production every
    reactant is written as [Y(k+1)] for the rows [k] that hold its name,
    the electron as the slot numbered by the count line, and hydrogen in
    the fixed form as the first row that holds the name H.  Every term is
    fixed by the rows of the table and the reaction, so the code holds no
    other reference to an abundance. *)
Theorem C10_rows_match_indices
    (set_iter : list string → list string) (fuel : nat)
    (speciesList : list Species) (reactionList : list Reaction)
    (tbl : table) (out : string) :
  write_species speciesList = Ok tbl →
  write_odes_f90 set_iter fuel speciesList reactionList = Ok out →
  tbl.1 = str (length speciesList + 1) +:+ nl
  ∧ length tbl.2 = length speciesList
  ∧ (∀ x k, k ∈ rows_named x 0 tbl.2
            ↔ ∃ r, tbl.2 !! k = Some r ∧ row_name r = Some x)
  ∧ ∃ e blocks,
      out = e +:+ nl +:+ join blocks
      ∧ truncate_line fuel
          ("      Y(" +:+ str (length speciesList + 1) +:+ ") = "
           +:+ electron_rhs (table_names tbl.2) +:+ nl) "F90" None = Ok e
      ∧ begins ("      Y(" +:+ str (length speciesList + 1) +:+ ") = ") e
      ∧ length blocks = length speciesList
      ∧ ∀ n sp, speciesList !! n = Some sp →
          (∃ k, n_atoms sp = Some k
                ∧ tbl.2 !! n
                  = Some [VStr (name sp); VStr (mass sp); VInt (Z.of_nat k)])
          ∧ ∃ ls ps lossLine prodLine ydotLine,
              blocks !! n = Some (lossLine +:+ prodLine +:+ ydotLine)
              ∧ terms (loss_term set_iter (str (length speciesList + 1)) tbl.2
                         (name sp)) reactionList ls
              ∧ terms (prod_term set_iter (str (length speciesList + 1)) tbl.2
                         (name sp)) reactionList ps
              ∧ statement fuel "      LOSS = " (join ls) lossLine
              ∧ statement fuel "      PROD = " (join ps) prodLine
              ∧ truncate_line fuel (derivative n (join ps) (join ls)) "F90" None
                = Ok ydotLine
              ∧ begins ("      YDOT(" +:+ str (n + 1) +:+ ") = ") ydotLine.
Proof.
  intros Htbl Hout. unfold write_species in Htbl.
  apply bind_Ok in Htbl as (rows & Hrows & Htbl). injection Htbl as <-.
  destruct (species_rows_nth _ _ Hrows) as [Hlen Hnth].
  unfold write_odes_f90 in Hout.
  apply bind_Ok in Hout as (e & He & Hout).
  apply bind_Ok in Hout as (blocks & Hblocks & Hout). injection Hout as <-.
  destruct (species_loop_blocks _ _ _ _ _ _ _ Hblocks) as [Hblen Hbnth].
  cbn [fst snd]. split_and!; [reflexivity | exact Hlen | |].
  - intros x k. rewrite rows_named_rows, Nat.sub_0_r. split; [tauto|].
    intros ?. split; [lia|done].
  - exists e, blocks.
    split_and!; [reflexivity | by apply electron_eq_table
                | by apply electron_eq_begins with fuel | exact Hblen |].
    intros n sp Hn. split; [by apply Hnth|].
    destruct (Hbnth n sp Hn) as (b & Hb & Hblock). simpl in Hblock.
    destruct (species_block_table _ _ _ _ _ _ _ _ Hrows Hblock)
      as (ls & ps & l1 & f1 & y & -> & ?).
    exists ls, ps, l1, f1, y. split; [exact Hb|done].
Qed.

(** C10, on the network of C, O and CO with the reaction of C and O. *)
Lemma C10_rows_witness :
  analysed_CO_table.1 = str (length analysed_CO + 1) +:+ nl
  ∧ length analysed_CO_table.2 = length analysed_CO.
Proof.
  pose proof (C10_rows_match_indices first_seen 100 analysed_CO [two_body]
                analysed_CO_table analysed_CO_odes
                ltac:(vm_compute; reflexivity) ltac:(vm_compute; reflexivity))
    as (H1 & H2 & _).
  exact (conj H1 H2).
Defined.

(** * Further properties of the code *)

(** ** The readers *)

(** X1: when [read_species_file] succeeds, the species are the rows
    whose first cell is not NAME, in the order of the file, each made of
    the first seven cells of its row; a header is skipped wherever it
    stands. *)
Theorem read_species_file_skips_headers (rows : list row) (l : list Species) :
  read_species_file rows = Ok l →
  l = map row_species (filter (λ r, r !! 0 ≠ Some "NAME") rows).
Proof.
  revert l. induction rows as [|r rows IH]; intros l H; simpl in H.
  - by injection H as <-.
  - apply bind_Ok in H as (r0 & Hr0%item_Ok & H). case_bool_decide as Hn.
    + apply bind_Ok in H as (sp & Hsp & H).
      destruct (read_species_file rows) as [l0| |]; try discriminate.
      injection H as <-.
      rewrite filter_cons_True
        by (intros E; assert (Some r0 = Some "NAME") by (rewrite <-Hr0; exact E);
            congruence).
      simpl. f_equal; [|by apply IH].
      unfold Species_init in Hsp.
      repeat (apply bind_Ok in Hsp as (? & ?%item_Ok & Hsp)).
      injection Hsp as <-. unfold row_species.
      do 7 (destruct r as [|? r]; simplify_eq/=). reflexivity.
    + rewrite filter_cons_False; [by apply IH|].
      intros Hne. apply Hne. destruct (decide (r0 = "NAME")) as [->|]; [|done].
      exact Hr0.
Qed.

Lemma read_species_file_witness :
  [mkSpecies "H" "1" "0" "0" "0" "0" "0" None]
  = map row_species
      (filter (λ r, r !! 0 ≠ Some "NAME")
         [["NAME"; "MASS"]; long_species_row; ["NAME"]]).
Proof.
  apply (read_species_file_skips_headers
           [["NAME"; "MASS"]; long_species_row; ["NAME"]]).
  vm_compute. reflexivity.
Defined.

(** X2: every reaction that [read_reaction_file] returns has three
    reactant slots and four product slots; its third reactant and its
    second to fourth products are never empty.  From a UCL file the
    temperature range is 0.0 to 10000.0 whatever the row says; from a
    UMIST file the third reactant is NAN. *)
Theorem read_reaction_file_shape
    (rows : list row) (speciesList : list Species) (ftype : string)
    (reactionList : list Reaction) (rc : Reaction) :
  read_reaction_file rows speciesList ftype = Ok reactionList →
  rc ∈ reactionList →
  length (reactants rc) = 3 ∧ length (products rc) = 4
  ∧ ("" ∉ drop 2 (reactants rc)) ∧ ("" ∉ drop 1 (products rc))
  ∧ (ftype = "UCL" → templow rc = VFloat 0 ∧ temphigh rc = VFloat 10000)
  ∧ (ftype = "UMIST" → reactants rc !! 2 = Some "NAN").
Proof.
  unfold read_reaction_file. intros H Hrc.
  assert (∀ r0 r1 r2 r3 r4 r5 r6,
            ("" ∉ drop 2 [r0; r1; NANCheck r2])
            ∧ ("" ∉ drop 1 [r3; NANCheck r4; NANCheck r5; NANCheck r6])) as Hnan.
  { intros. simpl. rewrite !not_elem_of_cons.
    pose proof NANCheck_non_empty. split_and!; try apply not_elem_of_nil;
      intros E; symmetry in E; by eapply NANCheck_non_empty. }
  repeat case_bool_decide; subst.
  - destruct (read_rows_elem _ _ _ _ H Hrc) as (r & _ & Hr).
    unfold umist_row in Hr.
    repeat (apply bind_Ok in Hr as (? & ?%item_Ok & Hr)).
    destruct (all_in _ _); [|discriminate].
    destruct (Reaction_init _) as [rc0| |] eqn:Hrc0; [|discriminate..].
    injection Hr as <-.
    pose proof Hrc0 as
      (r0 & r1 & r2 & r3 & r4 & r5 & r6 & Hs & Hre & Hpr)%Reaction_init_shape.
    rewrite Hre, Hpr. destruct (Hnan r0 r1 r2 r3 r4 r5 r6).
    split_and!; auto; [discriminate|]. intros _.
    do 8 (destruct r as [|? r]; [discriminate|]).
    change (slice 0 7 _) with [s1; s2; ""; s3; s4; s5; s6] in Hs.
    by injection Hs as _ _ <- _ _ _ _.
  - destruct (read_rows_elem _ _ _ _ H Hrc) as (r & _ & Hr).
    unfold ucl_row in Hr. destruct (all_in _ _); [|discriminate].
    apply bind_Ok in Hr as (? & _ & Hr). apply bind_Ok in Hr as (? & _ & Hr).
    apply bind_Ok in Hr as (rc0 & Hrc0 & Hr). injection Hr as <-. simpl.
    pose proof Hrc0 as
      (r0 & r1 & r2 & r3 & r4 & r5 & r6 & Hs & Hre & Hpr)%Reaction_init_shape.
    rewrite Hre, Hpr. destruct (Hnan r0 r1 r2 r3 r4 r5 r6).
    split_and!; auto. discriminate.
  - injection H as <-. inversion Hrc.
Qed.

Lemma read_reaction_file_shape_witness :
  length (reactants formation) = 3 ∧ length (products formation) = 4.
Proof.
  pose proof (read_reaction_file_shape [row_H_H_H2]
                [species "H" "1"; species "H2" "2"] "UCL" [formation] formation
                ltac:(vm_compute; reflexivity) ltac:(left)) as (H1 & H2 & _).
  exact (conj H1 H2).
Defined.

(** ** filter_species *)

Lemma orphan_loop_removed rl fuel : ∀ idx l lost l' lost',
  orphan_loop fuel idx rl l lost = Ok (l', lost') →
  l' `sublist_of` l
  ∧ ∃ removed, lost' = lost ++ removed
      ∧ length l = length l' + length removed
      ∧ ∀ n, n ∈ removed → used rl n = false ∧ n ∈ map name l.
Proof.
  induction fuel as [|fuel IH]; intros idx l lost l' lost'; simpl;
    destruct (l !! idx) as [sp|] eqn:E; try discriminate;
    try (intros [= <- <-]; split; [done|]; exists []; rewrite app_nil_r;
         split_and!; [done | simpl; lia | intros n Hn; inversion Hn]).
  destruct (keepFlag rl sp) eqn:K; intros H; [by eapply IH|].
  apply IH in H as (Hsub & removed & -> & Hlen & Hun). split.
  - etrans; [exact Hsub | apply sublist_delete].
  - exists (name sp :: removed). split_and!.
    + by rewrite <-app_assoc.
    + rewrite length_delete in Hlen by eauto. simpl.
      apply lookup_lt_Some in E. lia.
    + intros n [->|Hn]%elem_of_cons.
      * split; [exact K|]. apply list_elem_of_fmap. exists sp.
        split; [done|]. by apply list_elem_of_lookup_2 with idx.
      * destruct (Hun n Hn) as [? Hin]. split; [done|].
        apply list_elem_of_fmap in Hin as (sp' & -> & Hsp').
        apply list_elem_of_fmap. exists sp'. split; [done|].
        by apply list_elem_of_delete_inv with idx.
Qed.

Lemma remove_one_sublist d : ∀ l l',
  remove_one d l = Ok l' → l' `sublist_of` l ∧ length l = S (length l').
Proof.
  induction l as [|sp l IH]; intros l' H; simpl in H; [discriminate|].
  case_bool_decide.
  - injection H as <-. split; [by apply sublist_cons | reflexivity].
  - destruct (remove_one d l) as [l0| |]; try discriminate. injection H as <-.
    destruct (IH l0 eq_refl) as [Hsub Hlen].
    split; [by apply sublist_skip | simpl; lia].
Qed.

Lemma remove_duplicates_sublist : ∀ dl l out l' out',
  remove_duplicates dl l out = Ok (l', out') →
  l' `sublist_of` l ∧ length l = length l' + length dl.
Proof.
  induction dl as [|d dl IH]; intros l out l' out' H; simpl in H.
  - injection H as <- _. split; [done | simpl; lia].
  - apply bind_Ok in H as (l1 & [Hs1 Hl1]%remove_one_sublist & H).
    apply IH in H as [Hs Hl]. split; [by etrans | simpl; lia].
Qed.

(** X3: [filter_species] only takes species away.  The list it returns
    is the input with entries left out, in the same order; every name
    it reports as lost is the name of a species of the input that no
    reaction uses; and the entries left out are as many as the names
    reported lost plus the entries reported removed. *)
Theorem filter_species_only_removes
    (speciesList : list Species) (reactionList : list Reaction)
    (kept : list Species) (out : list message) :
  filter_species speciesList reactionList = Ok (kept, out) →
  kept `sublist_of` speciesList
  ∧ ∃ dl lost,
      out = map AppearsTwice dl ++ map OneEntryRemoved dl ++ [NotInFinalList lost]
      ∧ length speciesList = length kept + length dl + length lost
      ∧ ∀ n, n ∈ lost →
             used reactionList n = false ∧ n ∈ map name speciesList.
Proof.
  unfold filter_species. intros H.
  apply bind_Ok in H as ([l1 lost] & Hl1 & H).
  apply orphan_loop_removed in Hl1 as (Hs1 & removed & Hrem & Hlen1 & Hun).
  simpl in Hrem. subst lost.
  pose proof (dup_outer_spec l1) as Hdup. cbv zeta in Hdup.
  destruct (dup_outer l1 0 l1 ([], [])) as [dl out1]. simpl in Hdup.
  destruct Hdup as (-> & _ & _).
  apply bind_Ok in H as ([l2 out2] & Hl2 & H). injection H as <- <-.
  assert (out2 = map AppearsTwice dl ++ map OneEntryRemoved dl) as ->.
  { clear -Hl2. revert l1 l2 out2 Hl2. generalize (map AppearsTwice dl).
    induction dl as [|d dl IH]; intros o l1 l2 out2 H; simpl in H.
    - injection H as _ <-. by rewrite app_nil_r.
    - apply bind_Ok in H as (l & _ & H). apply IH in H as ->.
      by rewrite <-app_assoc. }
  apply remove_duplicates_sublist in Hl2 as [Hs2 Hlen2].
  split; [by etrans|]. exists dl, removed. split_and!.
  - by rewrite <-app_assoc.
  - lia.
  - exact Hun.
Qed.

Lemma filter_species_only_removes_witness :
  [species "B" "1"] `sublist_of` [species "A" "1"; species "B" "1"].
Proof.
  eapply proj1.
  apply (filter_species_only_removes [species "A" "1"; species "B" "1"] []
           [species "B" "1"] [NotInFinalList ["A"]]).
  vm_compute. reflexivity.
Defined.

Lemma orphan_loop_all_used rl fuel : ∀ idx l lost,
  (∀ sp, sp ∈ l → keepFlag rl sp = true) → length l ≤ idx + fuel →
  orphan_loop fuel idx rl l lost = Ok (l, lost).
Proof.
  induction fuel as [|fuel IH]; intros idx l lost Hall Hlen; simpl.
  - by rewrite (proj2 (lookup_ge_None l idx)) by lia.
  - destruct (l !! idx) as [sp|] eqn:E; [|done].
    rewrite (Hall sp) by (by apply list_elem_of_lookup_2 with idx).
    apply IH; [done | lia].
Qed.

Lemma occurrences_NoDup n : ∀ l, NoDup (map name l) → occurrences n l ≤ 1.
Proof.
  induction l as [|sp l IH]; intros Hnd; [unfold occurrences; simpl; lia|].
  simpl in Hnd. apply NoDup_cons in Hnd as [Hsp Hnd].
  rewrite occurrences_cons. case_bool_decide; [|by apply IH].
  subst n. assert (¬ 1 ≤ occurrences (name sp) l); [|lia].
  by rewrite occurrences_names.
Qed.

(** X4: on a list whose names are all different and all used by some
    reaction, [filter_species] changes nothing and reports nothing but
    an empty list of lost species. *)
Theorem filter_species_clean
    (speciesList : list Species) (reactionList : list Reaction) :
  NoDup (map name speciesList) →
  (∀ sp, sp ∈ speciesList → used reactionList (name sp) = true) →
  filter_species speciesList reactionList
  = Ok (speciesList, [NotInFinalList []]).
Proof.
  intros Hnd Hused. unfold filter_species.
  rewrite orphan_loop_all_used by (auto; lia). cbn [mbind outcome_bind].
  pose proof (dup_outer_spec speciesList) as Hdup. cbv zeta in Hdup.
  destruct (dup_outer speciesList 0 speciesList ([], [])) as [dl out].
  simpl in Hdup. destruct Hdup as (-> & _ & Hin).
  destruct dl as [|d dl]; [reflexivity|].
  pose proof (proj1 (Hin d) ltac:(left)).
  pose proof (occurrences_NoDup d speciesList Hnd). lia.
Qed.

Lemma filter_species_clean_witness :
  filter_species [species "H" "1"; species "H2" "2"] [formation]
  = Ok ([species "H" "1"; species "H2" "2"], [NotInFinalList []]).
Proof.
  apply filter_species_clean.
  - apply (bool_decide_unpack _). vm_compute. exact I.
  - intros sp Hsp. repeat (apply elem_of_cons in Hsp as [->|Hsp]);
      [reflexivity..|inversion Hsp].
Defined.

(** ** find_constituents *)

(** A pass of the scan either leaves the diagnostics alone, or prints one
    and leaves the scan where every later pass does the same. *)
Lemma scan_step_out speciesName st st' :
  scan_step speciesName st = Ok st' →
  sc_out st' = sc_out st
  ∨ (sc_i st' = sc_i st
     ∧ ∀ out, scan_step speciesName
                (mkScan (sc_i st') (sc_j st') (sc_atoms st') out)
              = Ok (mkScan (sc_i st') (sc_j st') (sc_atoms st')
                      (out ++ [NotInElementList speciesName elementList]))).
Proof.
  unfold scan_step. destruct st as [i j atoms out0]. cbn [sc_i sc_j sc_atoms sc_out].
  destruct (negb (mem (String.substring i 1 speciesName) symbols)) eqn:Es;
    [|intros [= <-]; by left].
  destruct (i + 1 <? String.length speciesName) eqn:E1;
    destruct (mem (String.substring i 2 speciesName) elementList) eqn:E2;
    destruct (mem (String.substring i 1 speciesName) elementList) eqn:E3;
    try (assert ((i <? i + 2) = true) as -> by (apply Nat.ltb_lt; lia));
    try (assert ((i <? i + 1) = true) as -> by (apply Nat.ltb_lt; lia));
    try (intros H; left;
         repeat match type of H with
                | (if ?b then _ else _) = _ => destruct b
                | match ?o with _ => _ end = _ => destruct o
                end; by injection H as <-);
    (destruct j as [jv|]; [|discriminate]);
    (destruct (i <? jv) eqn:Ej;
     [intros H; left;
      repeat match type of H with
             | (if ?b then _ else _) = _ => destruct b
             | match ?o with _ => _ end = _ => destruct o
             end; by injection H as <-|]);
    intros [= <-]; right; cbn [sc_i sc_j sc_atoms sc_out];
    (split; [reflexivity|]); intros out; by rewrite ?Es, ?E1, ?E2, ?E3, ?Ej.
Qed.

Lemma scan_loop_never_leaves speciesName i j atoms :
  i < String.length speciesName →
  (∀ out, scan_step speciesName (mkScan i j atoms out)
          = Ok (mkScan i j atoms
                  (out ++ [NotInElementList speciesName elementList]))) →
  ∀ fuel out, scan_loop fuel speciesName (mkScan i j atoms out) = OutOfFuel.
Proof.
  intros Hi Hstep. induction fuel as [|fuel IH]; intros out;
    cbn [scan_loop sc_i]; rewrite (proj2 (Nat.ltb_lt _ _) Hi); [reflexivity|].
  rewrite Hstep. apply IH.
Qed.

(** A scan that ends has printed nothing. *)
Lemma scan_loop_out speciesName : ∀ fuel st st',
  scan_loop fuel speciesName st = Ok st' → sc_out st' = sc_out st.
Proof.
  induction fuel as [|fuel IH]; intros st st' H; cbn [scan_loop] in H;
    destruct (sc_i st <? String.length speciesName) eqn:Ei;
    try discriminate; try (by injection H as <-).
  apply bind_Ok in H as (st1 & Hstep & H).
  destruct (scan_step_out _ _ _ Hstep) as [Hout|[Hi Hstuck]].
  - rewrite <-Hout. by apply IH.
  - destruct st1 as [i1 j1 a1 o1]. simpl in Hi, Hstuck.
    rewrite scan_loop_never_leaves in H; [discriminate | | exact Hstuck].
    rewrite Hi. by apply Nat.ltb_lt.
Qed.

Lemma find_loop_frame mass_differs fuel : ∀ l j out l' out',
  find_loop mass_differs fuel l j out = Ok (l', out') →
  Forall2 analysed_as l l'
  ∧ (Forall is_mass_mismatch out → Forall is_mass_mismatch out').
Proof.
  induction l as [|sp l IH]; intros j out l' out' H; simpl in H.
  - injection H as <- <-. split; [constructor | done].
  - apply bind_Ok in H as (st & Hst & H).
    apply bind_Ok in H as (m & _ & H). apply bind_Ok in H as (differs & _ & H).
    apply bind_Ok in H as ([rest out1] & Hrest & H). injection H as <- <-.
    apply scan_loop_out in Hst. simpl in Hst.
    apply IH in Hrest as [HF Hout]. split.
    + constructor; [by eexists | exact HF].
    + intros Hall. apply Hout. rewrite Hst. destruct differs; [|done].
      apply Forall_app. split; [done|]. constructor; [|done]. by eexists _, _, _.
Qed.

(** X5: when [find_constituents] returns, it returns the species in the
    same order with every declared field as it was, the mass included,
    and an atom count on each; and every diagnostic it has printed is a
    mass mismatch: after the diagnostic for a segment that is no element
    the function does not return. *)
Theorem find_constituents_sets_atom_count_only
    (mass_differs : Z → string → outcome bool) (fuel : nat)
    (speciesList analysedList : list Species) (out : list diagnostic) :
  find_constituents mass_differs fuel speciesList = Ok (analysedList, out) →
  Forall2 analysed_as speciesList analysedList
  ∧ Forall is_mass_mismatch out.
Proof.
  unfold find_constituents. intros [HF Hout]%find_loop_frame.
  split; [exact HF | by apply Hout].
Qed.

Lemma find_constituents_witness :
  Forall2 analysed_as [species "H2O" "18"; species "#CO" "29"]
    [mkSpecies "H2O" "18" "0" "0" "0" "0" "0" (Some 3);
     mkSpecies "#CO" "29" "0" "0" "0" "0" "0" (Some 2)].
Proof.
  eapply proj1.
  apply (find_constituents_sets_atom_count_only
           (λ m t, Ok (negb (String.eqb (str (Z.to_nat m)) t))) 10
           [species "H2O" "18"; species "#CO" "29"] _
           [MassMismatch "#CO" 28 "29"]).
  vm_compute. reflexivity.
Defined.

Lemma species_rows_analysed : ∀ l l',
  Forall2 analysed_as l l' →
  ∃ rows, species_rows l' = Ok rows
          ∧ map (take 2) rows = map (λ sp, [VStr (name sp); VStr (mass sp)]) l.
Proof.
  induction 1 as [|sp sp' l l' [k ->] _ (rows & Hrows & Hmap)]; simpl.
  - by exists [].
  - rewrite Hrows. eexists. split; [reflexivity|]. simpl. by rewrite Hmap.
Qed.

(** X6: after [find_constituents], [write_species] does not fail for a
    missing atom count: it writes the count line for the number of
    species plus one, and one row for each species, in order, that begins
    with its name and its declared mass. *)
Theorem write_species_after_find_constituents
    (mass_differs : Z → string → outcome bool) (fuel : nat)
    (speciesList analysedList : list Species) (out : list diagnostic) :
  find_constituents mass_differs fuel speciesList = Ok (analysedList, out) →
  ∃ rows,
    write_species analysedList = Ok (str (length speciesList + 1) +:+ nl, rows)
    ∧ map (take 2) rows
      = map (λ sp, [VStr (name sp); VStr (mass sp)]) speciesList.
Proof.
  unfold find_constituents. intros [HF _]%find_loop_frame.
  destruct (species_rows_analysed _ _ HF) as (rows & Hrows & Hmap).
  exists rows. unfold write_species. rewrite Hrows. split; [|exact Hmap].
  cbn [mbind outcome_bind]. by rewrite (Forall2_length _ _ _ HF).
Qed.

Lemma write_species_after_find_constituents_witness :
  ∃ rows,
    write_species [mkSpecies "H" "1" "0" "0" "0" "0" "0" (Some 1)]
    = Ok (str (length [species "H" "1"] + 1) +:+ nl, rows)
    ∧ map (take 2) rows
      = map (λ sp, [VStr (name sp); VStr (mass sp)]) [species "H" "1"].
Proof.
  apply (write_species_after_find_constituents (λ _ _, Ok false) 10
           [species "H" "1"] _ []).
  vm_compute. reflexivity.
Defined.

(** ** write_reactions *)

Lemma last_char_Ok s : s ≠ "" → ∃ c, last_char s = Ok c.
Proof.
  intros Hs. unfold last_char. destruct (last (chars s)) as [c|] eqn:E; [eauto|].
  apply last_None in E. destruct s; [done | discriminate].
Qed.

Lemma ion_freeze_cases reaction :
  (freeze_without_first reaction = false → ∃ b, ion_freeze reaction = Ok b)
  ∧ (freeze_without_first reaction = true → ion_freeze reaction = Raise IndexError).
Proof.
  unfold freeze_without_first, ion_freeze.
  destruct (mem "FREEZE" (reactants reaction)) eqn:Em; simpl;
    [|split; [eauto | discriminate]].
  destruct (reactants reaction) as [|r0 rs] eqn:Er.
  { apply bool_decide_eq_true in Em. inversion Em. }
  cbn [item lookup list_lookup mbind outcome_bind head].
  case_bool_decide as H0.
  - injection H0 as ->. split; [discriminate | reflexivity].
  - destruct (last_char_Ok r0) as [c ->]; [congruence|].
    split; [eauto | discriminate].
Qed.

Lemma write_rows_cases : ∀ rl,
  (existsb freeze_without_first rl = false → ∃ rows rl', write_rows rl = Ok (rows, rl'))
  ∧ (existsb freeze_without_first rl = true → write_rows rl = Raise IndexError).
Proof.
  induction rl as [|r rl [IHok IHno]]; simpl.
  - split; [eauto | discriminate].
  - destruct (ion_freeze_cases r) as [Hok Hno].
    destruct (freeze_without_first r); simpl.
    + rewrite Hno by done. split; [discriminate | reflexivity].
    + destruct Hok as [b ->]; [done|]. cbn [mbind outcome_bind]. split.
      * intros (rows & rl' & ->)%IHok. eauto.
      * intros ->%IHno. reflexivity.
Qed.

(** X7: [write_reactions] writes every list of reactions but one that
    holds a reaction with FREEZE among its reactants and the empty text as
    first reactant; on such a list it raises IndexError. *)
Theorem write_reactions_fails_on_nameless_freeze (reactionList : list Reaction) :
  (existsb freeze_without_first reactionList = false →
   ∃ t rl', write_reactions reactionList = Ok (t, rl'))
  ∧ (existsb freeze_without_first reactionList = true →
     write_reactions reactionList = Raise IndexError).
Proof.
  unfold write_reactions. destruct (write_rows_cases reactionList) as [Hok Hno].
  split.
  - intros (rows & rl' & ->)%Hok. eauto.
  - intros ->%Hno. reflexivity.
Qed.

Lemma ion_freeze_set_beta reaction b :
  ion_freeze (set_beta reaction b) = ion_freeze reaction.
Proof. reflexivity. Qed.

Lemma write_rows_again : ∀ rl rows rl',
  write_rows rl = Ok (rows, rl') → write_rows rl' = Ok (rows, rl').
Proof.
  induction rl as [|r rl IH]; intros rows rl' H; simpl in H.
  - by injection H as <- <-.
  - apply bind_Ok in H as (ion & Hion & H).
    apply bind_Ok in H as ([rows0 rl0] & Hrec & H). injection H as <- <-.
    simpl. destruct ion.
    + rewrite ion_freeze_set_beta, Hion. cbn [mbind outcome_bind].
      by rewrite (IH _ _ Hrec).
    + rewrite Hion. cbn [mbind outcome_bind]. by rewrite (IH _ _ Hrec).
Qed.

(** X8: writing the reaction table a second time changes nothing more:
    run on the reactions as the first run left them, [write_reactions]
    writes the same table and leaves the reactions as they are. *)
Theorem write_reactions_twice
    (reactionList reactionList' : list Reaction) (t : table) :
  write_reactions reactionList = Ok (t, reactionList') →
  write_reactions reactionList' = Ok (t, reactionList').
Proof.
  unfold write_reactions. intros H.
  apply bind_Ok in H as ([rows rl0] & Hrows & H). injection H as <- <-.
  rewrite (write_rows_again _ _ _ Hrows). cbn [mbind outcome_bind].
  destruct (write_rows_frame _ _ _ Hrows) as [HF _].
  by rewrite (Forall2_length _ _ _ HF).
Qed.

Lemma write_reactions_twice_witness :
  write_reactions [set_beta ion_freeze_out (VInt 1); formation]
  = Ok (("2" +:+ nl,
         map reaction_cells [set_beta ion_freeze_out (VInt 1); formation]),
        [set_beta ion_freeze_out (VInt 1); formation]).
Proof.
  apply (write_reactions_twice [ion_freeze_out; formation]).
  vm_compute. reflexivity.
Defined.

(** ** reaction_check *)

Lemma reported_app out1 out2 a b :
  reported (out1 ++ out2) a b ↔ reported out1 a b ∨ reported out2 a b.
Proof.
  unfold reported. split.
  - intros (rs1 & ps1 & rs2 & ps2 & [H|H]%elem_of_app); [left | right];
      by eexists _, _, _, _.
  - intros [(rs1 & ps1 & rs2 & ps2 & H)|(rs1 & ps1 & rs2 & ps2 & H)];
      eexists _, _, _, _; apply elem_of_app; eauto.
Qed.

Lemma reported_singleton a b a' b' rs1 ps1 rs2 ps2 :
  reported [PossibleDuplicates a' b' rs1 ps1 rs2 ps2] a b ↔ a = a' ∧ b = b'.
Proof.
  unfold reported. split.
  - intros (? & ? & ? & ? & H%list_elem_of_singleton). by injection H.
  - intros [-> ->]. eexists _, _, _, _. by apply list_elem_of_singleton.
Qed.

Lemma pair_inner_inv rl i r1 :
  rl !! i = Some r1 → ∀ (todo : list Reaction) j st,
  drop j rl = todo → search_ok rl st →
  let st' := pair_inner i r1 j todo st in
  search_ok rl st'
  ∧ (∀ k, k ∈ st.1.1 → k ∈ st'.1.1)
  ∧ (∀ k r2, j ≤ k → rl !! k = Some r2 → k ≠ i →
             same_reaction r1 r2 = true → i ∈ st'.1.1).
Proof.
  intros Hi. induction todo as [|r2 todo IH]; intros j st Hdrop Hok; simpl.
  - split_and!; auto. intros k r2 Hjk Hk.
    apply lookup_lt_Some in Hk. apply (f_equal length) in Hdrop.
    rewrite length_drop in Hdrop. simpl in Hdrop. lia.
  - assert (rl !! j = Some r2) as Hj.
    { pose proof (lookup_drop rl j 0) as H0. rewrite Hdrop, Nat.add_0_r in H0.
      by rewrite <-H0. }
    assert (drop (S j) rl = todo) as Hdrop'.
    { pose proof (drop_drop rl 1 j) as H1. rewrite Hdrop in H1. simpl in H1.
      rewrite Nat.add_1_r in H1. rewrite <-H1. by rewrite drop_0. }
    destruct st as [[dl out] dups].
    destruct (negb (i =? j) && same_reaction r1 r2) eqn:Ec.
    + apply andb_prop in Ec as [Hne%negb_true_iff%Nat.eqb_neq Hsame].
      set (st1 := (dl ++ [i; j],
                   out ++ [PossibleDuplicates (i + 1) (j + 1) (reactants r1)
                             (products r1) (reactants r1) (products r2)],
                   dups + 1)).
      assert (search_ok rl st1) as Hok1.
      { destruct Hok as (H1 & H2 & H3 & H4). simpl in *. split_and!; simpl.
        - intros a b [Hab|[-> ->]%reported_singleton]%reported_app; [by apply H1|].
          rewrite !Nat.add_sub. split_and!; [lia..|]. split; [done|]. eauto.
        - intros k [Hk|Hk]%elem_of_app.
          + destruct (H2 k Hk) as [b [Hb|Hb]]; exists b; rewrite !reported_app; auto.
          + apply elem_of_cons in Hk as [->|Hk].
            * exists (j + 1). left. apply reported_app. right.
              by apply reported_singleton.
            * apply list_elem_of_singleton in Hk as ->. exists (i + 1). right.
              apply reported_app. right. by apply reported_singleton.
        - rewrite length_app. simpl. lia.
        - apply Forall_app. split; [done|]. constructor; [|done].
          by eexists _, _, _, _, _, _. }
      destruct (IH (S j) st1 Hdrop' Hok1) as (Hok' & Hsub & Hfound).
      split_and!; [done | |].
      * intros k Hk. apply Hsub. simpl. apply elem_of_app. by left.
      * intros _ _ _ _ _ _. apply Hsub. simpl. apply elem_of_app. right. left.
    + destruct (IH (S j) (dl, out, dups) Hdrop' Hok) as (Hok' & Hsub & Hfound).
      split_and!; [done | done |].
      intros k r2' Hjk Hk Hki Hsame.
      destruct (decide (k = j)) as [->|Hkj]; [|apply (Hfound k r2'); auto; lia].
      assert (r2' = r2) as -> by congruence.
      rewrite Hsame, andb_true_r in Ec.
      apply negb_false_iff, Nat.eqb_eq in Ec. congruence.
Qed.

Lemma pair_outer_inv rl : ∀ (todo : list Reaction) i st,
  drop i rl = todo → search_ok rl st →
  (∀ k j, k < i → alike rl k j → k ∈ st.1.1) →
  let st' := pair_outer rl i todo st in
  search_ok rl st' ∧ (∀ k j, alike rl k j → k ∈ st'.1.1).
Proof.
  induction todo as [|r1 todo IH]; intros i st Hdrop Hok Hdone; simpl.
  - split; [done|]. intros k j Hkj. apply (Hdone k j); [|done].
    destruct Hkj as (_ & ? & _ & Hk%lookup_lt_Some & _).
    apply (f_equal length) in Hdrop. rewrite length_drop in Hdrop.
    simpl in Hdrop. lia.
  - assert (rl !! i = Some r1) as Hi.
    { pose proof (lookup_drop rl i 0) as H0. rewrite Hdrop, Nat.add_0_r in H0.
      by rewrite <-H0. }
    assert (drop (S i) rl = todo) as Hdrop'.
    { pose proof (drop_drop rl 1 i) as H1. rewrite Hdrop in H1. simpl in H1.
      rewrite Nat.add_1_r in H1. rewrite <-H1. by rewrite drop_0. }
    case_bool_decide as Hin.
    + destruct (pair_inner_inv rl i r1 Hi rl 0 st (drop_0 rl) Hok)
        as (Hok1 & Hsub & Hfound).
      apply IH; [done | done |]. intros k j Hk Hkj.
      destruct (decide (k = i)) as [->|]; [|apply Hsub, (Hdone k j); [lia | done]].
      destruct Hkj as (Hne & r1' & r2 & Hr1 & Hr2 & Hsame).
      assert (r1' = r1) as -> by congruence.
      apply (Hfound j r2); auto. lia.
    + apply IH; [done | done |]. intros k j Hk Hkj.
      destruct (decide (k = i)) as [->|]; [|apply (Hdone k j); [lia | done]].
      by destruct (decide (i ∈ st.1.1)).
Qed.

Lemma freeze_loop_notices rl : ∀ sl m,
  m ∈ freeze_loop rl sl →
  ∃ n, m = MultipleFreeze n (freeze_routes rl n) ∧ 1 < freeze_routes rl n
       ∧ n ∈ map name sl.
Proof.
  induction sl as [|sp sl IH]; intros m H; simpl in H; [inversion H|].
  apply elem_of_app in H as [H|H].
  - destruct (1 <? freeze_routes rl (name sp)) eqn:E; [|inversion H].
    apply list_elem_of_singleton in H as ->. apply Nat.ltb_lt in E.
    exists (name sp). split_and!; [done | done | left].
  - destruct (IH m H) as (n & ? & ? & ?). exists n. split_and!; [done..|by right].
Qed.

(** X9: what [reaction_check] prints about duplicates.  Every pair it
    prints is a pair of two different reactions with the same set of
    reactants and the same set of products; every reaction that has such
    a partner is in some pair printed; and None is printed exactly when
    there is no such pair. *)
Theorem reaction_check_pairs
    (speciesList : list Species) (reactionList : list Reaction) :
  let out := reaction_check speciesList reactionList in
  (∀ a b, reported out a b →
          1 ≤ a ∧ 1 ≤ b ∧ alike reactionList (a - 1) (b - 1))
  ∧ (∀ i j, alike reactionList i j →
            ∃ b, reported out (i + 1) b ∨ reported out b (i + 1))
  ∧ (NoDuplicates ∈ out ↔ ¬ ∃ i j, alike reactionList i j).
Proof.
  unfold reaction_check.
  destruct (pair_outer_inv reactionList reactionList 0 ([], [], 0) (drop_0 _))
    as [Hok Hall].
  { split_and!; simpl; [|intros k Hk; inversion Hk | done | done].
    intros a b (? & ? & ? & ? & H). inversion H. }
  { intros k j Hk. lia. }
  destruct (pair_outer reactionList 0 reactionList ([], [], 0))
    as [[dl pairs] dups]. simpl in Hok, Hall.
  destruct Hok as (H1 & H2 & H3 & H4). simpl in *.
  assert (∀ a b, reported (freeze_loop reactionList speciesList) a b → False)
    as Hfr.
  { intros a b (? & ? & ? & ? & (n & ? & _)%freeze_loop_notices). discriminate. }
  assert (∀ tl a b, (∀ a b, ¬ reported tl a b) →
            reported (freeze_loop reactionList speciesList ++ pairs ++ tl) a b
            ↔ reported pairs a b) as Hrep.
  { intros tl a b Htl. rewrite !reported_app. split; [|auto].
    intros [?|[?|?]]; [by exfalso; eapply Hfr | done | by exfalso; eapply Htl]. }
  assert (∀ tl, tl = [NoDuplicates] ∨ tl = [] → ∀ a b, ¬ reported tl a b) as Htl.
  { intros tl [->| ->] a b (? & ? & ? & ? & H); [|inversion H].
    apply list_elem_of_singleton in H. discriminate. }
  assert ((if dups =? 0 then [NoDuplicates] else []) = [NoDuplicates]
          ∨ (if dups =? 0 then [NoDuplicates] else []) = []) as Hcase
    by (destruct (dups =? 0); auto).
  split_and!.
  - intros a b Hab. apply Hrep in Hab; [by apply H1 | by apply Htl].
  - intros i j Hij. destruct (H2 i (Hall i j Hij)) as [b Hb]. exists b.
    rewrite !Hrep by (by apply Htl). exact Hb.
  - split.
    + intros Hnone (i & j & Hij).
      destruct (H2 i (Hall i j Hij)) as [b [Hb|Hb]];
        destruct Hb as (? & ? & ? & ? & Hb);
        apply elem_of_app in Hnone as [(n & ? & _)%freeze_loop_notices|Hnone];
        try discriminate;
        apply elem_of_app in Hnone as [Hp|Hd];
        try (rewrite Forall_forall in H4;
             destruct (H4 _ Hp) as (? & ? & ? & ? & ? & ? & ?); discriminate);
        (destruct dups; [destruct pairs; [inversion Hb | discriminate]
                        | inversion Hd]).
    + intros Hno. apply elem_of_app. right. apply elem_of_app. right.
      destruct pairs as [|p pairs]; [subst dups; left|].
      exfalso. apply Hno. rewrite Forall_forall in H4.
      destruct (H4 p ltac:(left)) as (a & b & rs1 & ps1 & rs2 & ps2 & ->).
      destruct (H1 a b) as (_ & _ & Hal); [|eauto].
      eexists _, _, _, _. left.
Qed.

Example reaction_check_sample :
  reaction_check [species "H" "1"; species "H2" "2"]
    [photo; formation; photo_again]
  = [PossibleDuplicates 1 3 (reactants photo) (products photo)
       (reactants photo) (products photo_again)].
Proof. vm_compute. reflexivity. Qed.

(** ** truncate_line at its edges *)

Lemma length_append a b :
  String.length (a +:+ b) = String.length a + String.length b.
Proof. by rewrite <-!length_chars, chars_append, length_app. Qed.

Lemma truncate_loop_fits cf cc lhs fuel lines res input :
  length input ≤ lineLength →
  truncate_loop fuel cf cc lhs lines res input = Ok (res ++ input).
Proof.
  intros H. destruct fuel; cbn [truncate_loop];
    by rewrite (proj2 (Nat.ltb_ge _ _) H).
Qed.

Lemma truncate_loop_no_raise cf cc lhs : ∀ fuel lines res input e,
  truncate_loop fuel cf cc lhs lines res input ≠ Raise e.
Proof.
  induction fuel as [|fuel IH]; intros lines res input e; cbn [truncate_loop].
  - by destruct (lineLength <? length input).
  - destruct (lineLength <? length input); [|done].
    destruct (lines + 1 =? maxlines); [apply IH|].
    destruct (bool_decide (cf = "F90")); [destruct cc|]; apply IH.
Qed.

Lemma index_of_cases c l :
  (c ∈ l → ∃ k, index_of c l = Ok k) ∧ (c ∉ l → index_of c l = Raise ValueError).
Proof.
  unfold index_of. destruct (list_find (λ x, x = c) l) as [[k x]|] eqn:E.
  - split; [eauto|]. intros Hc. apply list_find_Some in E as (Hk & -> & _).
    by apply list_elem_of_lookup_2 in Hk.
  - split; [|done]. intros Hc.
    apply list_find_None in E. rewrite Forall_forall in E. by destruct (E c Hc).
Qed.

Lemma truncate_line_fits fuel input cf cc :
  "="%char ∈ chars input → String.length input ≤ lineLength →
  truncate_line fuel input cf cc = Ok input.
Proof.
  unfold truncate_line. destruct (index_of_cases "="%char (chars input)) as [Hin _].
  intros [k ->]%Hin Hlen. cbn [mbind outcome_bind].
  rewrite truncate_loop_fits by (by rewrite length_chars).
  cbn [fmap outcome_fmap app]. by rewrite text_chars.
Qed.

(** X10: [truncate_line] raises ValueError on a text without [=], however
    short, for the position of [=] is looked up before anything else; a
    text with [=] of at most 72 characters is returned as it is, in every
    code format and with every continuation code. *)
Theorem truncate_line_short_or_no_equals
    (fuel : nat) (input codeFormat : string) (continuationCode : option string) :
  ("="%char ∉ chars input →
   truncate_line fuel input codeFormat continuationCode = Raise ValueError)
  ∧ ("="%char ∈ chars input → String.length input ≤ lineLength →
     truncate_line fuel input codeFormat continuationCode = Ok input).
Proof.
  split; [|apply truncate_line_fits].
  unfold truncate_line. destruct (index_of_cases "="%char (chars input)) as [_ Hno].
  intros ->%Hno. reflexivity.
Qed.

(** ** The width of the wrapped lines *)

Lemma wrap_continuation_width lhs : ∀ fuel lines res body r,
  lines + fuel < maxlines →
  starts_with_operator body →
  truncate_loop fuel "F90" None lhs lines res (amp_head ++ body) = Ok r →
  ∃ ps, ps ≠ [] ∧ r = res ++ amp_head ++ wrapped ps ∧ concat ps = body
        ∧ Forall (λ q, length amp_head + length q ≤ lineLength) ps.
Proof.
  induction fuel as [|fuel IH]; intros lines res body r Hl Hop H.
  - destruct (decide (length (amp_head ++ body) ≤ lineLength)) as [Hs|Hs].
    + rewrite truncate_loop_short in H by done. injection H as <-.
      exists [body]. simpl. rewrite app_nil_r. rewrite length_app in Hs.
      split_and!; auto.
    + rewrite truncate_loop_no_fuel in H by lia. discriminate.
  - destruct (decide (length (amp_head ++ body) ≤ lineLength)) as [Hs|Hs].
    { rewrite truncate_loop_short in H by done. injection H as <-.
      exists [body]. simpl. rewrite app_nil_r. rewrite length_app in Hs.
      split_and!; auto. }
    destruct Hop as (c0 & body0 & -> & Hc0).
    pose proof (index4_lower (amp_head ++ c0 :: body0) 13 c0
                  ltac:(unfold lineLength; lia) eq_refl Hc0) as Hlow.
    destruct (index4_cases (amp_head ++ c0 :: body0))
      as [E|(k & c & E & Hk & Hc & Hopc)]; [lia|].
    destruct (decide (k = 13)) as [->|Hne].
    { rewrite truncate_loop_stuck in H; [discriminate | lia | lia | exact E]. }
    rewrite truncate_loop_step in H by (unfold maxlines in *; lia).
    rewrite E, upto_nat, from_nat in H.
    assert (13 < k) as Hgt by lia.
    assert (length amp_head = 13) as Hlen by reflexivity.
    rewrite take_app, drop_app, take_ge, drop_ge, Hlen in H by lia.
    rewrite lookup_app_r, Hlen in Hc by lia. rewrite app_nil_l in H.
    set (body := c0 :: body0) in *.
    assert (drop (k - 13) body = c :: drop (S (k - 13)) body) as Hd
      by (by apply drop_S).
    apply IH in H as (ps & Hps & -> & Hcat & Hall); [|lia|].
    2:{ exists c, (drop (S (k - 13)) body). split; done. }
    exists (take (k - 13) body :: ps). split_and!.
    + done.
    + rewrite wrapped_cons by done. unfold marker. by rewrite <-!app_assoc.
    + simpl. rewrite Hcat. apply take_drop.
    + constructor; [|done]. rewrite length_take, Hlen. lia.
Qed.

(** X11: under the conditions of the wrapping theorem (an operator among
    the first 72 characters, fewer than thirty lines) no line that
    [truncate_line] makes is wider than the limit before its continuation
    mark is added: the first piece has at most 72 characters, and every
    later piece with the 13 characters put before it has at most 72.  The
    mark [" &"] comes on top, so that a continued line can reach column
    73, as the first line of the sample does. *)
Theorem truncate_line_widths (fuel : nat) (input r : string) :
  fuel < maxlines →
  (String.length input ≤ lineLength
   ∨ ∃ k c, k < lineLength ∧ chars input !! k = Some c ∧ is_operator c = true) →
  truncate_line fuel input "F90" None = Ok r →
  ∃ p ps, chars r = wrapped (p :: ps) ∧ concat (p :: ps) = chars input
          ∧ length p ≤ lineLength
          ∧ Forall (λ q, length amp_head + length q ≤ lineLength) ps.
Proof.
  intros Hf Hop H. unfold truncate_line in H.
  apply bind_Ok in H as (index & _ & H).
  destruct (truncate_loop _ _ _ _ _ _ _) as [r'| |] eqn:Hloop; try discriminate.
  injection H as <-. rewrite chars_text. rewrite <-length_chars in Hop.
  set (inp := chars input) in *.
  destruct (decide (length inp ≤ lineLength)) as [Hs|Hs].
  { rewrite truncate_loop_short in Hloop by done. injection Hloop as <-.
    exists inp, []. simpl. by rewrite app_nil_r. }
  destruct Hop as [?|(k0 & c0 & Hk0 & Hc0 & Hop0)]; [done|].
  destruct fuel as [|fuel];
    [rewrite truncate_loop_no_fuel in Hloop by lia; discriminate|].
  pose proof (index4_lower inp k0 c0 Hk0 Hc0 Hop0) as Hlow.
  destruct (index4_cases inp) as [E|(k & c & E & Hk & Hc & Hopc)]; [lia|].
  rewrite truncate_loop_step in Hloop by (unfold maxlines; lia).
  rewrite E, upto_nat, from_nat in Hloop.
  assert (drop k inp = c :: drop (S k) inp) as Hd by (by apply drop_S).
  apply wrap_continuation_width in Hloop as (ps & Hps & -> & Hcat & Hall);
    [|simpl; lia|].
  2:{ exists c, (drop (S k) inp). split; done. }
  exists (take k inp), ps. split_and!.
  - rewrite wrapped_cons by done. unfold marker. simpl. by rewrite <-!app_assoc.
  - simpl. rewrite Hcat. apply take_drop.
  - rewrite length_take. lia.
  - done.
Qed.

Lemma truncate_line_widths_witness :
  ∃ p ps, chars ten_terms_wrapped = wrapped (p :: ps)
          ∧ concat (p :: ps) = chars ten_terms
          ∧ length p ≤ lineLength
          ∧ Forall (λ q, length amp_head + length q ≤ lineLength) ps.
Proof.
  apply (truncate_line_widths 29 ten_terms ten_terms_wrapped).
  - unfold maxlines. lia.
  - right. exists 13, "-"%char. split_and!; [unfold lineLength; lia|..]; reflexivity.
  - vm_compute. reflexivity.
Defined.

(** ** electron_eq at its edges *)

Lemma electron_terms_neutral : ∀ sl n e,
  Forall neutral sl → electron_terms n sl e = Ok e.
Proof.
  induction sl as [|sp sl IH]; intros n e Hall; [reflexivity|].
  apply Forall_cons in Hall as [(c & Hc & Hp & Hm) Hall]. simpl. rewrite Hc.
  cbn [mbind outcome_bind].
  rewrite !bool_decide_eq_false_2 by done. by apply IH.
Qed.

Lemma equals_in_statement a b : "="%char ∈ chars (a +:+ " = " +:+ b).
Proof.
  rewrite !chars_append, !elem_of_app. right. left.
  apply elem_of_cons. right. left.
Qed.

(** X12: for a list of species whose names end in neither [+] nor [-]
    (and of fewer than 10^58 species, so that the statement fits a line)
    the electron statement assigns zero to the slot after the last
    species. *)
Theorem electron_eq_without_charges (fuel : nat) (speciesList : list Species) :
  Forall neutral speciesList →
  String.length (str (length speciesList + 1)) ≤ 58 →
  electron_eq fuel speciesList "F90"
  = Ok ("      Y(" +:+ str (length speciesList + 1) +:+ ") = 0" +:+ nl).
Proof.
  intros Hall Hlen. unfold electron_eq.
  rewrite electron_terms_neutral by done. cbn [mbind outcome_bind].
  rewrite (bool_decide_eq_false_2 ("F90" = "C")),
    (bool_decide_eq_true_2 ("F90" = "F90")),
    (bool_decide_eq_false_2 ("F90" = "F77")) by done.
  cbn [String.length Nat.ltb Nat.leb]. unfold Y.
  set (n := str (length speciesList + 1)) in *.
  replace ("      " +:+ ("Y(" +:+ n +:+ ")") +:+ " = 0" +:+ nl)
    with (("      Y(" +:+ n +:+ ")") +:+ " = " +:+ ("0" +:+ nl))
    by (by rewrite !append_assoc).
  rewrite (truncate_line_fits fuel _ "F90" None).
  - by rewrite !append_assoc.
  - apply equals_in_statement.
  - rewrite !length_append. simpl. unfold lineLength. lia.
Qed.

Lemma electron_eq_without_charges_witness :
  electron_eq 0 [species "H" "1"; species "H2" "2"] "F90"
  = Ok ("      Y(" +:+ str (length [species "H" "1"; species "H2" "2"] + 1)
        +:+ ") = 0" +:+ nl).
Proof.
  apply electron_eq_without_charges.
  - repeat constructor; eexists; (split; [reflexivity|]); split; discriminate.
  - vm_compute. lia.
Defined.

Lemma electron_terms_cases : ∀ sl n e,
  (Forall (λ sp, name sp ≠ "") sl → ∃ e', electron_terms n sl e = Ok e')
  ∧ (¬ Forall (λ sp, name sp ≠ "") sl → electron_terms n sl e = Raise IndexError).
Proof.
  induction sl as [|sp sl IH]; intros n e; simpl.
  - split; [eauto|]. intros H. destruct H. constructor.
  - destruct (decide (name sp = "")) as [Hn|Hn].
    + rewrite Hn. split; [|done]. intros H%Forall_cons. tauto.
    + destruct (last_char_Ok _ Hn) as [c ->]. cbn [mbind outcome_bind].
      split.
      * intros [_ H]%Forall_cons. by apply IH.
      * intros H. apply IH. intros H'. apply H. by constructor.
Qed.

Lemma truncate_line_no_IndexError fuel s cf cc :
  truncate_line fuel s cf cc ≠ Raise IndexError.
Proof.
  unfold truncate_line. unfold index_of.
  destruct (list_find _ (chars s)) as [[k ?]|]; [|discriminate].
  cbn [mbind outcome_bind].
  destruct (truncate_loop _ _ _ _ _ _ _) eqn:E; try discriminate.
  by apply truncate_loop_no_raise in E.
Qed.

(** X13: [electron_eq] raises IndexError exactly when some species has
    the empty text as name, in every code format: the last character of
    every name is read before anything is written. *)
Theorem electron_eq_IndexError
    (fuel : nat) (speciesList : list Species) (codeFormat : string) :
  electron_eq fuel speciesList codeFormat = Raise IndexError
  ↔ ∃ sp, sp ∈ speciesList ∧ name sp = "".
Proof.
  unfold electron_eq.
  destruct (electron_terms_cases speciesList 0 "") as [Hok Hno]. split.
  - intros H. destruct (decide (Forall (λ sp, name sp ≠ "") speciesList)) as [HF|HF].
    + destruct (Hok HF) as [e He]. rewrite He in H. cbn [mbind outcome_bind] in H.
      repeat case_bool_decide; try discriminate;
        by apply truncate_line_no_IndexError in H.
    + apply not_Forall_Exists, Exists_exists in HF; [|apply _].
      destruct HF as (sp & ? & Hsp). exists sp. split; [done|].
      by destruct (decide (name sp = "")).
  - intros (sp & Hin & Hsp). rewrite Hno; [done|].
    rewrite Forall_forall. intros HF. by apply (HF sp).
Qed.

(** ** write_odes_f90: a species that no reaction uses *)

Lemma reaction_loop_unused set_iter sl sp : ∀ rl i l f,
  used rl (name sp) = false →
  reaction_loop set_iter sl sp i rl l f = Ok (l, f).
Proof.
  induction rl as [|r rl IH]; intros i l f Hu; [reflexivity|].
  simpl in Hu. apply orb_false_elim in Hu as [[Hr Hp]%orb_false_elim Hu].
  simpl. unfold reaction_terms. rewrite Hr, Hp. cbn [andb mbind outcome_bind].
  by apply IH.
Qed.

(** X14: a species that occurs in no reaction gets no LOSS and no PROD
    statement, and its derivative statement has an empty right-hand side:
    [YDOT(n) = ] and the line end. *)
Theorem species_block_unused
    (set_iter : list string → list string) (fuel : nat)
    (speciesList : list Species) (reactionList : list Reaction)
    (n : nat) (sp : Species) :
  used reactionList (name sp) = false →
  String.length (str (n + 1)) ≤ 56 →
  species_block set_iter fuel speciesList reactionList n sp
  = Ok ("      YDOT(" +:+ str (n + 1) +:+ ") = " +:+ nl).
Proof.
  intros Hu Hlen. unfold species_block.
  rewrite reaction_loop_unused by done. cbn [mbind outcome_bind].
  rewrite !(bool_decide_eq_false_2 ("" ≠ "")) by auto.
  cbn [mbind outcome_bind]. unfold ydot_statement.
  rewrite !(bool_decide_eq_false_2 ("" ≠ "")) by auto.
  set (d := str (n + 1)) in *.
  replace (("      YDOT(" +:+ d +:+ ") = ") +:+ nl)
    with (("      YDOT(" +:+ d +:+ ")") +:+ " = " +:+ nl)
    by (by rewrite !append_assoc).
  rewrite (truncate_line_fits fuel _ "F90" None).
  - cbn [mbind outcome_bind]. by rewrite !append_assoc.
  - apply equals_in_statement.
  - rewrite !length_append. simpl. unfold lineLength. lia.
Qed.

Lemma species_block_unused_witness :
  species_block first_seen 0 [species "H" "1"; species "C" "12"] [formation] 1
    (species "C" "12")
  = Ok ("      YDOT(" +:+ str (1 + 1) +:+ ") = " +:+ nl).
Proof.
  apply species_block_unused; [reflexivity | vm_compute; lia].
Defined.

(** ** write_odes_f90: the order of the reactants *)

Lemma loss_factors_count sl n rs : ∀ todo s tb,
  (loss_factors sl n rs todo s tb).2
  = tb + sum_list_with (λ reactant,
                          (loss_factors sl n rs [reactant] "" 0).2) todo.
Proof.
  induction todo as [|reactant todo IH]; intros s tb; [simpl; lia|].
  cbn [loss_factors sum_list_with].
  destruct (bool_decide (reactant = n));
    destruct (abundance_factors sl reactant _) as [t k]; rewrite IH; simpl; lia.
Qed.

Lemma form_factors_count sl rs : ∀ todo s tb,
  (form_factors sl rs todo s tb).2
  = tb + sum_list_with (λ reactant,
                          (form_factors sl rs [reactant] "" 0).2) todo.
Proof.
  induction todo as [|reactant todo IH]; intros s tb; [simpl; lia|].
  cbn [form_factors sum_list_with].
  destruct (abundance_factors sl reactant _) as [t k]; rewrite IH; simpl; lia.
Qed.

(** X15: the count [twoBody], which decides whether a term is multiplied
    by the density, does not depend on the order in which the set of
    reactants is visited; only the order of the factors written does. *)
Theorem twoBody_any_order
    (speciesList : list Species) (species_name : string)
    (reactants todo1 todo2 : list string) (s1 s2 : string) (twoBody : nat) :
  todo1 ≡ₚ todo2 →
  (loss_factors speciesList species_name reactants todo1 s1 twoBody).2
  = (loss_factors speciesList species_name reactants todo2 s2 twoBody).2
  ∧ (form_factors speciesList reactants todo1 s1 twoBody).2
    = (form_factors speciesList reactants todo2 s2 twoBody).2.
Proof.
  intros Hp. rewrite (loss_factors_count _ _ _ todo1), (loss_factors_count _ _ _ todo2),
    (form_factors_count _ _ todo1), (form_factors_count _ _ todo2).
  split; f_equal; by apply sum_list_with_Permutation_proper.
Qed.

Lemma twoBody_any_order_witness :
  (loss_factors [species "H" "1"; species "E-" "0"] "H" ["H"; "E-"; "NAN"]
     ["H"; "E-"; "NAN"] "" 0).2
  = (loss_factors [species "H" "1"; species "E-" "0"] "H" ["H"; "E-"; "NAN"]
       ["NAN"; "E-"; "H"] "" 0).2.
Proof.
  eapply proj1. apply twoBody_any_order.
  apply (bool_decide_unpack _). vm_compute. exact I.
Defined.

(** ** evap_lists *)

Lemma index_named_lt sl n j : index_named sl n = Some j → j < length sl.
Proof.
  unfold index_named. destruct (list_find _ sl) as [[k sp]|] eqn:E; [|discriminate].
  intros [= <-]. apply list_find_Some in E as (Hk & _). by apply lookup_lt_Some in Hk.
Qed.

Lemma evap_loop_written sl : ∀ todo i replies acc count rows unread,
  evap_loop sl i todo replies acc = Ok (Written count rows unread) →
  ∃ gas,
    length gas = length (grains todo)
    ∧ Forall (λ j, j < length sl) gas
    ∧ grainlist rows = grainlist acc ++ map (λ j, j + 1) gas
    ∧ mgrainlist rows = mgrainlist acc ++ map (λ i, i + 1) (grain_places i todo)
    ∧ solidList rows = solidList acc ++ map solidFraction (grains todo)
    ∧ monoList rows = monoList acc ++ map monoFraction (grains todo)
    ∧ volcList rows = volcList acc ++ map volcFraction (grains todo)
    ∧ bindEnergyList rows = bindEnergyList acc ++ map bindener (grains todo)
    ∧ enthalpyList rows = enthalpyList acc ++ map enthalpy (grains todo)
    ∧ count = str (length (grainlist rows)) +:+ nl
    ∧ unread `suffix_of` replies.
Proof.
  induction todo as [|sp todo IH]; intros i replies acc count rows unread H;
    simpl in H.
  - injection H as <- <- <-. exists []. simpl. rewrite !app_nil_r.
    split_and!; auto.
  - apply bind_Ok in H as (c & Hc & H).
    assert (∀ j replies',
              j < length sl → replies' `suffix_of` replies → c = "#"%char →
              evap_loop sl (S i) todo replies'
                (mkEvap (grainlist acc ++ [j + 1]) (mgrainlist acc ++ [i + 1])
                   (solidList acc ++ [solidFraction sp])
                   (monoList acc ++ [monoFraction sp])
                   (volcList acc ++ [volcFraction sp])
                   (bindEnergyList acc ++ [bindener sp])
                   (enthalpyList acc ++ [enthalpy sp]))
              = Ok (Written count rows unread) →
              ∃ gas,
                length gas = length (grains (sp :: todo))
                ∧ Forall (λ j, j < length sl) gas
                ∧ grainlist rows = grainlist acc ++ map (λ j, j + 1) gas
                ∧ mgrainlist rows
                  = mgrainlist acc ++ map (λ i, i + 1) (grain_places i (sp :: todo))
                ∧ solidList rows = solidList acc ++ map solidFraction (grains (sp :: todo))
                ∧ monoList rows = monoList acc ++ map monoFraction (grains (sp :: todo))
                ∧ volcList rows = volcList acc ++ map volcFraction (grains (sp :: todo))
                ∧ bindEnergyList rows
                  = bindEnergyList acc ++ map bindener (grains (sp :: todo))
                ∧ enthalpyList rows
                  = enthalpyList acc ++ map enthalpy (grains (sp :: todo))
                ∧ count = str (length (grainlist rows)) +:+ nl
                ∧ unread `suffix_of` replies) as Hpush.
    { intros j replies' Hj Hsuf -> Hrec.
      apply IH in Hrec as (gas & Hlen & Hall & Hg & Hm & Hs & Hmo & Hv & Hb & He & Hcnt & Hun).
      simpl in *. exists (j :: gas).
      unfold grains. rewrite filter_cons_True by exact Hc.
      cbn [grain_places]. rewrite decide_True by exact Hc.
      simpl. rewrite <-!app_assoc in *. simpl in *.
      split_and!; auto. by etrans. }
    case_bool_decide as Hg.
    + destruct (index_named sl (tail_of (name sp))) as [j|] eqn:Ej.
      * apply (Hpush j replies); auto. by apply index_named_lt in Ej.
      * destruct replies as [|input replies']; [discriminate|].
        case_bool_decide; [discriminate|].
        destruct (index_named sl (upper input)) as [j|] eqn:Ej'; [|discriminate].
        apply (Hpush j replies'); auto; [by apply index_named_lt in Ej'|].
        by apply suffix_cons_r.
    + apply IH in H as (gas & Hlen & Hall & Hg' & Hm & Hs & Hmo & Hv & Hb & He & Hcnt & Hun).
      exists gas. unfold grains in *.
      rewrite filter_cons_False by (unfold on_grain; rewrite Hc; congruence).
      cbn [grain_places].
      rewrite decide_False by (unfold on_grain; rewrite Hc; congruence).
      split_and!; auto.
Qed.

(** X16: when [evap_lists] writes its table, the seven rows have one
    entry for each species whose name begins with [#], in the order of
    the species list: its place (from 1) in the second row, its five
    fields in the third to seventh, and in the first row a place (from 1)
    within the list; the count line is the number of these species. *)
Theorem evap_lists_rows
    (speciesList : list Species) (replies unread : list string)
    (count : string) (rows : evap_rows) :
  evap_lists speciesList replies = Ok (Written count rows unread) →
  length (grainlist rows) = length (grains speciesList)
  ∧ Forall (λ g, 1 ≤ g ≤ length speciesList) (grainlist rows)
  ∧ mgrainlist rows = map (λ i, i + 1) (grain_places 0 speciesList)
  ∧ solidList rows = map solidFraction (grains speciesList)
  ∧ monoList rows = map monoFraction (grains speciesList)
  ∧ volcList rows = map volcFraction (grains speciesList)
  ∧ bindEnergyList rows = map bindener (grains speciesList)
  ∧ enthalpyList rows = map enthalpy (grains speciesList)
  ∧ count = str (length (grains speciesList)) +:+ nl.
Proof.
  unfold evap_lists.
  intros (gas & Hlen & Hall & Hg & Hm & Hs & Hmo & Hv & Hb & He & Hcnt & _)%evap_loop_written.
  simpl in *. rewrite Hg, length_map.
  split_and!; auto.
  - rewrite Forall_fmap. eapply Forall_impl; [exact Hall|]. simpl. lia.
  - by rewrite Hcnt, Hg, length_map, Hlen.
Qed.

Lemma evap_lists_rows_witness :
  length [1; 3] = length (grains surface_network).
Proof.
  eapply proj1.
  apply (evap_lists_rows surface_network ["x"] ["x"] ("2" +:+ nl)
           (mkEvap [1; 3] [2; 4] ["0"; "0"] ["0"; "0"] ["0"; "0"] ["0"; "0"]
              ["0"; "0"])).
  vm_compute. reflexivity.
Defined.

Lemma evap_loop_no_prompt sl : ∀ todo i replies acc,
  Forall (λ sp, name sp ≠ "") todo →
  Forall (λ sp, on_grain sp → is_Some (index_named sl (tail_of (name sp)))) todo →
  ∃ count rows,
    evap_loop sl i todo replies acc = Ok (Written count rows replies)
    ∧ grainlist rows
      = grainlist acc ++ map (λ sp, gas_place sl sp + 1) (grains todo).
Proof.
  induction todo as [|sp todo IH]; intros i replies acc Hne Hgas; simpl.
  - eexists _, _. split; [reflexivity|]. by rewrite app_nil_r.
  - apply Forall_cons in Hne as [Hn Hne]. apply Forall_cons in Hgas as [Hg Hgas].
    destruct (name sp) as [|c s] eqn:En; [done|]. cbn [first_char mbind outcome_bind].
    unfold grains. case_bool_decide as Hc.
    + subst c. assert (on_grain sp) as Hon by (unfold on_grain; by rewrite En).
      rewrite filter_cons_True by done.
      destruct (Hg Hon) as [j Hj]. rewrite Hj.
      destruct (IH (S i) replies
                  (mkEvap (grainlist acc ++ [j + 1]) (mgrainlist acc ++ [i + 1])
                     (solidList acc ++ [solidFraction sp])
                     (monoList acc ++ [monoFraction sp])
                     (volcList acc ++ [volcFraction sp])
                     (bindEnergyList acc ++ [bindener sp])
                     (enthalpyList acc ++ [enthalpy sp])) Hne Hgas)
        as (count & rows & -> & Hrows).
      eexists _, _. split; [reflexivity|]. rewrite Hrows. simpl.
      rewrite <-app_assoc. simpl. unfold gas_place. rewrite En.
      by rewrite Hj.
    + rewrite filter_cons_False
        by (unfold on_grain; rewrite En; simpl; congruence).
      by apply IH.
Qed.

(** X17: when no name is empty and every species whose name begins with
    [#] has a species of the same name without the [#], [evap_lists]
    writes its table without asking the operator anything, and the first
    row gives, for each species on the grains, the place (from 1) of the
    first species that has its name without the [#]. *)
Theorem evap_lists_without_prompt
    (speciesList : list Species) (replies : list string) :
  Forall (λ sp, name sp ≠ "") speciesList →
  Forall (λ sp, on_grain sp →
                is_Some (index_named speciesList (tail_of (name sp))))
    speciesList →
  ∃ count rows,
    evap_lists speciesList replies = Ok (Written count rows replies)
    ∧ grainlist rows
      = map (λ sp, gas_place speciesList sp + 1) (grains speciesList).
Proof.
  intros Hne Hgas. unfold evap_lists.
  destruct (evap_loop_no_prompt speciesList speciesList 0 replies
              (mkEvap [] [] [] [] [] [] []) Hne Hgas) as (count & rows & H & Hg).
  eauto.
Qed.

Lemma evap_lists_without_prompt_witness :
  ∃ count rows,
    evap_lists surface_network ["x"] = Ok (Written count rows ["x"])
    ∧ grainlist rows
      = map (λ sp, gas_place surface_network sp + 1) (grains surface_network).
Proof.
  apply evap_lists_without_prompt.
  - repeat constructor; discriminate.
  - repeat constructor; intros H;
      first [vm_compute in H; discriminate | vm_compute; eauto].
Defined.

(** The operator's answers: a species without counterpart makes the
    function ask; x ends the run, the name of a species is put to upper
    case and used, and a name that no species has raises. *)
Example evap_lists_prompts :
  evap_lists [species "#CO" "28"; species "C" "12"] ["X"] = Ok Quit
  ∧ (∃ count rows,
       evap_lists [species "#CO" "28"; species "C" "12"] ["c"; "later"]
       = Ok (Written count rows ["later"]) ∧ grainlist rows = [2])
  ∧ evap_lists [species "#CO" "28"; species "C" "12"] ["co"]
    = Raise StopIteration
  ∧ evap_lists [species "#CO" "28"; species "C" "12"] [] = Ok EndOfInput.
Proof. split_and!; try (vm_compute; reflexivity). eexists _, _. vm_compute. eauto. Qed.

(** ** write_odes_f90: what it can raise *)

Lemma truncate_line_Raise fuel s cf cc e :
  truncate_line fuel s cf cc = Raise e → "="%char ∉ chars s.
Proof.
  unfold truncate_line. intros H Hin.
  destruct (index_of_cases "="%char (chars s)) as [Hok _].
  destruct (Hok Hin) as [k Hk]. rewrite Hk in H. cbn [mbind outcome_bind] in H.
  destruct (truncate_loop _ _ _ _ _ _ _) eqn:E; try discriminate.
  by apply truncate_loop_no_raise in E.
Qed.

Lemma equals_in_prefix a b : "="%char ∈ chars a → "="%char ∈ chars (a +:+ b).
Proof. intros H. rewrite chars_append. apply elem_of_app. by left. Qed.

Lemma electron_eq_Raise fuel sl e :
  electron_eq fuel sl "F90" = Raise e →
  e = IndexError ∧ ∃ sp, sp ∈ sl ∧ name sp = "".
Proof.
  intros H. unfold electron_eq in H.
  destruct (electron_terms_cases sl 0 "") as [Hok Hno].
  destruct (decide (Forall (λ sp, name sp ≠ "") sl)) as [HF|HF].
  2:{ rewrite Hno in H by done. injection H as <-. split; [done|].
      apply not_Forall_Exists, Exists_exists in HF; [|apply _].
      destruct HF as (sp & ? & Hsp). exists sp. split; [done|].
      by destruct (decide (name sp = "")). }
  destruct (Hok HF) as [t Ht]. rewrite Ht in H. cbn [mbind outcome_bind] in H.
  rewrite (bool_decide_eq_false_2 ("F90" = "C")),
    (bool_decide_eq_true_2 ("F90" = "F90")),
    (bool_decide_eq_false_2 ("F90" = "F77")) in H by done.
  exfalso. unfold Y in H. destruct (0 <? String.length t);
    apply truncate_line_Raise in H; apply H;
    rewrite !chars_append, !elem_of_app; right; right; left;
    apply (bool_decide_unpack _); vm_compute; exact I.
Qed.

Lemma reaction_terms_Raise set_iter sl sp i r l f e :
  reaction_terms set_iter sl sp i r l f = Raise e →
  e = StopIteration ∧ H_index sl = Raise StopIteration
  ∧ is_H2_formation (reactants r) (products r) = true.
Proof.
  unfold reaction_terms.
  destruct (mem (name sp) (reactants r) && is_H2_formation _ _); [discriminate|].
  destruct (if mem (name sp) (reactants r) then _ else _) as [l' tb].
  destruct (mem (name sp) (products r)); [|discriminate].
  destruct (is_H2_formation (reactants r) (products r)) eqn:Eh.
  - unfold H_index. destruct (list_find _ sl) as [[k ?]|]; [discriminate|].
    intros [= <-]. auto.
  - destruct (form_factors _ _ _ _ _). discriminate.
Qed.

Lemma reaction_loop_Raise set_iter sl sp : ∀ rl i l f e,
  reaction_loop set_iter sl sp i rl l f = Raise e →
  e = StopIteration ∧ H_index sl = Raise StopIteration
  ∧ ∃ r, r ∈ rl ∧ is_H2_formation (reactants r) (products r) = true.
Proof.
  induction rl as [|r rl IH]; intros i l f e H; simpl in H; [discriminate|].
  destruct (reaction_terms set_iter sl sp i r l f) as [[l' f']| |] eqn:E;
    cbn [mbind outcome_bind] in H; [|injection H as <-|discriminate].
  - apply IH in H as (? & ? & r' & ? & ?). split_and!; auto.
    exists r'. split; [by right | done].
  - apply reaction_terms_Raise in E as (? & ? & ?). split_and!; auto.
    exists r. split; [left | done].
Qed.

Lemma species_block_Raise set_iter fuel sl rl n sp e :
  species_block set_iter fuel sl rl n sp = Raise e →
  e = StopIteration ∧ H_index sl = Raise StopIteration
  ∧ ∃ r, r ∈ rl ∧ is_H2_formation (reactants r) (products r) = true.
Proof.
  unfold species_block. intros H.
  destruct (reaction_loop set_iter sl sp 0 rl "" "") as [[l f]| |] eqn:E;
    cbn [mbind outcome_bind] in H; [|injection H as <-|discriminate];
    [|by apply reaction_loop_Raise in E].
  exfalso.
  destruct (if bool_decide (l ≠ "") then _ else Ok l) as [l1| |] eqn:El;
    cbn [mbind outcome_bind] in H; [|injection H as <-|discriminate].
  2:{ case_bool_decide; [|discriminate]. apply truncate_line_Raise in El.
      apply El, equals_in_prefix, (bool_decide_unpack _). vm_compute. exact I. }
  destruct (if bool_decide (f ≠ "") then _ else Ok f) as [f1| |] eqn:Ef;
    cbn [mbind outcome_bind] in H; [|injection H as <-|discriminate].
  2:{ case_bool_decide; [|discriminate]. apply truncate_line_Raise in Ef.
      apply Ef, equals_in_prefix, (bool_decide_unpack _). vm_compute. exact I. }
  destruct (truncate_line fuel (ydot_statement n f1 l1) "F90" None) eqn:Ey;
    cbn [mbind outcome_bind] in H; try discriminate.
  apply truncate_line_Raise in Ey. apply Ey.
  destruct (ydot_statement_shape n f1 l1) as (rest & _ & ->).
  apply equals_in_prefix. rewrite !chars_append, !elem_of_app. right. right.
  apply (bool_decide_unpack _). vm_compute. exact I.
Qed.

Lemma species_loop_Raise set_iter fuel sl rl : ∀ todo n e,
  species_loop set_iter fuel sl rl n todo = Raise e →
  e = StopIteration ∧ H_index sl = Raise StopIteration
  ∧ ∃ r, r ∈ rl ∧ is_H2_formation (reactants r) (products r) = true.
Proof.
  induction todo as [|sp todo IH]; intros n e H; simpl in H; [discriminate|].
  destruct (species_block set_iter fuel sl rl n sp) as [b| |] eqn:Eb;
    cbn [mbind outcome_bind] in H; [|injection H as <-|discriminate];
    [|by apply species_block_Raise in Eb].
  destruct (species_loop set_iter fuel sl rl (S n) todo) as [bs| |] eqn:Es;
    cbn [mbind outcome_bind] in H; [discriminate|injection H as <-|discriminate].
  by apply IH in Es.
Qed.

(** X18: the only exceptions [write_odes_f90] can raise are IndexError,
    and then some species has the empty text as name, and StopIteration,
    and then some reaction is recognised as hydrogen formation while no
    species is named H.  It never fails for a missing [=], an unbound
    variable or a missing attribute. *)
Theorem write_odes_f90_exceptions
    (set_iter : list string → list string) (fuel : nat)
    (speciesList : list Species) (reactionList : list Reaction) (e : exn) :
  write_odes_f90 set_iter fuel speciesList reactionList = Raise e →
  (e = IndexError ∧ ∃ sp, sp ∈ speciesList ∧ name sp = "")
  ∨ (e = StopIteration
     ∧ (∀ sp, sp ∈ speciesList → name sp ≠ "H")
     ∧ ∃ r, r ∈ reactionList
            ∧ is_H2_formation (reactants r) (products r) = true).
Proof.
  unfold write_odes_f90. intros H.
  destruct (electron_eq fuel speciesList "F90") as [el| |] eqn:Ee;
    cbn [mbind outcome_bind] in H; [|injection H as <-|discriminate];
    [|left; by apply electron_eq_Raise in Ee].
  destruct (species_loop set_iter fuel speciesList reactionList 0 speciesList)
    as [bs| |] eqn:Es; cbn [mbind outcome_bind] in H;
    [discriminate|injection H as <-|discriminate].
  apply species_loop_Raise in Es as (-> & Hh & Hr). right. split_and!; auto.
  intros sp Hsp Hn. unfold H_index in Hh.
  destruct (list_find (λ x, name x = "H") speciesList) as [[k ?]|] eqn:Ef;
    [discriminate|].
  apply list_find_None in Ef. rewrite Forall_forall in Ef. by apply (Ef sp).
Qed.

Lemma write_odes_f90_exceptions_witness :
  (StopIteration = IndexError
   ∧ ∃ sp, sp ∈ [species "H2" "2"] ∧ name sp = "")
  ∨ (StopIteration = StopIteration
     ∧ (∀ sp, sp ∈ [species "H2" "2"] → name sp ≠ "H")
     ∧ ∃ r, r ∈ [mkReaction ["H"; "H"; ""] ["H2"; ""; ""; ""] (VStr "1")
                   (VStr "0") (VStr "0") (VStr "0") (VStr "0")]
            ∧ is_H2_formation (reactants r) (products r) = true).
Proof.
  apply (write_odes_f90_exceptions first_seen 10).
  vm_compute. reflexivity.
Defined.

(** ** truncate_line returns *)

Lemma index2_cases input :
  index2 input = (-1)%Z
  ∨ ∃ k c, index2 input = Z.of_nat k ∧ k < lineLength
           ∧ input !! k = Some c ∧ is_operator c = true.
Proof.
  unfold index2.
  destruct (rfind_cases "+" lineLength input) as [E1|(k1 & E1 & ? & ?)];
  destruct (rfind_cases "-" lineLength input) as [E2|(k2 & E2 & ? & ?)];
  rewrite E1, E2;
  repeat match goal with
  | |- context [Z.max ?a ?b] =>
      destruct (Z.max_spec a b) as [ [_ ->] | [_ ->] ]
  end;
  first [by left
        | right; eexists _, _; split; [reflexivity|]; split; [eassumption|];
          split; [eassumption|]; reflexivity].
Qed.

(** The pass of the loop that makes the thirtieth line. *)
Lemma truncate_loop_restart fuel lhs lines res input :
  lineLength < length input → lines + 1 = maxlines →
  truncate_loop (S fuel) "F90" None lhs lines res input
  = truncate_loop fuel "F90" None lhs 0
      (res ++ upto (index2 input) input ++ chars nl)
      (lhs ++ chars "=" ++ lhs ++ from (index2 input) input).
Proof.
  intros H1 H2. cbn [truncate_loop].
  by rewrite (proj2 (Nat.ltb_lt _ _) H1), (proj2 (Nat.eqb_eq _ _) H2).
Qed.

Lemma dense_drop : ∀ l k, dense l = true → dense (drop k l) = true.
Proof.
  induction l as [|c l IH]; intros k H; [by destruct k|].
  destruct k as [|k]; [done|]. simpl in H. apply andb_prop in H as [_ H].
  by apply IH.
Qed.

Lemma dense_next c l :
  dense (c :: l) = true → is_operator c = true → 58 < length l →
  ∃ p c', p < 58 ∧ l !! p = Some c' ∧ is_operator c' = true.
Proof.
  simpl. intros [H _]%andb_prop Hc Hl.
  rewrite Hc, (proj2 (Nat.ltb_lt _ _) Hl) in H. simpl in H.
  apply existsb_exists in H as (c' & [p Hp]%list_elem_of_In%list_elem_of_lookup & Hop).
  apply lookup_take_Some in Hp as [Hp Hlt]. eauto.
Qed.

Lemma no_operator_before (pre body : list ascii) k c :
  existsb is_operator pre = false →
  (pre ++ body) !! k = Some c → is_operator c = true → length pre ≤ k.
Proof.
  intros Hpre Hk Hop. destruct (decide (k < length pre)) as [Hlt|]; [|lia].
  rewrite lookup_app_l in Hk by done.
  assert (existsb is_operator pre = true); [|congruence].
  apply existsb_exists. exists c. split; [|done].
  by apply list_elem_of_In, list_elem_of_lookup_2 with k.
Qed.

Lemma cut_after (pre body : list ascii) k c :
  length pre ≤ k → (pre ++ body) !! k = Some c →
  take k (pre ++ body) = pre ++ take (k - length pre) body
  ∧ drop k (pre ++ body) = drop (k - length pre) body
  ∧ drop (k - length pre) body = c :: drop (S (k - length pre)) body.
Proof.
  intros Hk Hc. rewrite lookup_app_r in Hc by done.
  rewrite take_app, drop_app, take_ge, drop_ge by done.
  split_and!; auto. by apply drop_S.
Qed.

Lemma wrap_returns lhs :
  existsb is_operator lhs = false → 2 * length lhs + 1 < lineLength →
  ∀ fuel,
    (∀ lines res body,
       lines < maxlines → starts_with_operator body → dense body = true →
       3 * length body + (if lines + 1 =? maxlines then 2 else 0) < fuel →
       ∃ r, truncate_loop fuel "F90" None lhs lines res (amp_head ++ body) = Ok r)
    ∧ (∀ res body,
         starts_with_operator body → dense body = true →
         3 * length body + 1 < fuel →
         ∃ r, truncate_loop fuel "F90" None lhs 0 res
                ((lhs ++ chars "=" ++ lhs) ++ body) = Ok r).
Proof.
  intros Hlhs Hlen. set (lhs2 := lhs ++ chars "=" ++ lhs).
  assert (existsb is_operator lhs2 = false) as Hlhs2.
  { unfold lhs2. rewrite !existsb_app, Hlhs. reflexivity. }
  assert (length lhs2 = 2 * length lhs + 1) as Hlen2.
  { unfold lhs2. rewrite !length_app. simpl. lia. }
  assert (existsb is_operator amp_head = false) as Hamp by reflexivity.
  assert (length amp_head = 13) as Hlamp by reflexivity.
  induction fuel as [|fuel [IHA IHB]]; [split; intros; lia|]. split.
  - intros lines res body Hlines (c0 & body0 & -> & Hc0) Hd Hmu.
    destruct (decide (length (amp_head ++ c0 :: body0) ≤ lineLength)) as [Hs|Hs].
    { rewrite truncate_loop_short by done. eauto. }
    rewrite length_app, Hlamp in Hs. simpl in Hs. unfold lineLength in Hs.
    destruct (lines + 1 =? maxlines) eqn:El.
    + apply Nat.eqb_eq in El.
      rewrite truncate_loop_restart
        by (rewrite ?length_app, ?Hlamp; simpl; unfold lineLength; lia).
      destruct (index2_cases (amp_head ++ c0 :: body0))
        as [E|(k & c & E & Hk & Hc & Hop)]; rewrite E.
      * rewrite truncate_loop_short; [eauto|].
        unfold from, cut. simpl.
        repeat (rewrite ?length_app, ?length_drop; simpl).
        unfold lineLength in *. lia.
      * rewrite upto_nat, from_nat.
        pose proof (no_operator_before _ _ _ _ Hamp Hc Hop) as Hge.
        destruct (cut_after _ _ _ _ Hge Hc) as (_ & -> & Hdr).
        replace (lhs ++ chars "=" ++ lhs ++ drop (k - length amp_head) (c0 :: body0))
          with (lhs2 ++ drop (k - length amp_head) (c0 :: body0))
          by (unfold lhs2; by rewrite <-!app_assoc).
        apply IHB.
        -- rewrite Hdr. by eexists _, _.
        -- by apply dense_drop.
        -- rewrite length_drop. simpl in *. lia.
    + apply Nat.eqb_neq in El.
      rewrite truncate_loop_step
        by (rewrite ?length_app, ?Hlamp; simpl; unfold lineLength; lia).
      destruct (dense_next c0 body0 Hd Hc0) as (p & c' & Hp & Hc' & Hop');
        [lia|].
      pose proof (index4_lower (amp_head ++ c0 :: body0) (14 + p) c'
                    ltac:(unfold lineLength; lia) Hc' Hop') as Hlow.
      destruct (index4_cases (amp_head ++ c0 :: body0))
        as [E|(k & c & E & Hk & Hc & Hop)]; [lia|].
      rewrite E, upto_nat, from_nat.
      assert (14 ≤ k) by lia.
      destruct (cut_after amp_head (c0 :: body0) k c ltac:(rewrite Hlamp; lia) Hc)
        as (_ & -> & Hdr).
      apply IHA.
      * unfold maxlines in *. lia.
      * rewrite Hdr. by eexists _, _.
      * by apply dense_drop.
      * rewrite length_drop, Hlamp. simpl in *.
        destruct (lines + 1 + 1 =? maxlines); lia.
  - intros res body (c0 & body0 & -> & Hc0) Hd Hmu. fold lhs2.
    destruct (decide (length (lhs2 ++ c0 :: body0) ≤ lineLength)) as [Hs|Hs].
    { rewrite truncate_loop_short by done. eauto. }
    rewrite truncate_loop_step by (unfold maxlines; lia).
    assert ((lhs2 ++ c0 :: body0) !! length lhs2 = Some c0) as H0
      by (by rewrite lookup_app_r, Nat.sub_diag by lia).
    assert (length lhs2 < lineLength) as Hlt2 by (by rewrite Hlen2).
    pose proof (index4_lower _ _ _ Hlt2 H0 Hc0) as Hlow.
    destruct (index4_cases (lhs2 ++ c0 :: body0))
      as [E|(k & c & E & Hk & Hc & Hop)]; [lia|].
    rewrite E, upto_nat, from_nat.
    pose proof (no_operator_before _ _ _ _ Hlhs2 Hc Hop) as Hge.
    destruct (cut_after _ _ _ _ Hge Hc) as (_ & -> & Hdr).
    apply IHA.
    + unfold maxlines. lia.
    + rewrite Hdr. by eexists _, _.
    + by apply dense_drop.
    + rewrite length_drop. simpl in *. lia.
Qed.

(** X19: [truncate_line] returns on the statements the generator makes.
    If no operator stands before the first [=], which is among the first
    36 characters; if the statement is at most 72 characters long or has
    an operator among its first 72; and if every operator with more than
    58 characters after it has another operator among the next 58; then
    the loop ends, the thirtieth-line restarts included, within three
    passes for each character and two more. *)
Theorem truncate_line_returns (fuel : nat) (input : string) (e : nat) :
  index_of "="%char (chars input) = Ok e →
  e ≤ 35 →
  existsb is_operator (take e (chars input)) = false →
  (String.length input ≤ lineLength
   ∨ existsb is_operator (take lineLength (chars input)) = true) →
  dense (chars input) = true →
  3 * String.length input + 2 ≤ fuel →
  ∃ r, truncate_line fuel input "F90" None = Ok r.
Proof.
  intros He Hle Hlhs Hfirst Hd Hfuel. unfold truncate_line. rewrite He.
  cbn [mbind outcome_bind fmap option_fmap option_map].
  rewrite <-length_chars in Hfirst, Hfuel. set (l := chars input) in *.
  assert (∃ r, truncate_loop fuel "F90" None (take e l) 0 [] l = Ok r)
    as [r ->]; [|eexists; reflexivity].
  destruct (decide (length l ≤ lineLength)) as [Hs|Hs].
  { rewrite truncate_loop_short by done. eauto. }
  destruct Hfirst as [?|Hop]; [done|].
  apply existsb_exists in Hop
    as (c0 & [k0 Hk0]%list_elem_of_In%list_elem_of_lookup & Hc0).
  apply lookup_take_Some in Hk0 as [Hk0 Hlt0].
  destruct fuel as [|fuel]; [lia|].
  rewrite truncate_loop_step by (unfold maxlines; lia).
  pose proof (index4_lower l k0 c0 Hlt0 Hk0 Hc0) as Hlow.
  destruct (index4_cases l) as [E|(k & c & E & Hk & Hc & Hop)]; [lia|].
  rewrite E, upto_nat, from_nat.
  assert (length (take e l) ≤ e) as Hlen by (rewrite length_take; lia).
  destruct (wrap_returns (take e l) Hlhs ltac:(unfold lineLength; lia) fuel)
    as [HA _].
  apply HA.
  - unfold maxlines. lia.
  - exists c, (drop (S k) l). split; [by apply drop_S | done].
  - by apply dense_drop.
  - rewrite length_drop. simpl. lia.
Qed.

Lemma truncate_line_returns_witness :
  ∃ r, truncate_line (3 * String.length long_loss + 2) long_loss "F90" None
       = Ok r.
Proof.
  apply (truncate_line_returns _ long_loss 11).
  - vm_compute. reflexivity.
  - lia.
  - vm_compute. reflexivity.
  - right. vm_compute. reflexivity.
  - vm_compute. reflexivity.
  - apply le_n.
Defined.

(** ** find_constituents: ending or never ending *)

(** A pass of the scan moves on, or leaves the scan where every later
    pass prints the same diagnostic. *)
Lemma scan_step_progress speciesName st st' :
  scan_step speciesName st = Ok st' →
  sc_i st < sc_i st'
  ∨ (sc_i st' = sc_i st
     ∧ ∀ out, scan_step speciesName
                (mkScan (sc_i st') (sc_j st') (sc_atoms st') out)
              = Ok (mkScan (sc_i st') (sc_j st') (sc_atoms st')
                      (out ++ [NotInElementList speciesName elementList]))).
Proof.
  intros H. destruct (scan_step_out _ _ _ H) as [Hout|Hstuck]; [|by right].
  left. revert H. unfold scan_step. destruct st as [i j atoms out0].
  cbn [sc_i sc_j sc_atoms sc_out] in *.
  destruct (negb (mem (String.substring i 1 speciesName) symbols));
    [|intros [= <-]; simpl; lia].
  match goal with |- match ?o with _ => _ end = _ → _ => destruct o as [jv|] end;
    [|discriminate].
  destruct (i <? jv) eqn:Ej.
  - apply Nat.ltb_lt in Ej. intros H.
    repeat match type of H with
           | (if ?b then _ else _) = _ => destruct b
           | match ?o with _ => _ end = _ => destruct o
           end; injection H as <-; simpl; lia.
  - intros [= <-]. simpl in Hout.
    apply (f_equal length) in Hout. rewrite length_app in Hout. simpl in Hout. lia.
Qed.

Lemma scan_loop_unfold speciesName fuel st :
  sc_i st < String.length speciesName →
  scan_loop (S fuel) speciesName st
  = scan_step speciesName st ≫= scan_loop fuel speciesName.
Proof.
  intros H. cbn [scan_loop]. by rewrite (proj2 (Nat.ltb_lt _ _) H).
Qed.

Lemma scan_loop_decides speciesName : ∀ fuel st,
  String.length speciesName - sc_i st ≤ fuel →
  scan_loop fuel speciesName st = OutOfFuel →
  ∀ fuel', scan_loop fuel' speciesName st = OutOfFuel.
Proof.
  induction fuel as [|fuel IH]; intros st Hfuel H.
  - cbn [scan_loop] in H.
    rewrite (proj2 (Nat.ltb_ge _ _)) in H by lia. discriminate.
  - destruct (decide (sc_i st < String.length speciesName)) as [Hi|Hi].
    2:{ cbn [scan_loop] in H. rewrite (proj2 (Nat.ltb_ge _ _)) in H by lia.
        discriminate. }
    rewrite scan_loop_unfold in H by done.
    destruct (scan_step speciesName st) as [st1| |] eqn:Es;
      cbn [mbind outcome_bind] in H; try discriminate.
    + assert (∀ fuel', scan_loop fuel' speciesName st1 = OutOfFuel) as Hst1.
      { destruct (scan_step_progress _ _ _ Es) as [Hlt|[Heq Hstuck]].
        - apply IH; [lia | done].
        - destruct st1 as [i1 j1 a1 o1]. simpl in *. intros fuel'.
          apply scan_loop_never_leaves; [lia | done]. }
      intros [|fuel'].
      * cbn [scan_loop]. by rewrite (proj2 (Nat.ltb_lt _ _) Hi).
      * rewrite scan_loop_unfold, Es by done. apply Hst1.
    + intros [|fuel'].
      * cbn [scan_loop]. by rewrite (proj2 (Nat.ltb_lt _ _) Hi).
      * rewrite scan_loop_unfold, Es by done. reflexivity.
Qed.

(** With more passes allowed, a scan that has ended ends the same way. *)
Lemma scan_loop_more speciesName : ∀ fuel st r fuel',
  scan_loop fuel speciesName st = r → r ≠ OutOfFuel → fuel ≤ fuel' →
  scan_loop fuel' speciesName st = r.
Proof.
  induction fuel as [|fuel IH]; intros st r fuel' H Hr Hle.
  - cbn [scan_loop] in H.
    destruct (sc_i st <? String.length speciesName) eqn:E; [congruence|].
    destruct fuel'; cbn [scan_loop]; by rewrite E.
  - destruct fuel' as [|fuel']; [lia|]. cbn [scan_loop] in *.
    destruct (sc_i st <? String.length speciesName); [|done].
    destruct (scan_step speciesName st) as [st1| |]; cbn [mbind outcome_bind] in *;
      [|done..]. apply (IH st1 r fuel'); [done | done | lia].
Qed.

Lemma scan_loop_same speciesName fuel fuel' st :
  scan_loop fuel speciesName st ≠ OutOfFuel →
  scan_loop fuel' speciesName st ≠ OutOfFuel →
  scan_loop fuel' speciesName st = scan_loop fuel speciesName st.
Proof.
  intros H H'. destruct (decide (fuel ≤ fuel')).
  - by apply scan_loop_more with fuel.
  - symmetry. apply scan_loop_more with fuel'; [done | done | lia].
Qed.

Lemma find_loop_decides mass_differs fuel : ∀ l j out,
  Forall (λ sp, String.length (name sp) ≤ fuel) l →
  find_loop mass_differs fuel l j out = OutOfFuel →
  ∀ fuel', find_loop mass_differs fuel' l j out = OutOfFuel.
Proof.
  induction l as [|sp l IH]; intros j out Hall H fuel'; [discriminate|].
  apply Forall_cons in Hall as [Hsp Hall]. cbn [find_loop] in *.
  destruct (scan_loop fuel (name sp) (mkScan 0 j [] out)) as [st| |] eqn:Es;
    cbn [mbind outcome_bind] in H; try discriminate.
  2:{ assert (String.length (name sp) - sc_i (mkScan 0 j [] out) ≤ fuel) as Hb
        by (cbn [sc_i]; lia).
      rewrite (scan_loop_decides _ _ _ Hb Es fuel'). reflexivity. }
  destruct (scan_loop fuel' (name sp) (mkScan 0 j [] out)) as [st'| |] eqn:Es';
    [|exfalso|reflexivity].
  2:{ pose proof (scan_loop_same (name sp) fuel fuel' (mkScan 0 j [] out)) as Hs.
      rewrite Es, Es' in Hs. by discriminate Hs. }
  assert (st' = st) as ->.
  { pose proof (scan_loop_same (name sp) fuel fuel' (mkScan 0 j [] out)) as Hs.
    rewrite Es, Es' in Hs. by injection Hs. }
  cbn [mbind outcome_bind].
  destruct (sum_mass (sc_atoms st) 0) as [m| |]; cbn [mbind outcome_bind] in *;
    try discriminate; [|reflexivity].
  destruct (mass_differs m (mass sp)) as [d| |]; cbn [mbind outcome_bind] in *;
    try discriminate; [|reflexivity].
  destruct (find_loop mass_differs fuel l (sc_j st) _) as [[rest o]| |] eqn:Er;
    cbn [mbind outcome_bind] in H; try discriminate.
  by rewrite (IH _ _ Hall Er fuel').
Qed.

(** X20: the scan of a name ends within as many passes as the name has
    characters, or never.  So if [find_constituents], allowed as many
    passes for each name as the longest name has characters, has not
    returned, it does not return however many passes are allowed. *)
Theorem find_constituents_ends_or_never
    (mass_differs : Z → string → outcome bool) (fuel : nat)
    (speciesList : list Species) :
  Forall (λ sp, String.length (name sp) ≤ fuel) speciesList →
  find_constituents mass_differs fuel speciesList = OutOfFuel →
  ∀ fuel', find_constituents mass_differs fuel' speciesList = OutOfFuel.
Proof. apply find_loop_decides. Qed.

Lemma find_constituents_ends_or_never_witness :
  find_constituents (λ _ _, Ok false) 1000 [species "C18O" "30"] = OutOfFuel.
Proof.
  apply (find_constituents_ends_or_never (λ _ _, Ok false) 4).
  - repeat constructor.
  - vm_compute. reflexivity.
Defined.

(** ** write_odes_f90: the loss term of a two-body reaction *)

Lemma loss_factors_text sl n rs : ∀ todo s tb,
  (loss_factors sl n rs todo s tb).1
  = s +:+ join (map (λ x, (loss_factors sl n rs [x] "" 0).1) todo).
Proof.
  induction todo as [|x todo IH]; intros s tb; [by rewrite append_nil_r|].
  cbn [loss_factors map join foldr].
  destruct (bool_decide (x = n));
    destruct (abundance_factors sl x _) as [t k]; rewrite IH; simpl;
    by rewrite append_assoc.
Qed.

Lemma join_one (g : string → string) x : ∀ l,
  NoDup l → x ∈ l → (∀ y, y ∈ l → y ≠ x → g y = "") →
  join (map g l) = g x.
Proof.
  induction l as [|y l IH]; intros Hnd Hx Hg; [inversion Hx|].
  apply NoDup_cons in Hnd as [Hy Hnd]. cbn [map join foldr].
  apply elem_of_cons in Hx as [->|Hx].
  - assert (foldr String.append "" (map g l) = "") as ->;
      [|by rewrite append_nil_r].
    clear IH Hnd. induction l as [|z l IH]; [reflexivity|]. simpl.
    rewrite (Hg z) by (try (by right; left); intros ->; apply Hy; left).
    apply IH; [|intros z' Hz'; apply Hg].
    + intros H. apply Hy. by right.
    + apply elem_of_cons in Hz' as [->|Hz']; [left | right; by right].
  - rewrite (Hg y) by (try left; intros ->; done). simpl.
    apply IH; auto. intros z Hz. apply Hg. by right.
Qed.

Lemma positions_none n : ∀ l j, n ∉ map name l → positions n j l = [].
Proof.
  induction l as [|sp l IH]; intros j H; [reflexivity|]. simpl in *.
  apply not_elem_of_cons in H as [Hn H].
  rewrite bool_decide_eq_false_2 by done. by apply IH.
Qed.

Lemma positions_one : ∀ l j b sp,
  NoDup (map name l) → l !! b = Some sp → positions (name sp) j l = [j + b].
Proof.
  induction l as [|sp0 l IH]; intros j b sp Hnd Hb; [by destruct b|].
  simpl in Hnd. apply NoDup_cons in Hnd as [H0 Hnd]. simpl.
  destruct b as [|b]; simpl in Hb.
  - injection Hb as ->. rewrite bool_decide_eq_true_2 by done.
    rewrite positions_none by done. by rewrite Nat.add_0_r.
  - rewrite bool_decide_eq_false_2.
    + rewrite (IH (S j) b sp Hnd Hb). f_equal. lia.
    + intros Hn. apply H0. rewrite <-Hn. apply list_elem_of_fmap.
      exists sp. split; [done|]. by apply list_elem_of_lookup_2 with b.
Qed.

Lemma species_factors_none reactant j l :
  species_factors reactant 0 j l = ("", 0).
Proof.
  revert j. induction l as [|sp l IH]; intros j; [reflexivity|]. simpl.
  rewrite IH. by case_bool_decide.
Qed.

(** X21: the loss term of a two-body reaction.  In a list of species
    with different names, for a reaction whose reactants are two
    different species and nothing else, the term written into the loss of
    the first is the rate, once, times the abundance of the second, times
    the density: [-RATE(i+1)*Y(b+1)*D], in whatever order the set of
    reactants is visited. *)
Theorem two_body_loss
    (set_iter : list string → list string) (speciesList : list Species)
    (A B : Species) (b i : nat) (r : Reaction) (lossString formString : string) :
  NoDup (map name speciesList) →
  A ∈ speciesList → speciesList !! b = Some B →
  name A ≠ name B → name B ≠ "E-" → "NAN" ∉ map name speciesList →
  reactants r = [name A; name B; "NAN"] →
  set_iter (reactants r) ≡ₚ [name A; name B; "NAN"] →
  mem (name A) (products r) = false →
  reaction_terms set_iter speciesList A i r lossString formString
  = Ok (lossString +:+ "-" +:+ RATE i +:+ "*" +:+ Y (b + 1) +:+ "*D",
        formString).
Proof.
  intros Hnd HA HB Hab HBe Hnan Hr Hperm Hprod.
  assert (name A ≠ "NAN") as HAn.
  { intros E. apply Hnan. rewrite <-E. apply list_elem_of_fmap. eauto. }
  assert (name B ≠ "NAN") as HBn.
  { intros E. apply Hnan. rewrite <-E. apply list_elem_of_fmap.
    exists B. split; [done|]. by apply list_elem_of_lookup_2 with b. }
  unfold reaction_terms. rewrite Hprod.
  assert (mem (name A) (reactants r) = true) as ->
    by (rewrite Hr; apply bool_decide_eq_true_2; left).
  assert (is_H2_formation (reactants r) (products r) = false) as ->.
  { unfold is_H2_formation. rewrite Hr. cbn [lookup list_lookup].
    destruct (decide (name A = "H")) as [Ea|Ea];
      destruct (decide (name B = "H")) as [Eb|Eb]; [congruence|..];
      rewrite ?(bool_decide_eq_false_2 (Some (name A) = Some "H")) by congruence;
      rewrite ?(bool_decide_eq_false_2 (Some (name B) = Some "H")) by congruence;
      by rewrite ?andb_false_r. }
  cbn [andb].
  assert (count (name A) (reactants r) = 1) as Hca.
  { unfold count. rewrite Hr, filter_cons_True, !filter_cons_False by congruence.
    reflexivity. }
  assert (count (name B) (reactants r) = 1) as Hcb.
  { unfold count. rewrite Hr, filter_cons_False, filter_cons_True,
      filter_cons_False by congruence. reflexivity. }
  assert (count "NAN" (reactants r) = 1) as Hcn.
  { unfold count. rewrite Hr, !filter_cons_False, filter_cons_True by congruence.
    reflexivity. }
  set (g := λ x, loss_factors speciesList (name A) (reactants r) [x] "" 0).
  assert (g (name A) = ("", 1)) as Hga.
  { unfold g. cbn [loss_factors]. rewrite bool_decide_eq_true_2, Hca by done.
    unfold abundance_factors. case_bool_decide; [reflexivity|].
    by rewrite species_factors_none. }
  assert (g (name B) = ("*" +:+ Y (b + 1), 1)) as Hgb.
  { unfold g. cbn [loss_factors]. rewrite bool_decide_eq_false_2, Hcb by congruence.
    unfold abundance_factors. rewrite bool_decide_eq_false_2 by done.
    rewrite species_factors_positions, (positions_one _ 0 b B) by done.
    simpl. by rewrite !append_nil_r. }
  assert (g "NAN" = ("", 0)) as Hgn.
  { unfold g. cbn [loss_factors]. rewrite bool_decide_eq_false_2, Hcn by congruence.
    unfold abundance_factors. rewrite bool_decide_eq_false_2 by done.
    rewrite species_factors_positions, positions_none by done. reflexivity. }
  rewrite Hca.
  destruct (loss_factors speciesList (name A) (reactants r) (set_iter (reactants r))
              (lossString +:+ "-" +:+ multiple 1 +:+ RATE i) 0)
    as [s tb] eqn:E.
  assert (tb = 2) as ->.
  { change tb with (s, tb).2. rewrite <-E, loss_factors_count.
    rewrite (sum_list_with_Permutation_proper _ _ _ Hperm).
    cbn [sum_list_with]. fold (g (name A)) (g (name B)) (g "NAN").
    by rewrite Hga, Hgb, Hgn. }
  assert (s = (lossString +:+ "-" +:+ multiple 1 +:+ RATE i) +:+ "*" +:+ Y (b + 1))
    as ->.
  { change s with (s, 2).1 at 1. rewrite <-E, loss_factors_text. f_equal.
    rewrite (join_one (λ x, (g x).1) (name B)).
    - by rewrite Hgb.
    - rewrite Hperm. repeat constructor; rewrite ?elem_of_cons, ?elem_of_nil;
        intros H; decompose [or] H; congruence.
    - rewrite Hperm. right. left.
    - intros y Hy Hne. rewrite Hperm in Hy.
      repeat (apply elem_of_cons in Hy as [->|Hy]); [by rewrite Hga| done
        | by rewrite Hgn | inversion Hy]. }
  unfold density. cbn [Nat.ltb Nat.leb orb]. simpl multiple.
  by rewrite !append_assoc.
Qed.

Lemma two_body_loss_witness :
  reaction_terms first_seen
    [species "C" "12"; species "O" "16"; species "CO" "28"]
    (species "C" "12") 0 two_body "" ""
  = Ok ("" +:+ "-" +:+ RATE 0 +:+ "*" +:+ Y (1 + 1) +:+ "*D", "").
Proof.
  apply (two_body_loss first_seen _ (species "C" "12") (species "O" "16")).
  - apply (bool_decide_unpack _). vm_compute. exact I.
  - left.
  - reflexivity.
  - discriminate.
  - discriminate.
  - apply (bool_decide_unpack _). vm_compute. exact I.
  - reflexivity.
  - reflexivity.
  - reflexivity.
Defined.

(** ** reaction_check: freeze-out routes *)

Lemma freeze_loop_elem rl : ∀ sl sp,
  sp ∈ sl → 1 < freeze_routes rl (name sp) →
  MultipleFreeze (name sp) (freeze_routes rl (name sp)) ∈ freeze_loop rl sl.
Proof.
  induction sl as [|sp0 sl IH]; intros sp Hsp Hr; [inversion Hsp|]. simpl.
  apply elem_of_app. apply elem_of_cons in Hsp as [->|Hsp].
  - left. rewrite (proj2 (Nat.ltb_lt _ _) Hr). left.
  - right. by apply IH.
Qed.

(** X22: [reaction_check] reports that a name freezes out through [c]
    routes exactly when the name is that of a species of the list, [c] is
    the number of reactions that have both the name and FREEZE among
    their reactants, and [c] is more than one. *)
Theorem reaction_check_freeze_routes
    (speciesList : list Species) (reactionList : list Reaction)
    (n : string) (c : nat) :
  MultipleFreeze n c ∈ reaction_check speciesList reactionList
  ↔ n ∈ map name speciesList ∧ c = freeze_routes reactionList n ∧ 1 < c.
Proof.
  unfold reaction_check.
  destruct (pair_outer_inv reactionList reactionList 0 ([], [], 0) (drop_0 _))
    as [Hok _].
  { split_and!; simpl; [|intros k Hk; inversion Hk | done | done].
    intros a b (? & ? & ? & ? & H). inversion H. }
  { intros k j Hk. lia. }
  destruct (pair_outer reactionList 0 reactionList ([], [], 0))
    as [[dl pairs] dups]. destruct Hok as (_ & _ & _ & H4). simpl in H4.
  rewrite !elem_of_app. split.
  - intros [H|[H|H]].
    + apply freeze_loop_notices in H as (n' & [= -> ->] & ? & ?). auto.
    + rewrite Forall_forall in H4.
      destruct (H4 _ H) as (? & ? & ? & ? & ? & ? & ?). discriminate.
    + destruct (dups =? 0); [|inversion H].
      apply list_elem_of_singleton in H. discriminate.
  - intros ((sp & -> & Hsp)%list_elem_of_fmap & -> & Hc). left.
    by apply freeze_loop_elem.
Qed.
